(** * zstd-learning: the four command-line tools, embedded and verified

    The repository holds four Go programs: [cmd/generate-data],
    [cmd/train-dict], [cmd/compress] and [cmd/decompress].  Each one is a
    linear batch pipeline over the file system that ends with a push of
    metrics to a Pushgateway.  This development embeds the pipelines as
    state-passing functions over an explicit [World] (file bodies, the
    directory structure a walk reports, injected I/O failures, and the
    trace of every effect performed), and proves the properties the
    specification states about them.

    Go's [int] and [int64] are modelled by [Z]: every counter below is
    bounded by a number of files, of samples or of bytes actually held in
    memory, so no wrap-around is reachable.  A Go [string] and a Go
    [[]byte] are sequences of bytes: [string] and [list byte] here. *)

From Stdlib Require Import ZArith Lia List Bool.
From Stdlib.Strings Require Import String Ascii Byte.
From Stdlib Require Import Sorting.Sorted Sorting.Permutation.
From stdpp Require Import base option list gmap strings sorting pretty.

Local Open Scope Z_scope.

#[local] Set Warnings "-register-all".

(** ** Errors *)

(** The error values the programs can tell apart ([errors.Is] against the
    sentinels of [io] and [io/fs]) and the ones they only print. *)
Inductive error : Type :=
| EOF
| ErrUnexpectedEOF
| SkipDir
| SkipAll
| PathError (op path msg : string)
| Errorf (msg : string).

Global Instance error_eq_dec : EqDecision error.
Proof. solve_decision. Defined.

(** [errors.Is(err, target)] for the sentinels: none of the errors of the
    model wraps another one. *)
Definition errors_Is (err target : error) : bool := bool_decide (err = target).

(** [err.Error()], as [%v] prints it. *)
Definition Error (e : error) : string :=
  match e with
  | EOF => "EOF"
  | ErrUnexpectedEOF => "unexpected EOF"
  | SkipDir => "skip this directory"
  | SkipAll => "skip everything and stop the walk"
  | PathError op path msg => op +:+ " " +:+ path +:+ ": " +:+ msg
  | Errorf msg => msg
  end.

(** [strconv.Itoa] and [%d]. *)
Definition Itoa (n : Z) : string := pretty n.

(** ** Bytes and slices *)

(** [len(l)]. *)
Definition len {A} (l : list A) : Z := Z.of_nat (length l).

Global Instance byte_eq_dec : EqDecision byte := Byte.byte_eq_dec.

Definition bytes_of (s : string) : list byte := list_byte_of_string s.

(** ** The directory structure seen by a walk *)

(** [fs.FileMode] type bits, as far as [fs.DirEntry.Type] reports them.  A
    directory is a [Directory] node, so a leaf is never of directory type. *)
Inductive FileType : Type :=
| ModeRegular
| ModeSymlink
| ModeIrregular.

Global Instance FileType_eq_dec : EqDecision FileType.
Proof. solve_decision. Defined.

Record FileInfo : Type := mkFileInfo { Size : Z }.

(** [fs.DirEntry]: what the walk hands to its callback. *)
Record DirEntry : Type := mkDirEntry {
  IsDir : bool;
  Type_ : option FileType;
  Info : FileInfo + error;
}.

(** What [os.Lstat] and [os.ReadDir] report beneath a path.  A leaf is any
    entry that is not a directory; its [Info] may fail (the entry vanished
    after it was listed).  A directory holds the entries [os.ReadDir]
    returned, in the order it returned them, and the error it returned with
    them, if any. *)
Inductive node : Type :=
| Leaf (ty : FileType) (info : FileInfo + error)
| Directory (entries : list (string * node)) (readErr : option error).

Definition entry_of (n : node) : DirEntry :=
  match n with
  | Leaf ty info => mkDirEntry false (Some ty) info
  | Directory _ _ => mkDirEntry true None (inl (mkFileInfo 4096))
  end.

(** A callback is called either with an entry and no error, or with an
    error (and the entry, unless [os.Lstat] of the root failed). *)
Inductive visit : Type :=
| Visit (d : DirEntry)
| VisitErr (d : option DirEntry) (err : error).

(** ** External libraries *)

(** [path/filepath] and [strings]: taken as given.  The tools use [Join],
    [Rel], [Dir], [Base] and [Separator] of the first,
    [TrimSpace] and [ToLower] of the second, with [strconv.Atoi]. *)
Record Filepath : Type := mkFilepath {
  Join : string → string → string;
  Rel : string → string → string * option error;
  Dir : string → string;
  Base : string → string;
  Separator : string;
}.

Record Strings : Type := mkStrings {
  TrimSpace : string → string;
  ToLower : string → string;
  Atoi : string → Z * option error;
}.

(** The line feed that ends every message. *)
Definition nl : string := String "010"%char "".

(** [strconv.FormatBool]. *)
Definition FormatBool (b : bool) : string := if b then "true" else "false".

(** [strings.TrimSuffix]. *)
Definition HasSuffix (s suffix : string) : bool :=
  (String.length suffix <=? String.length s)%nat
  && String.eqb (String.substring (String.length s - String.length suffix)
                                  (String.length suffix) s) suffix.

Definition TrimSuffix (s suffix : string) : string :=
  if HasSuffix s suffix
  then String.substring 0 (String.length s - String.length suffix) s
  else s.

(** ** [filepath.WalkDir] *)

Section WalkDir.
Context (fp : Filepath) {S : Type}.
Variable fn : string → visit → S → S * option error.

(** [walkDir] of path/filepath: visit the entry; for a directory, report a
    [ReadDir] error with a second call, then visit the entries in order. *)
Fixpoint walkDir (path : string) (n : node) (s : S) : S * option error :=
  let d := entry_of n in
  match fn path (Visit d) s with
  | (s1, Some err) =>
      if errors_Is err SkipDir && IsDir d then (s1, None) else (s1, Some err)
  | (s1, None) =>
      match n with
      | Leaf _ _ => (s1, None)
      | Directory entries readErr =>
          let r :=
            match readErr with
            | Some e => fn path (VisitErr (Some d) e) s1
            | None => (s1, None)
            end in
          match r with
          | (s2, Some err) =>
              if errors_Is err SkipDir && IsDir d then (s2, None)
              else (s2, Some err)
          | (s2, None) =>
              (fix walkEntries (l : list (string * node)) (s : S)
                 : S * option error :=
                 match l with
                 | [] => (s, None)
                 | (name, c) :: tl =>
                     match walkDir (Join fp path name) c s with
                     | (s', Some err) =>
                         if errors_Is err SkipDir then (s', None)
                         else (s', Some err)
                     | (s', None) => walkEntries tl s'
                     end
                 end) entries s2
          end
      end
  end.

(** [filepath.WalkDir]: [lstat] is the result of [os.Lstat(root)]. *)
Definition WalkDir (lstat : node + error) (root : string) (s : S)
  : S * option error :=
  let r :=
    match lstat with
    | inr err => fn root (VisitErr None err) s
    | inl n => walkDir root n s
    end in
  match r with
  | (s', Some err) =>
      if errors_Is err SkipDir || errors_Is err SkipAll then (s', None)
      else (s', Some err)
  | (s', None) => (s', None)
  end.
End WalkDir.

(** ** [sort.Strings] *)

(** Go compares strings byte by byte, as [String.le] does.  The order is
    total and antisymmetric, so the sorted permutation of a list is unique
    and the sorting algorithm does not matter. *)
Definition sort_Strings (l : list string) : list string :=
  merge_sort String.le l.

(** ** [listFiles]: the same function in compress, decompress and train-dict *)

(** The callback handed to [filepath.WalkDir]; [paths] is the slice the
    closure appends to. *)
Definition listFiles_fn (path : string) (v : visit) (paths : list string)
  : list string * option error :=
  match v with
  | VisitErr _ err => (paths, Some err)
  | Visit d =>
      if IsDir d then (paths, None)
      else
        match Info d with
        | inr err => (paths, Some err)
        | inl info =>
            if Size info =? 0 then (paths, None)
            else (paths ++ [path], None)
        end
  end.

Definition listFiles_on (fp : Filepath) (lstat : node + error) (dir : string)
  : list string * option error :=
  match WalkDir fp listFiles_fn lstat dir [] with
  | (paths, Some err) =>
      if negb (errors_Is err SkipDir) then ([], Some err)
      else (sort_Strings paths, None)
  | (paths, None) => (sort_Strings paths, None)
  end.

(** ** The compression library: klauspost/compress *)

(** [zstd.EncoderLevel]; [speedNotSet] is its zero value. *)
Inductive EncoderLevel : Type :=
| speedNotSet
| SpeedFastest
| SpeedDefault
| SpeedBetterCompression
| SpeedBestCompression.

Global Instance EncoderLevel_eq_dec : EqDecision EncoderLevel.
Proof. solve_decision. Defined.

(** [dict.Options], with the fields the trainer sets. *)
Record dict_Options : Type := mkDictOptions {
  MaxDictSize : Z;
  HashBytes : Z;
  ZstdLevel : EncoderLevel;
}.

Global Instance dict_Options_eq_dec : EqDecision dict_Options.
Proof. solve_decision. Defined.

(** [zstd.EOption] and [zstd.DOption], as the tools build them. *)
Inductive EOption : Type :=
| WithEncoderLevel (l : EncoderLevel)
| WithEncoderDict (d : list byte).

Inductive DOption : Type :=
| WithDecoderDicts (d : list byte).

(** The library is taken as given: whether a set of options is accepted,
    the frame an encoder writes for a body, what a decoder reads out of a
    stream, and the dictionary trained from samples. *)
Record Zstd : Type := mkZstd {
  EncoderLevelFromZstd : Z → EncoderLevel;
  NewWriter : list EOption → option error;
  encode : list EOption → list byte → list byte;
  NewReader : list DOption → option error;
  decode : list DOption → list byte → list byte + error;
  BuildZstdDict : list (list byte) → dict_Options → list byte * option error;
}.

(** ** The world the tools run in *)

(** Every effect a tool performs is one [Event].  The trace of a run is the
    list of its events in the order they happened. *)
Inductive Event : Type :=
| EvMkdirAll (path : string)
| EvWalkDir (root : string)
| EvOpen (path : string)
| EvCreate (path : string)
| EvRead (path : string) (offset : nat)
| EvWrite (path : string)
| EvClose (path : string)
| EvStat (path : string)
| EvReadFile (path : string)
| EvWriteFile (path : string)
| EvTrain (samples : list (list byte)) (options : dict_Options)
| EvPush (url job : string) (grouping : list (string * string))
| EvNow
| EvStdin
| EvStdout (text : string)
| EvStderr (text : string).

Global Instance Event_eq_dec : EqDecision Event.
Proof. solve_decision. Defined.

(** [w_files] holds the bodies of the files, by path, and is what the tools
    write.  [w_lstat] is the directory structure a walk reports; nothing
    ties its sizes to [w_files], so every statement below holds whatever the
    walk reports.  [w_fault] lets any call fail for a reason the model does
    not track (permissions, a full disk, the network).  [w_clock] gives the
    text of the k-th reading of the clock in a layout, [w_stdin] the lines
    still to be read from standard input.  A buffered reader takes more from
    standard input than the line it returns, and what it has taken is lost
    with it: [w_ahead] gives, for the lines that follow the last line a
    reader returned, the lines the next reader finds (all of them on a
    terminal, which hands over one line at a time; none of a short file or
    pipe, which the first reader took whole). *)
Record World : Type := mkWorld {
  w_files : gmap string (list byte);
  w_lstat : string → node + error;
  w_fault : Event → option error;
  w_clock : nat → string → string;
  w_ticks : nat;
  w_stdin : list string;
  w_ahead : list string → list string;
  w_trace : list Event;
}.

Definition IO (A : Type) : Type := World → World * A.

Definition ret {A} (a : A) : IO A := λ w, (w, a).

Definition bind {A B} (m : IO A) (k : A → IO B) : IO B :=
  λ w, let (w', a) := m w in k a w'.

Notation "'let*' x ':=' m 'in' k" := (bind m (λ x, k))
  (at level 10, x pattern, m at level 100, k at level 200).

Definition log (ev : Event) (w : World) : World :=
  mkWorld (w_files w) (w_lstat w) (w_fault w) (w_clock w) (w_ticks w)
          (w_stdin w) (w_ahead w) (w_trace w ++ [ev]).

Definition set_file (path : string) (data : list byte) (w : World) : World :=
  mkWorld (<[path := data]> (w_files w)) (w_lstat w) (w_fault w) (w_clock w)
          (w_ticks w) (w_stdin w) (w_ahead w) (w_trace w).

(** Perform a call: record it, and report the failure injected for it. *)
Definition call (ev : Event) : IO (option error) :=
  λ w, (log ev w, w_fault w ev).

Definition os_MkdirAll (path : string) : IO (option error) :=
  call (EvMkdirAll path).

(** [os.Open]: the handle is the path; the body is read when the handle
    is. *)
Definition os_Open (path : string) : IO (option error) :=
  let* err := call (EvOpen path) in
  match err with
  | Some e => ret (Some e)
  | None =>
      λ w, match w_files w !! path with
           | Some _ => (w, None)
           | None => (w, Some (PathError "open" path "no such file or directory"))
           end
  end.

(** [os.Create]: creates or truncates. *)
Definition os_Create (path : string) : IO (option error) :=
  let* err := call (EvCreate path) in
  match err with
  | Some e => ret (Some e)
  | None => λ w, (set_file path [] w, None)
  end.

Definition os_Close (path : string) : IO (option error) :=
  call (EvClose path).

(** [os.Stat(path)] followed by [info.Size()]. *)
Definition os_Stat (path : string) : IO (Z * option error) :=
  let* err := call (EvStat path) in
  match err with
  | Some e => ret (0, Some e)
  | None =>
      λ w, match w_files w !! path with
           | Some data => (w, (Z.of_nat (length data), None))
           | None => (w, (0, Some (PathError "stat" path "no such file or directory")))
           end
  end.

Definition os_ReadFile (path : string) : IO (list byte * option error) :=
  let* err := call (EvReadFile path) in
  match err with
  | Some e => ret ([], Some e)
  | None =>
      λ w, match w_files w !! path with
           | Some data => (w, (data, None))
           | None => (w, ([], Some (PathError "open" path "no such file or directory")))
           end
  end.

(** Read all that is left of an open file, as [io.Copy] does. *)
Definition read_all (path : string) : IO (list byte * option error) :=
  let* err := call (EvRead path 0) in
  match err with
  | Some e => ret ([], Some e)
  | None => λ w, (w, (default [] (w_files w !! path), None))
  end.

(** Write a whole body to an open file. *)
Definition write_all (path : string) (data : list byte) : IO (option error) :=
  let* err := call (EvWrite path) in
  match err with
  | Some e => ret (Some e)
  | None => λ w, (set_file path data w, None)
  end.

(** [os.WriteFile]: it opens the file with [O_WRONLY|O_CREATE|O_TRUNC],
    writes the data and closes the file.  When the open fails the file is
    as it was.  Once it is open the file is there and empty, whatever
    becomes of the write and of the close; the error returned is that of
    the write, or else that of the close. *)
Definition os_WriteFile (path : string) (data : list byte) : IO (option error) :=
  let* err := call (EvWriteFile path) in
  match err with
  | Some e => ret (Some e)
  | None =>
      let* _ := (λ w, (set_file path [] w, tt)) in
      let* err := write_all path data in
      let* err1 := os_Close path in
      ret (match err with Some e => Some e | None => err1 end)
  end.

Definition Fprint_stderr (text : string) : IO unit :=
  λ w, (log (EvStderr text) w, tt).

Definition Print_stdout (text : string) : IO unit :=
  λ w, (log (EvStdout text) w, tt).

(** [time.Now().Format(layout)]. *)
Definition time_Now_Format (layout : string) : IO string :=
  λ w, (mkWorld (w_files w) (w_lstat w) (w_fault w) (w_clock w)
                (Datatypes.S (w_ticks w)) (w_stdin w) (w_ahead w)
                (w_trace w ++ [EvNow]),
        w_clock w (w_ticks w) layout).

(** [listFiles], run in the world. *)
Definition listFiles (fp : Filepath) (dir : string)
  : IO (list string * option error) :=
  λ w, (log (EvWalkDir dir) w, listFiles_on fp (w_lstat w dir) dir).

(** A tool either runs to the end of [main] or stops at an [os.Exit]. *)
Inductive outcome (A : Type) : Type :=
| Continue (a : A)
| Exit (code : Z).
Arguments Continue {A} a.
Arguments Exit {A} code.

Definition Proc (A : Type) : Type := IO (outcome A).

Definition pbind {A B} (m : Proc A) (k : A → Proc B) : Proc B :=
  λ w, match m w with
       | (w', Continue a) => k a w'
       | (w', Exit code) => (w', Exit code)
       end.

Definition run {A} (m : IO A) : Proc A :=
  λ w, let (w', a) := m w in (w', Continue a).

Definition os_Exit {A} (code : Z) : Proc A := λ w, (w, Exit code).

(** Print to standard error and leave with code 1: the way every tool
    reports a fatal condition. *)
Definition fatal {A} (text : string) : Proc A :=
  pbind (run (Fprint_stderr text)) (λ _, os_Exit 1).

Notation "'do' x '<-' m ';' k" := (pbind m (λ x, k))
  (at level 10, x pattern, m at level 100, k at level 200).

(** * cmd/train-dict *)

Module TrainDict.

Record sampleStats : Type := mkSampleStats {
  FilesScanned : Z;
  Samples : Z;
  SampleBytes : Z;
}.

(** The four bytes [bytesTrimSpace] switches on: ' ', '\n', '\r', '\t'. *)
Definition isTrimByte (b : byte) : bool :=
  match b with
  | x20 | x0a | x0d | x09 => true
  | _ => false
  end.

(** The first loop of [bytesTrimSpace]: [start++] while [start < end] and
    [input[start]] is one of the four bytes.  It runs at most [end - start]
    times, which is the fuel it is given. *)
Fixpoint trimStart (fuel : nat) (input : list byte) (start end_ : nat) : nat :=
  match fuel with
  | O => start
  | Datatypes.S fuel' =>
      if (start <? end_)%nat then
        match input !! start with
        | Some b =>
            if isTrimByte b then trimStart fuel' input (Datatypes.S start) end_
            else start
        | None => start
        end
      else start
  end.

(** The second loop: [end--] while [end > start] and [input[end-1]] is one
    of the four bytes. *)
Fixpoint trimEnd (fuel : nat) (input : list byte) (start end_ : nat) : nat :=
  match fuel with
  | O => end_
  | Datatypes.S fuel' =>
      if (start <? end_)%nat then
        match input !! (end_ - 1)%nat with
        | Some b =>
            if isTrimByte b then trimEnd fuel' input start (end_ - 1)%nat
            else end_
        | None => end_
        end
      else end_
  end.

(** [input[start:end]]. *)
Definition slice (input : list byte) (start end_ : nat) : list byte :=
  take (end_ - start) (drop start input).

Definition bytesTrimSpace (input : list byte) : list byte :=
  let end0 := length input in
  let start := trimStart end0 input 0 end0 in
  let end_ := trimEnd (end0 - start) input start end0 in
  slice input start end_.

(** [io.ReadFull(reader, buf)] with [len(buf) = m], on a file whose body is
    [body] and of which [off] bytes have been read: the bytes [buf[:n]] and
    the error.  An empty buffer is filled at once. *)
Definition io_ReadFull (path : string) (body : list byte) (off m : nat)
  : IO (list byte * option error) :=
  if (m =? 0)%nat then ret ([], None)
  else
    let* err := call (EvRead path off) in
    match err with
    | Some e => ret ([], Some e)
    | None =>
        let rest := drop off body in
        if (length rest =? 0)%nat then ret ([], Some EOF)
        else if (length rest <? m)%nat then ret (rest, Some ErrUnexpectedEOF)
        else ret (take m rest, None)
    end.

(** The loop of [readSamplesFromFile].  [None] when the fuel runs out: the
    Go loop does not end. *)
Fixpoint readSamples_loop (fuel : nat) (path : string) (body : list byte)
    (off m : nat) (maxSamples : Z) (samples : list (list byte)) (total : Z)
  : IO (option (list (list byte) * Z * option error)) :=
  if negb (len samples <? maxSamples) then ret (Some (samples, total, None))
  else
    match fuel with
    | O => ret None
    | Datatypes.S fuel' =>
        let* (chunk, err) := io_ReadFull path body off m in
        match err with
        | Some e =>
            if errors_Is e EOF || errors_Is e ErrUnexpectedEOF then
              if (length chunk =? 0)%nat then ret (Some (samples, total, None))
              else
                let data := bytesTrimSpace chunk in
                if len data >? 0
                then ret (Some (samples ++ [data], total + len data, None))
                else ret (Some (samples, total, None))
            else ret (Some ([], total, Some e))
        | None =>
            let data := bytesTrimSpace chunk in
            if len data =? 0
            then readSamples_loop fuel' path body (off + length chunk)%nat m
                   maxSamples samples total
            else readSamples_loop fuel' path body (off + length chunk)%nat m
                   maxSamples (samples ++ [data]) (total + len data)
        end
    end.

(** [readSamplesFromFile].  [None] stands for a run that does not return:
    [make([]byte, maxBytes)] panics for a negative size, and the loop never
    ends for a zero one. *)
Definition readSamplesFromFile (path : string) (maxBytes maxSamples : Z)
  : IO (option (list (list byte) * Z * option error)) :=
  let* err := os_Open path in
  match err with
  | Some e => ret (Some ([], 0, Some e))
  | None =>
      if maxBytes <? 0 then ret None
      else
        let* body := (λ w, (w, default [] (w_files w !! path))) in
        let* r := readSamples_loop (Datatypes.S (length body)) path body 0
                    (Z.to_nat maxBytes) maxSamples [] 0 in
        let* _ := os_Close path in
        ret r
  end.

(** The loop of [collectSamples] over the listed paths. *)
Fixpoint collectSamples_loop (paths : list string)
    (maxSamples maxSampleBytes : Z) (samples : list (list byte))
    (stats : sampleStats)
  : IO (option (list (list byte) * sampleStats * option error)) :=
  match paths with
  | [] => ret (Some (samples, stats, None))
  | path :: rest =>
      if len samples >=? maxSamples then ret (Some (samples, stats, None))
      else
        let* r := readSamplesFromFile path maxSampleBytes
                    (maxSamples - len samples) in
        match r with
        | None => ret None
        | Some (_, _, Some err) => ret (Some ([], stats, Some err))
        | Some (chunks, readBytes, None) =>
            if len chunks =? 0
            then collectSamples_loop rest maxSamples maxSampleBytes samples stats
            else collectSamples_loop rest maxSamples maxSampleBytes
                   (samples ++ chunks)
                   (mkSampleStats (FilesScanned stats + 1)
                                  (Samples stats + len chunks)
                                  (SampleBytes stats + readBytes))
        end
  end.

(** [collectSamples].  [None]: [make] panics on the negative capacity
    [min(maxSamples, len(paths))], or a file read does not return. *)
Definition collectSamples (fp : Filepath) (dir : string)
    (maxSamples maxSampleBytes : Z)
  : IO (option (list (list byte) * sampleStats * option error)) :=
  let* (paths, err) := listFiles fp dir in
  match err with
  | Some e => ret (Some ([], mkSampleStats 0 0 0, Some e))
  | None =>
      if len paths =? 0
      then ret (Some ([], mkSampleStats 0 0 0,
                      Some (Errorf ("no files found in " +:+ dir))))
      else if Z.min maxSamples (len paths) <? 0 then ret None
      else
        let* r := collectSamples_loop paths maxSamples maxSampleBytes []
                    (mkSampleStats 0 0 0) in
        match r with
        | None => ret None
        | Some (samples, stats, Some e) => ret (Some (samples, stats, Some e))
        | Some (samples, stats, None) =>
            if len samples <? 2
            then ret (Some ([], stats,
                   Some (Errorf ("not enough samples to train (got "
                     +:+ Itoa (len samples)
                     +:+ "). Increase data or lower max-sample-bytes to create more chunks"))))
            else ret (Some (samples, stats, None))
        end
  end.

(** [parseZstdLevel]. *)
Definition parseZstdLevel (level : Z) : EncoderLevel :=
  match level with
  | 1 => SpeedFastest
  | 2 => SpeedDefault
  | 3 => SpeedBetterCompression
  | 4 => SpeedBestCompression
  | _ => SpeedBestCompression
  end.

(** The flags of the trainer, parsed. *)
Record Config : Type := mkConfig {
  inputDir : string;
  outDir : string;
  outFile : string;
  dictSize : Z;
  maxSamples : Z;
  maxSampleBytes : Z;
  zstdLevel : Z;
  pushURL : string;
}.

Section Main.
Context (fp : Filepath) (st : Strings) (z : Zstd).

(** [pushMetrics]: a fresh registry takes the seven gauges without error;
    what is left to fail is the push itself. *)
Definition pushMetrics (url : string) (stats : sampleStats)
    (outputBytes dictSize : Z) (source : string) : IO (option error) :=
  let source := TrimSpace st source in
  let source := if String.eqb source "" then "output" else source in
  call (EvPush url "train-dict"
          [("source", source); ("dict_size", Itoa dictSize)]).

(** The options handed to [dict.BuildZstdDict]. *)
Definition train_options (cfg : Config) : dict_Options :=
  let options := mkDictOptions (dictSize cfg) 6 speedNotSet in
  if zstdLevel cfg >? 0
  then mkDictOptions (MaxDictSize options) (HashBytes options)
                     (parseZstdLevel (zstdLevel cfg))
  else options.

(** [main], up to and including [collectSamples]: the output path, the
    samples and their statistics. *)
Definition main_collect (cfg : Config)
  : Proc (string * list (list byte) * sampleStats) :=
  if dictSize cfg <=? 0 then fatal ("dict-size must be positive" +:+ nl)
  else if maxSamples cfg <=? 0 then fatal ("max-samples must be positive" +:+ nl)
  else if maxSampleBytes cfg <=? 0
  then fatal ("max-sample-bytes must be positive" +:+ nl)
  else
    do err <- run (os_MkdirAll (outDir cfg));
    match err with
    | Some e => fatal ("failed to create output dir: " +:+ Error e +:+ nl)
    | None =>
    do outputPath <-
      (if String.eqb (outFile cfg) ""
       then run (let* now := time_Now_Format "20060102_150405" in
                 ret (Join fp (outDir cfg)
                        ("zstd_dict_" +:+ now +:+ ".zdict")))
       else run (ret (outFile cfg)));
    do r <- run (collectSamples fp (inputDir cfg) (maxSamples cfg)
                   (maxSampleBytes cfg));
    match r with
    | None => os_Exit 2
    | Some (_, _, Some e) =>
        fatal ("failed to collect samples: " +:+ Error e +:+ nl)
    | Some (samples, stats, None) => run (ret (outputPath, samples, stats))
    end end.

(** [main], from [dict.BuildZstdDict] to the writing of the dictionary. *)
Definition main_train (cfg : Config)
    (r : string * list (list byte) * sampleStats)
  : Proc (sampleStats * list byte * string) :=
  let '(outputPath, samples, stats) := r in
  let options := train_options cfg in
  do _ <- run (call (EvTrain samples options));
  match BuildZstdDict z samples options with
  | (_, Some e) => fatal ("failed to train dictionary: " +:+ Error e +:+ nl)
  | (trained, None) =>
  do err <- run (os_MkdirAll (Dir fp outputPath));
  match err with
  | Some e => fatal ("failed to create output dir: " +:+ Error e +:+ nl)
  | None =>
  do err <- run (os_WriteFile outputPath trained);
  match err with
  | Some e => fatal ("failed to write dictionary: " +:+ Error e +:+ nl)
  | None => run (ret (stats, trained, outputPath))
  end end end.

(** [main], up to and including the writing of the dictionary. *)
Definition main_work (cfg : Config)
  : Proc (sampleStats * list byte * string) :=
  do r <- main_collect cfg; main_train cfg r.

(** [main], from the push of the metrics on. *)
Definition main_report (cfg : Config)
    (r : sampleStats * list byte * string) : Proc unit :=
  let '(stats, trained, outputPath) := r in
  let sourceLabel := Base fp (inputDir cfg) in
  let sourceLabel :=
    if String.eqb sourceLabel "." || String.eqb sourceLabel (Separator fp)
    then "output" else sourceLabel in
  do err <- run (pushMetrics (pushURL cfg) stats (len trained) (dictSize cfg)
                   sourceLabel);
  match err with
  | Some e => fatal ("metrics push failed: " +:+ Error e +:+ nl)
  | None =>
      run (Print_stdout ("trained dictionary " +:+ outputPath +:+ " ("
             +:+ Itoa (len trained) +:+ " bytes) from "
             +:+ Itoa (Samples stats) +:+ " samples" +:+ nl))
  end.

Definition main (cfg : Config) : Proc unit :=
  do r <- main_work cfg; main_report cfg r.
End Main.

End TrainDict.

(** * cmd/compress *)

Record runStats : Type := mkRunStats {
  FilesProcessed : Z;
  InputBytes : Z;
  OutputBytes : Z;
}.

Module Compress.

Record Config : Type := mkConfig {
  inputDir : string;
  outDir : string;
  level : Z;
  useDict : bool;
  dictPath : string;
  pushURL : string;
}.

Section Main.
Context (fp : Filepath) (st : Strings) (z : Zstd).

(** The encoder options [compressFiles] builds. *)
Definition encoder_options (level : Z) (dictBytes : list byte)
  : list EOption :=
  (if negb (level =? 0)
   then [WithEncoderLevel (EncoderLevelFromZstd z level)] else [])
  ++ (if len dictBytes >? 0 then [WithEncoderDict dictBytes] else []).

(** Where the compressed copy of [path] goes. *)
Definition out_path (outDir rel : string) : string :=
  Join fp outDir rel +:+ ".zst".

(** [encoder.Reset(outFile)], [io.Copy(encoder, inFile)] and
    [encoder.Close()]: the body of [path] is read and its frame written
    to [outPath].  Returns the number of bytes read. *)
Definition copy_encode (options : list EOption) (path outPath : string)
  : IO (Z * option error) :=
  let* (data, err) := read_all path in
  match err with
  | Some e => ret (0, Some e)
  | None =>
      let* err := write_all outPath (encode z options data) in
      ret (len data, err)
  end.

(** One turn of the loop of [compressFiles]. *)
Definition compressFiles_body (options : list EOption)
    (baseDir outDir path : string) (stats : runStats)
  : IO (runStats * option error) :=
  match Rel fp baseDir path with
  | (_, Some e) => ret (stats, Some e)
  | (rel, None) =>
  let outPath := out_path outDir rel in
  let* err := os_MkdirAll (Dir fp outPath) in
  match err with
  | Some e => ret (stats, Some e)
  | None =>
  let* err := os_Open path in
  match err with
  | Some e => ret (stats, Some e)
  | None =>
  let* err := os_Create outPath in
  match err with
  | Some e => let* _ := os_Close path in ret (stats, Some e)
  | None =>
  let* (written, err) := copy_encode options path outPath in
  match err with
  | Some e =>
      let* _ := os_Close outPath in
      let* _ := os_Close path in
      ret (stats, Some e)
  | None =>
  let* err := os_Close outPath in
  match err with
  | Some e => let* _ := os_Close path in ret (stats, Some e)
  | None =>
  let* err := os_Close path in
  match err with
  | Some e => ret (stats, Some e)
  | None =>
  let* (size, err) := os_Stat outPath in
  match err with
  | Some e => ret (stats, Some e)
  | None =>
      ret (mkRunStats (FilesProcessed stats + 1)
                      (InputBytes stats + written)
                      (OutputBytes stats + size), None)
  end end end end end end end end.

Fixpoint compressFiles_loop (options : list EOption)
    (baseDir outDir : string) (paths : list string) (stats : runStats)
  : IO (runStats * option error) :=
  match paths with
  | [] => ret (stats, None)
  | path :: rest =>
      let* (stats', err) :=
        compressFiles_body options baseDir outDir path stats in
      match err with
      | Some e => ret (stats', Some e)
      | None => compressFiles_loop options baseDir outDir rest stats'
      end
  end.

Definition compressFiles (paths : list string) (baseDir outDir : string)
    (level : Z) (dictBytes : list byte) : IO (runStats * option error) :=
  let stats := mkRunStats 0 0 0 in
  let options := encoder_options level dictBytes in
  match NewWriter z options with
  | Some e => ret (stats, Some e)
  | None => compressFiles_loop options baseDir outDir paths stats
  end.

Definition pushMetrics (url : string) (stats : runStats) (source : string)
    (level : Z) (useDict : bool) : IO (option error) :=
  let source := TrimSpace st source in
  let source := if String.eqb source "" then "output" else source in
  let levelLabel := if negb (level =? 0) then Itoa level else "default" in
  call (EvPush url "compress"
          [("source", source); ("use_dict", FormatBool useDict);
           ("level", levelLabel)]).

(** [main], up to and including [compressFiles]. *)
Definition main_work (cfg : Config) : Proc runStats :=
  if useDict cfg && String.eqb (TrimSpace st (dictPath cfg)) ""
  then fatal ("-dict is required when -use-dict is set" +:+ nl)
  else
    do err <- run (os_MkdirAll (outDir cfg));
    match err with
    | Some e => fatal ("failed to create output dir: " +:+ Error e +:+ nl)
    | None =>
    do r <- run (listFiles fp (inputDir cfg));
    match r with
    | (_, Some e) => fatal ("failed to list input files: " +:+ Error e +:+ nl)
    | (paths, None) =>
    if len paths =? 0
    then fatal ("no files found in " +:+ inputDir cfg +:+ nl)
    else
    do dictBytes <-
      (if useDict cfg
       then do r <- run (os_ReadFile (dictPath cfg));
            match r with
            | (_, Some e) => fatal ("failed to read dict: " +:+ Error e +:+ nl)
            | (data, None) => run (ret data)
            end
       else run (ret []));
    do r <- run (compressFiles paths (inputDir cfg) (outDir cfg) (level cfg)
                   dictBytes);
    match r with
    | (_, Some e) => fatal ("compression failed: " +:+ Error e +:+ nl)
    | (stats, None) => run (ret stats)
    end end end.

(** [main], from the push of the metrics on. *)
Definition main_report (cfg : Config) (stats : runStats) : Proc unit :=
  let sourceLabel := Base fp (inputDir cfg) in
  let sourceLabel :=
    if String.eqb sourceLabel "." || String.eqb sourceLabel (Separator fp)
    then "output" else sourceLabel in
  do err <- run (pushMetrics (pushURL cfg) stats sourceLabel (level cfg)
                   (useDict cfg));
  match err with
  | Some e => fatal ("metrics push failed: " +:+ Error e +:+ nl)
  | None =>
      run (Print_stdout ("compressed " +:+ Itoa (FilesProcessed stats)
             +:+ " files (" +:+ Itoa (InputBytes stats) +:+ " bytes -> "
             +:+ Itoa (OutputBytes stats) +:+ " bytes) into "
             +:+ outDir cfg +:+ nl))
  end.

Definition main (cfg : Config) : Proc unit :=
  do stats <- main_work cfg; main_report cfg stats.
End Main.

End Compress.

(** * cmd/decompress *)

Module Decompress.

Record Config : Type := mkConfig {
  inputDir : string;
  outDir : string;
  useDict : bool;
  dictPath : string;
  runID : string;
  pushURL : string;
}.

Section Main.
Context (fp : Filepath) (st : Strings) (z : Zstd).

Definition decoder_options (dictBytes : list byte) : list DOption :=
  if len dictBytes >? 0 then [WithDecoderDicts dictBytes] else [].

(** The output path relative to the output directory: the suffix is cut
    off, or [".out"] is added when there was none to cut. *)
Definition out_rel (rel : string) : string :=
  let outRel := TrimSuffix rel ".zst" in
  if String.eqb outRel rel then rel +:+ ".out" else outRel.

(** [decoder.Reset(inFile)] and [io.Copy(outFile, decoder)].  Returns the
    number of bytes written. *)
Definition copy_decode (options : list DOption) (path outPath : string)
  : IO (Z * option error) :=
  let* (data, err) := read_all path in
  match err with
  | Some e => ret (0, Some e)
  | None =>
      match decode z options data with
      | inr e => ret (0, Some e)
      | inl plain =>
          let* err := write_all outPath plain in
          ret (len plain, err)
      end
  end.

(** One turn of the loop of [decompressFiles]. *)
Definition decompressFiles_body (options : list DOption)
    (baseDir outDir path : string) (stats : runStats)
  : IO (runStats * option error) :=
  match Rel fp baseDir path with
  | (_, Some e) => ret (stats, Some e)
  | (rel, None) =>
  let outPath := Join fp outDir (out_rel rel) in
  let* err := os_MkdirAll (Dir fp outPath) in
  match err with
  | Some e => ret (stats, Some e)
  | None =>
  let* err := os_Open path in
  match err with
  | Some e => ret (stats, Some e)
  | None =>
  let* err := os_Create outPath in
  match err with
  | Some e => let* _ := os_Close path in ret (stats, Some e)
  | None =>
  let* (written, err) := copy_decode options path outPath in
  match err with
  | Some e =>
      let* _ := os_Close outPath in
      let* _ := os_Close path in
      ret (stats, Some e)
  | None =>
  let* err := os_Close outPath in
  match err with
  | Some e => let* _ := os_Close path in ret (stats, Some e)
  | None =>
  let* err := os_Close path in
  match err with
  | Some e => ret (stats, Some e)
  | None =>
  let* (size, err) := os_Stat path in
  match err with
  | Some e => ret (stats, Some e)
  | None =>
      ret (mkRunStats (FilesProcessed stats + 1)
                      (InputBytes stats + size)
                      (OutputBytes stats + written), None)
  end end end end end end end end.

Fixpoint decompressFiles_loop (options : list DOption)
    (baseDir outDir : string) (paths : list string) (stats : runStats)
  : IO (runStats * option error) :=
  match paths with
  | [] => ret (stats, None)
  | path :: rest =>
      let* (stats', err) :=
        decompressFiles_body options baseDir outDir path stats in
      match err with
      | Some e => ret (stats', Some e)
      | None => decompressFiles_loop options baseDir outDir rest stats'
      end
  end.

Definition decompressFiles (paths : list string) (baseDir outDir : string)
    (dictBytes : list byte) : IO (runStats * option error) :=
  let stats := mkRunStats 0 0 0 in
  let options := decoder_options dictBytes in
  match NewReader z options with
  | Some e => ret (stats, Some e)
  | None => decompressFiles_loop options baseDir outDir paths stats
  end.

Definition pushMetrics (url : string) (stats : runStats) (source : string)
    (useDict : bool) (runID : string) : IO (option error) :=
  let source := TrimSpace st source in
  let source := if String.eqb source "" then "compressed" else source in
  call (EvPush url "decompress"
          [("source", source); ("use_dict", FormatBool useDict);
           ("run_id", runID)]).

(** [main], up to and including [decompressFiles]. *)
Definition main_work (cfg : Config) : Proc runStats :=
  if useDict cfg && String.eqb (TrimSpace st (dictPath cfg)) ""
  then fatal ("-dict is required when -use-dict is set" +:+ nl)
  else
    do err <- run (os_MkdirAll (outDir cfg));
    match err with
    | Some e => fatal ("failed to create output dir: " +:+ Error e +:+ nl)
    | None =>
    do r <- run (listFiles fp (inputDir cfg));
    match r with
    | (_, Some e) => fatal ("failed to list input files: " +:+ Error e +:+ nl)
    | (paths, None) =>
    if len paths =? 0
    then fatal ("no files found in " +:+ inputDir cfg +:+ nl)
    else
    do dictBytes <-
      (if useDict cfg
       then do r <- run (os_ReadFile (dictPath cfg));
            match r with
            | (_, Some e) => fatal ("failed to read dict: " +:+ Error e +:+ nl)
            | (data, None) => run (ret data)
            end
       else run (ret []));
    do r <- run (decompressFiles paths (inputDir cfg) (outDir cfg) dictBytes);
    match r with
    | (_, Some e) => fatal ("decompression failed: " +:+ Error e +:+ nl)
    | (stats, None) => run (ret stats)
    end end end.

(** [main], from the push of the metrics on. *)
Definition main_report (cfg : Config) (stats : runStats) : Proc unit :=
  let sourceLabel := Base fp (inputDir cfg) in
  let sourceLabel :=
    if String.eqb sourceLabel "." || String.eqb sourceLabel (Separator fp)
    then "compressed" else sourceLabel in
  do runID <-
    (if String.eqb (TrimSpace st (runID cfg)) ""
     then run (time_Now_Format "20060102_150405")
     else run (ret (runID cfg)));
  do err <- run (pushMetrics (pushURL cfg) stats sourceLabel (useDict cfg)
                   runID);
  match err with
  | Some e => fatal ("metrics push failed: " +:+ Error e +:+ nl)
  | None =>
      run (Print_stdout ("decompressed " +:+ Itoa (FilesProcessed stats)
             +:+ " files (" +:+ Itoa (InputBytes stats) +:+ " bytes -> "
             +:+ Itoa (OutputBytes stats) +:+ " bytes) into "
             +:+ outDir cfg +:+ nl))
  end.

Definition main (cfg : Config) : Proc unit :=
  do stats <- main_work cfg; main_report cfg stats.
End Main.

End Decompress.

(** * cmd/generate-data *)

(** [math/rand] and [float64] arithmetic, taken as given.  [NewRand] stands
    for [rand.New(rand.NewSource(seed))], the seed being the clock's
    reading; [fconst] for a float literal. *)
Record Rand : Type := mkRand {
  float64 : Type;
  Rng : Type;
  NewRand : string → Rng;
  Intn : Z → Rng → Z * Rng;
  Float64 : Rng → float64 * Rng;
  fadd : float64 → float64 → float64;
  fsub : float64 → float64 → float64;
  fmul : float64 → float64 → float64;
  fconst : string → float64;
}.

Module Movie.
Record t (F : Type) : Type := mk {
  ID : Z; Title : string; Genre : string; Year : Z; Director : string;
  Rating : F; Runtime : Z; CreatedAt : string;
}.
Arguments mk {F}.
Arguments ID {F}.
End Movie.

Module Book.
Record t (F : Type) : Type := mk {
  ID : Z; Title : string; Author : string; Genre : string; Year : Z;
  Pages : Z; Rating : F; CreatedAt : string;
}.
Arguments mk {F}.
Arguments ID {F}.
End Book.

Module Person.
Record t : Type := mk {
  ID : Z; FirstName : string; LastName : string; Email : string;
  City : string; Country : string; Age : Z; CreatedAt : string;
}.
End Person.

Module GenerateData.

Definition movieTitles : list string :=
  ["Silent Horizon"; "Crimson Valley"; "Echoes of Tomorrow"; "Northbound";
   "Astra Drift"; "Blue Lantern"; "Midnight Harbor"; "Glass River"].
Definition movieGenres : list string :=
  ["Drama"; "Sci-Fi"; "Thriller"; "Comedy"; "Adventure"; "Mystery"].
Definition directors : list string :=
  ["Avery Quinn"; "Morgan Ellis"; "Riley Chen"; "Harper Singh";
   "Jordan Blake"; "Taylor Reyes"].
Definition bookTitles : list string :=
  ["The Last Orchard"; "Paper Cities"; "Sparks in Winter";
   "The River and the Road"; "Atlas of Dust"; "The Ninth Signal"].
Definition bookGenres : list string :=
  ["Fantasy"; "Historical"; "Non-Fiction"; "Mystery"; "Romance"; "Sci-Fi"].
Definition authors : list string :=
  ["Samira Holt"; "Eli Navarro"; "Priya Kapoor"; "Luca Moretti";
   "Noah Sterling"; "Yuna Park"].
Definition firstNames : list string :=
  ["Ava"; "Liam"; "Maya"; "Ethan"; "Isla"; "Noah"; "Zoe"; "Amir"; "Nora"; "Leo"].
Definition lastNames : list string :=
  ["Johnson"; "Khan"; "Patel"; "Garcia"; "Nguyen"; "Smith"; "Rossi"; "Wright"].
Definition cities : list string :=
  ["Austin"; "Seattle"; "Denver"; "Toronto"; "Dublin"; "Oslo"; "Berlin"; "Lisbon"].
Definition countries : list string :=
  ["USA"; "Canada"; "Ireland"; "Norway"; "Germany"; "Portugal"].

Record Config : Type := mkConfig {
  dataType : string;
  count : Z;
  outDir : string;
  pushURL : string;
}.

(** [bufio.Writer] over a file: the bytes not yet written and the error that
    stopped it, if any. *)
Record Writer : Type := mkWriter {
  wr_path : string;
  wr_buf : list byte;
  wr_err : option error;
}.

(** The default size of a [bufio.Writer]. *)
Definition bufSize : nat := 4096.

Definition Available (b : Writer) : nat := (bufSize - length (wr_buf b))%nat.

(** [file.Write]: the bytes are added at the end of the file. *)
Definition file_Write (path : string) (data : list byte) : IO (option error) :=
  let* err := call (EvWrite path) in
  match err with
  | Some e => ret (Some e)
  | None =>
      λ w, (set_file path (default [] (w_files w !! path) ++ data) w, None)
  end.

Definition Writer_Flush (b : Writer) : IO (Writer * option error) :=
  match wr_err b with
  | Some e => ret (b, Some e)
  | None =>
      if (length (wr_buf b) =? 0)%nat then ret (b, None)
      else
        let* err := file_Write (wr_path b) (wr_buf b) in
        match err with
        | Some e => ret (mkWriter (wr_path b) (wr_buf b) (Some e), Some e)
        | None => ret (mkWriter (wr_path b) [] None, None)
        end
  end.

(** One turn of the loop of [Writer.Write], entered when [p] does not fit:
    an empty buffer lets [p] through to the file, a buffer in use is filled
    up and flushed.  Returns what is left of [p]. *)
Definition Writer_Write_turn (b : Writer) (p : list byte)
  : IO (Writer * list byte) :=
  if (Available b <? length p)%nat && bool_decide (wr_err b = None) then
    if (length (wr_buf b) =? 0)%nat then
      let* err := file_Write (wr_path b) p in
      match err with
      | Some e => ret (mkWriter (wr_path b) (wr_buf b) (Some e), p)
      | None => ret (b, [])
      end
    else
      let n := Available b in
      let* (b', _) :=
        Writer_Flush (mkWriter (wr_path b) (wr_buf b ++ take n p) None) in
      ret (b', drop n p)
  else ret (b, p).

(** [Writer.Write] and [Writer.WriteString].  The loop takes at most two
    turns: the first one leaves the buffer empty or an error, the second one
    leaves nothing of [p] or an error. *)
Definition Writer_Write (b : Writer) (p : list byte)
  : IO (Writer * option error) :=
  let* (b, p) := Writer_Write_turn b p in
  let* (b, p) := Writer_Write_turn b p in
  match wr_err b with
  | Some e => ret (b, Some e)
  | None => ret (mkWriter (wr_path b) (wr_buf b ++ p) None, None)
  end.

(** [reader.ReadString('\n')] on standard input. *)
Definition stdin_ReadString : IO (string * option error) :=
  let* err := call EvStdin in
  match err with
  | Some e => ret ("", Some e)
  | None =>
      λ w, match w_stdin w with
           | [] => (w, ("", Some EOF))
           | line :: rest =>
               (mkWorld (w_files w) (w_lstat w) (w_fault w) (w_clock w)
                        (w_ticks w) rest (w_ahead w) (w_trace w),
                (line, None))
           end
  end.

Section Main.
Context (fp : Filepath) (st : Strings) (R : Rand).

Abbreviation movie := (Movie.t (float64 R)).
Abbreviation book := (Book.t (float64 R)).

(** What [makeItem] returns as [any]. *)
Inductive Item : Type :=
| ItemMovie (m : movie)
| ItemBook (b : book)
| ItemPerson (p : Person.t).

Definition item_ID (it : Item) : Z :=
  match it with
  | ItemMovie m => Movie.ID m
  | ItemBook b => Book.ID b
  | ItemPerson p => Person.ID p
  end.

(** [json.Marshal], taken as given. *)
Variable Marshal : Item → list byte * option error.

(** [pick]: [items[rng.Intn(len(items))]]. *)
Definition pick (rng : Rng R) (items : list string) : string * Rng R :=
  let (i, rng) := Intn R (len items) rng in
  (nth (Z.to_nat i) items "", rng).

(** [randFloat]. *)
Definition randFloat (rng : Rng R) (min max : float64 R)
  : float64 R * Rng R :=
  let (f, rng) := Float64 R rng in
  (fadd R min (fmul R f (fsub R max min)), rng).

Definition RFC3339 : string := "2006-01-02T15:04:05Z07:00".

Definition makeMovie (rng : Rng R) (id : Z) : IO (movie * Rng R) :=
  let (title, rng) := pick rng movieTitles in
  let (genre, rng) := pick rng movieGenres in
  let (year, rng) := Intn R 45 rng in
  let (director, rng) := pick rng directors in
  let (rating, rng) := randFloat rng (fconst R "5.5") (fconst R "9.8") in
  let (runtime, rng) := Intn R 81 rng in
  let* now := time_Now_Format RFC3339 in
  ret (Movie.mk id title genre (year + 1980) director rating (runtime + 80)
                now, rng).

Definition makeBook (rng : Rng R) (id : Z) : IO (book * Rng R) :=
  let (title, rng) := pick rng bookTitles in
  let (author, rng) := pick rng authors in
  let (genre, rng) := pick rng bookGenres in
  let (year, rng) := Intn R 60 rng in
  let (pages, rng) := Intn R 450 rng in
  let (rating, rng) := randFloat rng (fconst R "3.5") (fconst R "5.0") in
  let* now := time_Now_Format RFC3339 in
  ret (Book.mk id title author genre (year + 1965) (pages + 150) rating now,
       rng).

Definition makePerson (rng : Rng R) (id : Z) : IO (Person.t * Rng R) :=
  let (first, rng) := pick rng firstNames in
  let (last, rng) := pick rng lastNames in
  let email := ToLower st (first +:+ "." +:+ last +:+ "@example.com") in
  let (city, rng) := pick rng cities in
  let (country, rng) := pick rng countries in
  let (age, rng) := Intn R 52 rng in
  let* now := time_Now_Format RFC3339 in
  ret (Person.mk id first last email city country (age + 18) now, rng).

(** The closures [main] hands to [writeJSONArray]: [makeItem(i)] makes the
    record of identifier [i+1]. *)
Definition makeItem (dataTypeVal : string) (i : Z) (rng : Rng R)
  : IO (Item * Rng R) :=
  if String.eqb dataTypeVal "movies" then
    let* (m, rng) := makeMovie rng (i + 1) in ret (ItemMovie m, rng)
  else if String.eqb dataTypeVal "books" then
    let* (b, rng) := makeBook rng (i + 1) in ret (ItemBook b, rng)
  else
    let* (p, rng) := makePerson rng (i + 1) in ret (ItemPerson p, rng).

(** The loop of [writeJSONArray], over the indices [i] still to come. *)
Fixpoint writeJSONArray_loop (makeItem : Z → Rng R → IO (Item * Rng R))
    (indices : list Z) (writer : Writer) (rng : Rng R)
  : IO (Writer * option error) :=
  match indices with
  | [] => ret (writer, None)
  | i :: rest =>
      let* (writer, err) :=
        (if i >? 0 then Writer_Write writer (bytes_of ("," +:+ nl))
         else ret (writer, None)) in
      match err with
      | Some e => ret (writer, Some e)
      | None =>
          let* (item, rng) := makeItem i rng in
          match Marshal item with
          | (_, Some e) => ret (writer, Some e)
          | (data, None) =>
              let* (writer, err) := Writer_Write writer data in
              match err with
              | Some e => ret (writer, Some e)
              | None => writeJSONArray_loop makeItem rest writer rng
              end
          end
      end
  end.

(** [writeJSONArray].  The deferred [writer.Flush()] and [file.Close()]
    run on every way out, and what they return is dropped. *)
Definition writeJSONArray (path : string) (count : Z)
    (makeItem : Z → Rng R → IO (Item * Rng R)) (rng : Rng R)
  : IO (option error) :=
  let* err := os_Create path in
  match err with
  | Some e => ret (Some e)
  | None =>
      let writer := mkWriter path [] None in
      let* (writer, err) :=
        (let* (writer, err) := Writer_Write writer (bytes_of ("[" +:+ nl)) in
         match err with
         | Some e => ret (writer, Some e)
         | None =>
             let* (writer, err) :=
               writeJSONArray_loop makeItem (seqZ 0 count) writer rng in
             match err with
             | Some e => ret (writer, Some e)
             | None => Writer_Write writer (bytes_of (nl +:+ "]" +:+ nl))
             end
         end) in
      let* _ := Writer_Flush writer in
      let* _ := os_Close path in
      ret err
  end.

(** The [bufio.Reader] a prompt made for itself is dropped when the prompt
    returns, and what it had read ahead with it. *)
Definition reader_dropped : IO unit :=
  λ w, (mkWorld (w_files w) (w_lstat w) (w_fault w) (w_clock w) (w_ticks w)
                (w_ahead w (w_stdin w)) (w_ahead w) (w_trace w), tt).

(** [promptString]; every turn reads a line, so the loop takes at most one
    turn more than there are lines, which is the fuel it is given. *)
Fixpoint promptString_loop (fuel : nat) (message : string) : Proc string :=
  match fuel with
  | O => os_Exit 2
  | Datatypes.S fuel' =>
      do _ <- run (Print_stdout message);
      do r <- run stdin_ReadString;
      match r with
      | (_, Some e) => fatal ("input error: " +:+ Error e +:+ nl)
      | (text, None) =>
          let text := TrimSpace st text in
          if negb (String.eqb text "") then run (ret text)
          else promptString_loop fuel' message
      end
  end.

Definition promptString (message : string) : Proc string :=
  λ w, (do text <-
          promptString_loop (Datatypes.S (length (w_stdin w))) message;
        do _ <- run reader_dropped;
        run (ret text)) w.

Fixpoint promptInt_loop (fuel : nat) (message : string) : Proc Z :=
  match fuel with
  | O => os_Exit 2
  | Datatypes.S fuel' =>
      do _ <- run (Print_stdout message);
      do r <- run stdin_ReadString;
      match r with
      | (_, Some e) => fatal ("input error: " +:+ Error e +:+ nl)
      | (text, None) =>
          let text := TrimSpace st text in
          match Atoi st text with
          | (value, err) =>
              if bool_decide (err ≠ None) || (value <=? 0) then
                do _ <- run (Print_stdout ("please enter a positive number" +:+ nl));
                promptInt_loop fuel' message
              else run (ret value)
          end
      end
  end.

Definition promptInt (message : string) : Proc Z :=
  λ w, (do value <-
          promptInt_loop (Datatypes.S (length (w_stdin w))) message;
        do _ <- run reader_dropped;
        run (ret value)) w.

(** [pushMetrics]: a fresh registry takes the three collectors without
    error; what is left to fail is the push itself. *)
Definition pushMetrics (url dataType : string) (count : Z)
  : IO (option error) :=
  call (EvPush url "generate-data" [("type", dataType)]).

(** [main], up to and including [writeJSONArray]; returns the count, the
    type and the output file. *)
Definition main_work (cfg : Config) : Proc (Z * string * string) :=
  do dataType <-
    (if String.eqb (dataType cfg) ""
     then promptString "Select type (movies, books, people): "
     else run (ret (dataType cfg)));
  do count <-
    (if count cfg <=? 0
     then promptInt "How many items do you want to generate? "
     else run (ret (count cfg)));
  let dataTypeVal := ToLower st (TrimSpace st dataType) in
  if negb (String.eqb dataTypeVal "movies")
     && negb (String.eqb dataTypeVal "books")
     && negb (String.eqb dataTypeVal "people")
  then fatal ("unknown type: " +:+ dataTypeVal
              +:+ " (expected movies, books, people)" +:+ nl)
  else
    do err <- run (os_MkdirAll (outDir cfg));
    match err with
    | Some e => fatal ("failed to create output dir: " +:+ Error e +:+ nl)
    | None =>
    do seed <- run (time_Now_Format "UnixNano");
    let rng := NewRand R seed in
    do now <- run (time_Now_Format "20060102_150405");
    let outputFile :=
      Join fp (outDir cfg) (dataTypeVal +:+ "_" +:+ now +:+ ".json") in
    do err <- run (writeJSONArray outputFile count (makeItem dataTypeVal) rng);
    match err with
    | Some e => fatal ("failed to write output: " +:+ Error e +:+ nl)
    | None => run (ret (count, dataTypeVal, outputFile))
    end end.

(** [main], from the push of the metrics on. *)
Definition main_report (cfg : Config) (r : Z * string * string)
  : Proc unit :=
  let '(count, dataTypeVal, outputFile) := r in
  do err <- run (pushMetrics (pushURL cfg) dataTypeVal count);
  match err with
  | Some e => fatal ("metrics push failed: " +:+ Error e +:+ nl)
  | None =>
      run (Print_stdout ("generated " +:+ Itoa count +:+ " " +:+ dataTypeVal
             +:+ " into " +:+ outputFile +:+ nl))
  end.

Definition main (cfg : Config) : Proc unit :=
  do r <- main_work cfg; main_report cfg r.
End Main.

End GenerateData.

(** * A concrete setting to run the tools in *)

(** The libraries above are parameters of every definition.  To evaluate
    the tools on concrete inputs they are instantiated here by small
    stand-ins: slash-separated paths, ASCII strings, a codec that stores
    the body behind a two-byte header, and a counter for a random source. *)
Module Sample.

Fixpoint last_slash (s : string) (i : nat) (found : option nat) : option nat :=
  match s with
  | EmptyString => found
  | String c r =>
      last_slash r (Datatypes.S i)
        (if Ascii.eqb c "/"%char then Some i else found)
  end.

Definition paths : Filepath :=
  mkFilepath
    (λ a b, if String.eqb a "" then b
            else if String.eqb b "" then a else a +:+ "/" +:+ b)
    (λ base targ,
       if String.eqb base targ then (".", None)
       else if String.prefix (base +:+ "/") targ
       then (String.substring (Datatypes.S (String.length base))
               (String.length targ - Datatypes.S (String.length base)) targ,
             None)
       else ("", Some (Errorf ("Rel: can't make " +:+ targ +:+ " relative to "
                              +:+ base))))
    (λ p, match last_slash p 0 None with
          | Some i => if (i =? 0)%nat then "/" else String.substring 0 i p
          | None => "."
          end)
    (λ p, match last_slash p 0 None with
          | Some i => String.substring (Datatypes.S i)
                        (String.length p - Datatypes.S i) p
          | None => if String.eqb p "" then "." else p
          end)
    "/".

Definition is_space (c : ascii) : bool :=
  match c with
  | " "%char | "009"%char | "010"%char | "011"%char | "012"%char
  | "013"%char => true
  | _ => false
  end.

Fixpoint trim_left (s : string) : string :=
  match s with
  | String c r => if is_space c then trim_left r else s
  | EmptyString => EmptyString
  end.

Definition trim (s : string) : string :=
  String.rev (trim_left (String.rev (trim_left s))).

Definition lower (c : ascii) : ascii :=
  let n := nat_of_ascii c in
  if (65 <=? n)%nat && (n <=? 90)%nat then ascii_of_nat (n + 32) else c.

Fixpoint map_string (f : ascii → ascii) (s : string) : string :=
  match s with
  | EmptyString => EmptyString
  | String c r => String (f c) (map_string f r)
  end.

Fixpoint digits (s : string) (acc : Z) : option Z :=
  match s with
  | EmptyString => Some acc
  | String c r =>
      let n := nat_of_ascii c in
      if (48 <=? n)%nat && (n <=? 57)%nat
      then digits r (10 * acc + Z.of_nat (n - 48))
      else None
  end.

Definition atoi (s : string) : Z * option error :=
  let bad := (0, Some (Errorf ("strconv.Atoi: parsing " +:+ s))) in
  match s with
  | EmptyString => bad
  | String "-"%char (String _ _ as r) =>
      match digits r 0 with Some n => (- n, None) | None => bad end
  | _ => match digits s 0 with Some n => (n, None) | None => bad end
  end.

Definition strings : Strings := mkStrings trim (map_string lower) atoi.

(** A codec that stores: the frame is a magic byte, the first byte of the
    dictionary (the digit 0 without one), and the body. *)
Fixpoint dict_id_e (options : list EOption) : byte :=
  match options with
  | WithEncoderDict (b :: _) :: _ => b
  | _ :: rest => dict_id_e rest
  | [] => x30
  end.

Definition dict_id_d (options : list DOption) : byte :=
  match options with
  | WithDecoderDicts (b :: _) :: _ => b
  | _ => x30
  end.

Definition zstd : Zstd :=
  mkZstd
    (λ level, if level <? 3 then SpeedFastest
              else if level <? 6 then SpeedDefault
              else if level <? 10 then SpeedBetterCompression
              else SpeedBestCompression)
    (λ _, None)
    (λ options data, x28 :: dict_id_e options :: data)
    (λ _, None)
    (λ options frame,
       match frame with
       | x28 :: id :: data =>
           if bool_decide (id = dict_id_d options) then inl data
           else inr (Errorf "dictionary mismatch")
       | _ => inr (Errorf "magic number mismatch")
       end)
    (λ samples options,
       (take (Z.to_nat (MaxDictSize options)) (concat samples), None)).

Definition rand : Rand :=
  mkRand Z nat (λ _, O)
    (λ n r, (Z.of_nat r mod n, Datatypes.S r))
    (λ r, (Z.of_nat r, Datatypes.S r))
    Z.add Z.sub Z.mul (λ _, 0).

Definition marshal (it : GenerateData.Item rand) : list byte * option error :=
  (bytes_of ("{id:" +:+ Itoa (GenerateData.item_ID rand it) +:+ "}"), None).

(** A world: the given files, a walk that reports [tree] at [root] and
    nothing elsewhere, no injected failure. *)
Definition clock (k : nat) (layout : string) : string := pretty k.

Definition world (files : list (string * string)) (root : string)
    (tree : node) : World :=
  mkWorld (list_to_map (prod_map id bytes_of <$> files))
          (λ p, if String.eqb p root then inl tree
                else inr (PathError "lstat" p "no such file or directory"))
          (λ _, None) clock O [] id [].

Definition file (size : Z) : node := Leaf ModeRegular (inl (mkFileInfo size)).

End Sample.

(** * What is stated about the tools *)

(** The notions the theorems below are stated with: how a computation
    changes the world, kinds of events, and what a tool is expected to
    return or to leave in a file. *)

(** [frame w w' evs]: from [w] to [w'] the events [evs] were added to the
    trace, and what the tools cannot change was not changed. *)
Definition frame (w w' : World) (evs : list Event) : Prop :=
  w_lstat w' = w_lstat w ∧ w_fault w' = w_fault w ∧ w_clock w' = w_clock w
  ∧ w_trace w' = w_trace w ++ evs.

(** [performs P m]: every event [m] adds to the trace satisfies [P]. *)
Definition performs {A} (P : Event → Prop) (m : IO A) : Prop :=
  ∀ w, ∃ evs, frame w (m w).1 evs ∧ Forall P evs.

Definition is_push (e : Event) : bool :=
  match e with EvPush _ _ _ => true | _ => false end.

Definition is_train (e : Event) : bool :=
  match e with EvTrain _ _ => true | _ => false end.

(** What a tool does for its main work: the calls on the file system and
    the training of a dictionary. *)
Definition is_work (e : Event) : bool :=
  match e with
  | EvMkdirAll _ | EvWalkDir _ | EvOpen _ | EvCreate _ | EvRead _ _
  | EvWrite _ | EvClose _ | EvStat _ | EvReadFile _ | EvWriteFile _
  | EvTrain _ _ => true
  | _ => false
  end.

(** Calls that only read the file system. *)
Definition is_read (e : Event) : bool :=
  match e with
  | EvWalkDir _ | EvOpen _ | EvRead _ _ | EvClose _ => true
  | _ => false
  end.

(** [push_after_work work main]: in a run of [main], whose first part is
    [work], a push of metrics happens only once [work] has returned: all
    the events of [work] come before it (with nothing in between but
    readings of the clock), nothing after it touches the file system, the
    files are as [work] left them, and a failed push makes the exit code 1. *)
Definition push_after_work {A B} (work : Proc A) (main : Proc B) : Prop :=
  ∀ w, ∃ evs,
    w_trace (main w).1 = w_trace w ++ evs
    ∧ ∀ pre push post,
        is_push push = true → evs = pre ++ push :: post →
        (∃ r clock, (work w).2 = Continue r
                    ∧ Forall (λ e, e = EvNow) clock
                    ∧ w_trace w ++ pre = w_trace (work w).1 ++ clock)
        ∧ Forall (λ e, is_work e = false) post
        ∧ w_files (main w).1 = w_files (work w).1
        ∧ (w_fault w push ≠ None → (main w).2 = Exit 1).

(** What the last part of every [main] does: it reads the clock at most, it
    pushes, it prints. *)
Definition reports {B} (report : Proc B) : Prop :=
  ∀ w, ∃ clock push outs,
    is_push push = true
    ∧ Forall (λ e, e = EvNow) clock
    ∧ Forall (λ e, is_work e = false ∧ is_push e = false) outs
    ∧ w_trace (report w).1 = w_trace w ++ clock ++ push :: outs
    ∧ w_files (report w).1 = w_files w
    ∧ (w_fault w push ≠ None → (report w).2 = Exit 1).

(** Every entry beneath [path], with its path, in the order of the walk. *)
Fixpoint entries (fp : Filepath) (path : string) (n : node)
  : list (string * DirEntry) :=
  (path, entry_of n) ::
  match n with
  | Leaf _ _ => []
  | Directory es _ =>
      (fix go (l : list (string * node)) : list (string * DirEntry) :=
         match l with
         | [] => []
         | (name, c) :: tl => entries fp (Join fp path name) c ++ go tl
         end) es
  end.

(** A tree all of which can be read: no [ReadDir] and no [Info] fails. *)
Fixpoint readable (n : node) : bool :=
  match n with
  | Leaf _ (inl _) => true
  | Leaf _ (inr _) => false
  | Directory es None =>
      (fix go (l : list (string * node)) : bool :=
         match l with
         | [] => true
         | (_, c) :: tl => readable c && go tl
         end) es
  | Directory _ (Some _) => false
  end.

(** What the lister keeps: an entry that is not a directory and whose size
    is not zero. *)
Definition listed (pd : string * DirEntry) : bool :=
  negb (IsDir pd.2)
  && match Info pd.2 with
     | inl info => negb (Size info =? 0)
     | inr _ => false
     end.

(** What the specification speaks of: regular files whose size is not
    zero. *)
Definition regular_nonempty (pd : string * DirEntry) : bool :=
  bool_decide (Type_ pd.2 = Some ModeRegular)
  && match Info pd.2 with
     | inl info => negb (Size info =? 0)
     | inr _ => false
     end.

(** A tree that holds only empty files, at any depth. *)
Fixpoint only_empty_files (n : node) : bool :=
  match n with
  | Leaf _ (inl info) => Size info =? 0
  | Leaf _ (inr _) => false
  | Directory es None =>
      (fix go (l : list (string * node)) : bool :=
         match l with
         | [] => true
         | (_, c) :: tl => only_empty_files c && go tl
         end) es
  | Directory _ (Some _) => false
  end.

(** Neither the first nor the last byte is one of the four bytes the
    trimmer removes. *)
Definition trimmed (s : list byte) : Prop :=
  (∀ b, head s = Some b → TrainDict.isTrimByte b = false)
  ∧ (∀ b, last s = Some b → TrainDict.isTrimByte b = false).

(** White space as Go's [unicode.IsSpace] has it below 128: tab, line feed,
    vertical tab, form feed, carriage return and space. *)
Definition isSpace (b : byte) : bool :=
  match b with
  | x09 | x0a | x0b | x0c | x0d | x20 => true
  | _ => false
  end.

(** What every sample is: not empty, no longer than the chunk size, and
    trimmed. *)
Definition good_sample (m : nat) (s : list byte) : Prop :=
  s ≠ [] ∧ (length s ≤ m)%nat ∧ trimmed s.

(** [returns m Q]: whatever the world, what [m] returns satisfies [Q]. *)
Definition returns {A} (m : IO A) (Q : A → Prop) : Prop := ∀ w, Q (m w).2.

(** What holds of the samples a loop has gathered so far, and of the ones
    it returns: each is good, and there are no more than [cap] of them. *)
Definition gathered (m : nat) (cap : Z) (samples : list (list byte)) : Prop :=
  Forall (good_sample m) samples ∧ len samples ≤ Z.max 0 cap.

Definition result_ok {S} (m : nat) (cap : Z)
    (r : option (list (list byte) * S * option error)) : Prop :=
  match r with
  | Some (samples, _, err) =>
      gathered m cap samples ∧ (err ≠ None → samples = [])
  | None => True
  end.

(** The consecutive chunks of [m] bytes of what is left of a body; the last
    one may be shorter. *)
Fixpoint chunks_from (fuel m : nat) (rest : list byte) : list (list byte) :=
  match fuel with
  | O => []
  | S fuel' =>
      match rest with
      | [] => []
      | _ => take m rest :: chunks_from fuel' m (drop m rest)
      end
  end.

Definition chunks (m : nat) (body : list byte) : list (list byte) :=
  chunks_from (length body) m body.

(** The samples a body gives: its chunks, trimmed, without the empty
    ones. *)
Definition samples_of (m : nat) (body : list byte) : list (list byte) :=
  filter (λ s, s ≠ []) (TrainDict.bytesTrimSpace <$> chunks m body).

(** The same flags with another [-dict-size]. *)
Definition with_dictSize (d : Z) (cfg : TrainDict.Config) : TrainDict.Config :=
  TrainDict.mkConfig (TrainDict.inputDir cfg) (TrainDict.outDir cfg)
    (TrainDict.outFile cfg) d (TrainDict.maxSamples cfg)
    (TrainDict.maxSampleBytes cfg) (TrainDict.zstdLevel cfg)
    (TrainDict.pushURL cfg).

Definition not_enough (n : Z) : error :=
  Errorf ("not enough samples to train (got " +:+ Itoa n
          +:+ "). Increase data or lower max-sample-bytes to create more chunks").

(** The text of a JSON array as [writeJSONArray] lays it out: an opening
    line, the records separated by a comma and a line feed, a closing
    line. *)
Fixpoint array_body (first : bool) (records : list (list byte)) : list byte :=
  match records with
  | [] => []
  | r :: rest =>
      (if first then [] else bytes_of ("," +:+ nl)) ++ r ++ array_body false rest
  end.

Definition json_array (records : list (list byte)) : list byte :=
  bytes_of ("[" +:+ nl) ++ array_body true records
  ++ bytes_of (nl +:+ "]" +:+ nl).

(** A world in which no call fails. *)
Definition no_fault (w : World) : Prop := ∀ ev, w_fault w ev = None.

(** What has been written through a writer: the file and the buffer. *)
Definition written (b : GenerateData.Writer) (w : World) : list byte :=
  default [] (w_files w !! GenerateData.wr_path b) ++ GenerateData.wr_buf b.


(** Where [compressFiles] writes the compressed copy of [path], and where
    [decompressFiles] writes the plain copy of [path]. *)
Definition compressed_path (fp : Filepath) (baseDir outDir path : string)
  : string :=
  Compress.out_path fp outDir (Rel fp baseDir path).1.

Definition decompressed_path (fp : Filepath) (baseDir outDir path : string)
  : string :=
  Join fp outDir (Decompress.out_rel (Rel fp baseDir path).1).

(** ** Notions of the further properties *)

(** What the properties at the end of this file are stated with. *)

(** One of the four bytes the trimmer removes. *)
Definition trim_bytes (s : list byte) : Prop :=
  Forall (λ b, TrainDict.isTrimByte b = true) s.

(** The number of bytes a list of samples holds. *)
Definition sum_len (samples : list (list byte)) : Z :=
  foldr (λ s n, len s + n) 0 samples.

(** [keeps_files m]: [m] leaves every file as it found it. *)
Definition keeps_files {A} (m : IO A) : Prop :=
  ∀ w, w_files (m w).1 = w_files w.

(** What the statistics of the collector say of the samples gathered so
    far: their number, their bytes, and no more files counted than
    samples. *)
Definition counted (stats : TrainDict.sampleStats)
    (samples : list (list byte)) : Prop :=
  TrainDict.Samples stats = len samples
  ∧ TrainDict.SampleBytes stats = sum_len samples
  ∧ 0 ≤ TrainDict.FilesScanned stats ≤ TrainDict.Samples stats
  ∧ (0 < TrainDict.Samples stats → 0 < TrainDict.FilesScanned stats).

(** An error that is none of the two sentinels [filepath.WalkDir] takes for
    a request to skip. *)
Definition plain_error (e : error) : bool :=
  negb (errors_Is e SkipDir) && negb (errors_Is e SkipAll).

(** A tree in which no [ReadDir] and no [Info] fails with a sentinel. *)
Fixpoint plain_errors (n : node) : bool :=
  match n with
  | Leaf _ (inl _) => true
  | Leaf _ (inr e) => plain_error e
  | Directory es err =>
      match err with Some e => plain_error e | None => true end
      && (fix go (l : list (string * node)) : bool :=
            match l with
            | [] => true
            | (_, c) :: tl => plain_errors c && go tl
            end) es
  end.

(** The first error a walk of the tree meets, if any. *)
Fixpoint first_error (n : node) : option error :=
  match n with
  | Leaf _ (inl _) => None
  | Leaf _ (inr e) => Some e
  | Directory _ (Some e) => Some e
  | Directory es None =>
      (fix go (l : list (string * node)) : option error :=
         match l with
         | [] => None
         | (_, c) :: tl =>
             match first_error c with
             | Some e => Some e
             | None => go tl
             end
         end) es
  end.

(** [writes_only outs m]: [m] leaves every file as it found it, but for
    the ones at the paths [outs]. *)
Definition writes_only {A} (outs : list string) (m : IO A) : Prop :=
  ∀ w q, q ∉ outs → w_files (m w).1 !! q = w_files w !! q.

(** The bodies of the files at [paths]. *)
Definition bodies_of (w : World) (paths : list string) : list (list byte) :=
  (λ p, default [] (w_files w !! p)) <$> paths.

(** How many times the file at [path] is closed in a run of events. *)
Definition closes (path : string) (evs : list Event) : nat :=
  length (filter (λ e, e = EvClose path) evs).

(** An answer [promptInt] takes: a number, and a positive one. *)
Definition positive_number (st : Strings) (line : string) : bool :=
  let (value, err) := Atoi st (TrimSpace st line) in
  bool_decide (err = None) && (0 <? value).

(** What a run of a prompt shows and reads for the answers it turns down. *)
Definition asked_again (message : string) (complaint : list Event)
    (bad : list string) : list Event :=
  concat ((λ _, EvStdout message :: EvStdin :: complaint) <$> bad).

(** What [rand.Intn] promises: for a positive [n], a number from 0 up to
    [n - 1]. *)
Definition Intn_in_range (R : Rand) : Prop :=
  ∀ n rng, 0 < n → 0 ≤ (Intn R n rng).1 < n.

(** [ends S m]: a run of [m] that stops the tool does so with exit code 1,
    a line on standard error being the last thing it did; a run that goes
    on leaves a trace that satisfies [S]. *)
Definition ends {A} (S : list Event → Prop) (m : Proc A) : Prop :=
  ∀ w, match (m w).2 with
       | Continue _ => S (w_trace (m w).1)
       | Exit code =>
           code = 1
           ∧ ∃ text, last (w_trace (m w).1) = Some (EvStderr text)
       end.

(** The trace of a run whose last action was to print on standard
    output. *)
Definition printed_last (trace : list Event) : Prop :=
  ∃ text, last trace = Some (EvStdout text).

(** How a tool ends: with its summary on standard output, or with a
    message on standard error and exit code 1. *)
Definition ends_reported (main : Proc unit) : Prop := ends printed_last main.

(** Where the trainer writes the dictionary: the path given with
    [-out-file], or a name made of the time in the output directory. *)
Definition dictionary_path (fp : Filepath) (cfg : TrainDict.Config)
    (w : World) : string :=
  if String.eqb (TrainDict.outFile cfg) ""
  then Join fp (TrainDict.outDir cfg)
         ("zstd_dict_" +:+ w_clock w (w_ticks w) "20060102_150405"
          +:+ ".zdict")
  else TrainDict.outFile cfg.

(** The dictionary a run of the compressor uses: the body of the file
    given with [-dict] when [-use-dict] is set, none otherwise. *)
Definition dictionary_of (cfg : Compress.Config) (w : World) : list byte :=
  if Compress.useDict cfg
  then default [] (w_files w !! Compress.dictPath cfg)
  else [].

(** Two worlds with the same files, the same directory structure and the
    same failures: they differ in the clock, in standard input and in what
    has been done so far. *)
Definition same_disk (w1 w2 : World) : Prop :=
  w_files w1 = w_files w2 ∧ w_lstat w1 = w_lstat w2 ∧ w_fault w1 = w_fault w2.

(** [reads_disk m]: what [m] returns is read off the files, the directory
    structure and the failures alone, and so is what it leaves of them. *)
Definition reads_disk {A} (m : IO A) : Prop :=
  ∀ w1 w2, same_disk w1 w2 →
    (m w1).2 = (m w2).2 ∧ same_disk (m w1).1 (m w2).1.

(** * What a computation does to the world *)

Lemma frame_refl w : frame w w [].
Proof. unfold frame. by rewrite app_nil_r. Qed.

Lemma frame_trans w1 w2 w3 evs1 evs2 :
  frame w1 w2 evs1 → frame w2 w3 evs2 → frame w1 w3 (evs1 ++ evs2).
Proof.
  unfold frame. intros (-> & -> & -> & Ht1) (-> & -> & -> & ->).
  rewrite Ht1, app_assoc. done.
Qed.

Section Performs.
Context (P : Event → Prop).

Lemma performs_ret {A} (a : A) : performs P (ret a).
Proof. intros w. exists []. split; [apply frame_refl | constructor]. Qed.

Lemma performs_bind {A B} (m : IO A) (k : A → IO B) :
  performs P m → (∀ a, performs P (k a)) → performs P (bind m k).
Proof.
  intros Hm Hk w. unfold bind. destruct (Hm w) as (evs1 & Hf1 & HP1).
  destruct (m w) as [w1 a] eqn:E. simpl in *.
  destruct (Hk a w1) as (evs2 & Hf2 & HP2).
  exists (evs1 ++ evs2). split; [by eapply frame_trans | by apply Forall_app].
Qed.

Lemma performs_pbind {A B} (m : Proc A) (k : A → Proc B) :
  performs P m → (∀ a, performs P (k a)) → performs P (pbind m k).
Proof.
  intros Hm Hk w. unfold pbind. destruct (Hm w) as (evs1 & Hf1 & HP1).
  destruct (m w) as [w1 [a|c]] eqn:E; simpl in *.
  - destruct (Hk a w1) as (evs2 & Hf2 & HP2).
    exists (evs1 ++ evs2). split; [by eapply frame_trans | by apply Forall_app].
  - by exists evs1.
Qed.

Lemma performs_run {A} (m : IO A) : performs P m → performs P (run m).
Proof.
  intros Hm w. unfold run. destruct (Hm w) as (evs & Hf & HP).
  destruct (m w) as [w1 a]. by exists evs.
Qed.

Lemma performs_exit {A} code : performs P (@os_Exit A code).
Proof. intros w. exists []. split; [apply frame_refl | constructor]. Qed.

Lemma performs_call ev : P ev → performs P (call ev).
Proof.
  intros HP w. exists [ev]. split; [done | by constructor].
Qed.

(** A step that changes nothing a frame looks at. *)
Lemma performs_quiet {A} (m : IO A) :
  (∀ w, frame w (m w).1 []) → performs P m.
Proof. intros H w. exists []. split; [apply H | constructor]. Qed.

Lemma performs_stderr text : P (EvStderr text) → performs P (Fprint_stderr text).
Proof. intros HP w. exists [EvStderr text]. split; [done | by constructor]. Qed.

Lemma performs_stdout text : P (EvStdout text) → performs P (Print_stdout text).
Proof. intros HP w. exists [EvStdout text]. split; [done | by constructor]. Qed.

Lemma performs_fatal {A} text : P (EvStderr text) → performs P (@fatal A text).
Proof.
  intros HP. unfold fatal. apply performs_pbind.
  - by apply performs_run, performs_stderr.
  - intros _. apply performs_exit.
Qed.

Lemma performs_now layout : P EvNow → performs P (time_Now_Format layout).
Proof. intros HP w. exists [EvNow]. split; [done | by constructor]. Qed.

Lemma performs_listFiles fp dir :
  P (EvWalkDir dir) → performs P (listFiles fp dir).
Proof. intros HP w. exists [EvWalkDir dir]. split; [done | by constructor]. Qed.
End Performs.

(** The steps written as plain functions of the world. *)
Ltac quiet :=
  apply performs_quiet; intros ?; simpl;
  repeat case_match; unfold frame; simpl; rewrite ?app_nil_r; done.

(** Take a computation apart along its binds and its case distinctions;
    what is left are the events themselves. *)
Ltac performs_step :=
  lazymatch goal with
  | |- performs _ (ret _) => apply performs_ret
  | |- performs _ (os_Exit _) => apply performs_exit
  | |- performs _ (bind _ _) => apply performs_bind; [|intros ?]
  | |- performs _ (pbind _ _) => apply performs_pbind; [|intros ?]
  | |- performs _ (run _) => apply performs_run
  | |- performs _ (call _) => apply performs_call
  | |- performs _ (fatal _) => apply performs_fatal
  | |- performs _ (Fprint_stderr _) => apply performs_stderr
  | |- performs _ (Print_stdout _) => apply performs_stdout
  | |- performs _ (time_Now_Format _) => apply performs_now
  | |- performs _ (listFiles _ _) => apply performs_listFiles
  | |- performs _ (match ?x with _ => _ end) => destruct x
  | |- performs _ (λ _, _) => quiet
  end.

Ltac performs_auto := repeat performs_step; try done.

Section PerformsOS.
Context (P : Event → Prop).

Lemma performs_MkdirAll path :
  P (EvMkdirAll path) → performs P (os_MkdirAll path).
Proof. intros. unfold os_MkdirAll. performs_auto. Qed.

Lemma performs_Open path : P (EvOpen path) → performs P (os_Open path).
Proof. intros. unfold os_Open. performs_auto. Qed.

Lemma performs_Create path : P (EvCreate path) → performs P (os_Create path).
Proof. intros. unfold os_Create. performs_auto. Qed.

Lemma performs_Close path : P (EvClose path) → performs P (os_Close path).
Proof. intros. unfold os_Close. performs_auto. Qed.

Lemma performs_Stat path : P (EvStat path) → performs P (os_Stat path).
Proof. intros. unfold os_Stat. performs_auto. Qed.

Lemma performs_ReadFile path :
  P (EvReadFile path) → performs P (os_ReadFile path).
Proof. intros. unfold os_ReadFile. performs_auto. Qed.

Lemma performs_WriteFile path data :
  P (EvWriteFile path) → P (EvWrite path) → P (EvClose path) →
  performs P (os_WriteFile path data).
Proof. intros. unfold os_WriteFile, write_all, os_Close. performs_auto. Qed.

Lemma performs_read_all path : P (EvRead path 0) → performs P (read_all path).
Proof. intros. unfold read_all. performs_auto. Qed.

Lemma performs_write_all path data :
  P (EvWrite path) → performs P (write_all path data).
Proof. intros. unfold write_all. performs_auto. Qed.
End PerformsOS.

Lemma performs_mono {A} (P Q : Event → Prop) (m : IO A) :
  (∀ e, P e → Q e) → performs P m → performs Q m.
Proof.
  intros HPQ Hm w. destruct (Hm w) as (evs & Hf & HP).
  exists evs. split; [done | by eapply Forall_impl].
Qed.

Ltac performs_os :=
  lazymatch goal with
  | |- performs _ (os_MkdirAll _) => apply performs_MkdirAll
  | |- performs _ (os_Open _) => apply performs_Open
  | |- performs _ (os_Create _) => apply performs_Create
  | |- performs _ (os_Close _) => apply performs_Close
  | |- performs _ (os_Stat _) => apply performs_Stat
  | |- performs _ (os_ReadFile _) => apply performs_ReadFile
  | |- performs _ (os_WriteFile _ _) => apply performs_WriteFile
  | |- performs _ (read_all _) => apply performs_read_all
  | |- performs _ (write_all _ _) => apply performs_write_all
  end.

Ltac performs_all := repeat first [performs_os | performs_step]; try done.

Section PerformsTrainDict.
Import TrainDict.

Lemma performs_ReadFull path body off m :
  performs (λ e, is_read e = true) (io_ReadFull path body off m).
Proof. unfold io_ReadFull. performs_all. Qed.

Lemma performs_readSamples_loop fuel path body off m maxSamples samples total :
  performs (λ e, is_read e = true)
    (readSamples_loop fuel path body off m maxSamples samples total).
Proof.
  revert off samples total.
  induction fuel as [|fuel IH]; intros off samples total; simpl.
  - performs_all.
  - destruct (negb _); [performs_all|].
    apply performs_bind; [apply performs_ReadFull|].
    intros [chunk err]. performs_all; apply IH.
Qed.

Lemma performs_readSamplesFromFile path maxBytes maxSamples :
  performs (λ e, is_read e = true)
    (readSamplesFromFile path maxBytes maxSamples).
Proof.
  unfold readSamplesFromFile.
  apply performs_bind; [by apply performs_Open|].
  intros [e|]; [performs_all|].
  destruct (maxBytes <? 0); [performs_all|].
  apply performs_bind; [quiet|]. intros body.
  apply performs_bind; [apply performs_readSamples_loop|].
  intros r. performs_all.
Qed.

Lemma performs_collectSamples_loop paths maxSamples maxSampleBytes samples stats :
  performs (λ e, is_read e = true)
    (collectSamples_loop paths maxSamples maxSampleBytes samples stats).
Proof.
  revert samples stats.
  induction paths as [|path rest IH]; intros samples stats; simpl.
  - performs_all.
  - destruct (_ >=? _); [performs_all|].
    apply performs_bind; [apply performs_readSamplesFromFile|].
    intros r. performs_all; apply IH.
Qed.

Lemma performs_collectSamples fp dir maxSamples maxSampleBytes :
  performs (λ e, is_read e = true)
    (collectSamples fp dir maxSamples maxSampleBytes).
Proof.
  unfold collectSamples.
  apply performs_bind; [by apply performs_listFiles|].
  intros [paths [e|]]; [performs_all|].
  destruct (_ =? _); [performs_all|].
  destruct (_ <? _); [performs_all|].
  apply performs_bind; [apply performs_collectSamples_loop|].
  intros r. performs_all.
Qed.

(** Up to the training, the trainer makes a directory, reads the clock,
    reads files and prints. *)
Lemma performs_main_collect fp cfg :
  performs (λ e, is_train e = false ∧ is_push e = false
                 ∧ (∀ p, e ≠ EvWriteFile p))
    (main_collect fp cfg).
Proof.
  unfold main_collect.
  repeat (match goal with
          | |- performs _ (if ?b then _ else _) => destruct b
          end; [by performs_all|]).
  apply performs_pbind; [by performs_all|].
  intros [e|]; [by performs_all|].
  apply performs_pbind.
  { destruct (String.eqb _ _); by performs_all. }
  intros outputPath. apply performs_pbind.
  - apply performs_run.
    eapply performs_mono; [|apply performs_collectSamples].
    intros e He. by destruct e.
  - intros r. by performs_all.
Qed.
End PerformsTrainDict.

(** * Strings *)

(** [+:+] is kept folded by [simpl]; this unfolds one step of it. *)
Ltac append_step := unfold String.append; fold String.append.

Lemma substring_0_all s : String.substring 0 (String.length s) s = s.
Proof. induction s as [|c s IH]; simpl; [done | by rewrite IH]. Qed.

Lemma substring_0_app a b :
  String.substring 0 (String.length a) (a +:+ b) = a.
Proof.
  induction a as [|c a IH]; append_step; simpl; [by destruct b | by rewrite IH].
Qed.

Lemma substring_skip_app a b m :
  String.substring (String.length a) m (a +:+ b) = String.substring 0 m b.
Proof. induction a as [|c a IH]; append_step; simpl; done. Qed.

Lemma substring_split s n :
  (n ≤ String.length s)%nat →
  String.substring 0 n s +:+ String.substring n (String.length s - n) s = s.
Proof.
  revert n. induction s as [|c s IH]; intros [|n] Hn; simpl in *;
    try done; try lia.
  - append_step. by rewrite substring_0_all.
  - append_step. rewrite IH; [done | lia].
Qed.

Lemma length_append a b :
  String.length (a +:+ b) = (String.length a + String.length b)%nat.
Proof.
  induction a as [|c a IH]; append_step; simpl; [done | by rewrite IH].
Qed.

Lemma HasSuffix_true s suffix :
  HasSuffix s suffix = true → TrimSuffix s suffix +:+ suffix = s.
Proof.
  unfold TrimSuffix. intros H. rewrite H. unfold HasSuffix in H.
  apply andb_true_iff in H as [Hlen Heq].
  apply Nat.leb_le in Hlen. apply String.eqb_eq in Heq.
  set (n := (String.length s - String.length suffix)%nat) in *.
  rewrite <- Heq.
  replace (String.length suffix) with (String.length s - n)%nat
    by (subst n; lia).
  apply substring_split. subst n. lia.
Qed.

Lemma HasSuffix_false s suffix :
  HasSuffix s suffix = false → TrimSuffix s suffix = s.
Proof. unfold TrimSuffix. by intros ->. Qed.

Lemma HasSuffix_app s suffix : HasSuffix (s +:+ suffix) suffix = true.
Proof.
  unfold HasSuffix. rewrite length_append. apply andb_true_iff. split.
  - apply Nat.leb_le. lia.
  - apply String.eqb_eq.
    replace (String.length s + String.length suffix - String.length suffix)%nat
      with (String.length s) by lia.
    rewrite substring_skip_app. apply substring_0_all.
Qed.

Lemma TrimSuffix_app s suffix : TrimSuffix (s +:+ suffix) suffix = s.
Proof.
  unfold TrimSuffix. rewrite HasSuffix_app, length_append.
  replace (String.length s + String.length suffix - String.length suffix)%nat
    with (String.length s) by lia.
  apply substring_0_app.
Qed.

Lemma TrimSuffix_shorter s suffix :
  HasSuffix s suffix = true →
  String.length s
  = (String.length (TrimSuffix s suffix) + String.length suffix)%nat.
Proof.
  intros H. rewrite <- (HasSuffix_true _ _ H) at 1. apply length_append.
Qed.

(** What [out_rel] returns, by cases on the suffix. *)
Lemma out_rel_cases rel :
  (HasSuffix rel ".zst" = true
   ∧ Decompress.out_rel rel = TrimSuffix rel ".zst"
   ∧ Decompress.out_rel rel +:+ ".zst" = rel)
  ∨ (HasSuffix rel ".zst" = false ∧ Decompress.out_rel rel = rel +:+ ".out").
Proof.
  unfold Decompress.out_rel. destruct (HasSuffix rel ".zst") eqn:H.
  - left. pose proof (TrimSuffix_shorter _ _ H) as Hlen.
    destruct (String.eqb_spec (TrimSuffix rel ".zst") rel) as [Heq|Hne].
    + rewrite Heq in Hlen. simpl in Hlen. lia.
    + split; [done|]. split; [done|]. by apply HasSuffix_true.
  - right. rewrite (HasSuffix_false _ _ H), String.eqb_refl. done.
Qed.

Lemma out_rel_app rel : Decompress.out_rel (rel +:+ ".zst") = rel.
Proof.
  destruct (out_rel_cases (rel +:+ ".zst")) as [(_ & -> & _)|[H _]].
  - apply TrimSuffix_app.
  - by rewrite HasSuffix_app in H.
Qed.

(** * The decompressor's output path (C6) *)

(** C6.  For every input file of the decompressor, with [rel] its path
    relative to the input root: the output file is [outDir] joined with
    [rel] stripped of its [".zst"] suffix when [rel] ends in [".zst"], and
    with [rel] followed by [".out"] if and only if it does not.  Neither
    case is an error: where the file can be read, decoded and written, the
    turn of the loop returns no error and the decoded bytes are in the file
    at that path. *)
Theorem decompress_output_path fp z options baseDir outDir path stats w
    rel body plain :
  Rel fp baseDir path = (rel, None) →
  (∀ ev, w_fault w ev = None) →
  Join fp outDir (Decompress.out_rel rel) ≠ path →
  w_files w !! path = Some body →
  decode z options body = inl plain →
  ∃ outRel,
    (if HasSuffix rel ".zst" then outRel +:+ ".zst" = rel
     else outRel = rel +:+ ".out")
    ∧ (outRel = rel +:+ ".out" ↔ HasSuffix rel ".zst" = false)
    ∧ ∃ w' stats',
        Decompress.decompressFiles_body fp z options baseDir outDir path
          stats w = (w', (stats', None))
        ∧ w_files w' !! Join fp outDir outRel = Some plain.
Proof.
  intros HRel Hf Hne Hbody Hdec.
  exists (Decompress.out_rel rel). split; [|split].
  - destruct (out_rel_cases rel) as [(-> & _ & H)|[-> H]]; done.
  - destruct (out_rel_cases rel) as [(Hs & _ & H)|[Hs H]]; rewrite Hs.
    + split; [|done]. intros Heq.
      apply (f_equal String.length) in H. rewrite Heq in H.
      rewrite !length_append in H. simpl in H. lia.
    + done.
  - unfold Decompress.decompressFiles_body. rewrite HRel.
    set (outPath := Join fp outDir (Decompress.out_rel rel)) in *.
    unfold bind, os_MkdirAll, os_Open, os_Create, os_Close, os_Stat,
      Decompress.copy_decode, read_all, write_all, call, ret, bind.
    repeat (progress (simpl; rewrite ?Hf, ?Hbody, ?Hdec;
                      try rewrite lookup_insert_ne by done)).
    eexists _, _. split; [reflexivity|]. simpl.
    by rewrite lookup_insert_eq.
Qed.

Lemma decompress_output_path_witness :
  ∃ outRel,
    (if HasSuffix "a.json.zst" ".zst" then outRel +:+ ".zst" = "a.json.zst"
     else outRel = "a.json.zst" +:+ ".out")
    ∧ (outRel = "a.json.zst" +:+ ".out" ↔ HasSuffix "a.json.zst" ".zst" = false)
    ∧ ∃ w' stats',
        Decompress.decompressFiles_body Sample.paths Sample.zstd [] "out" "dec"
          "out/a.json.zst" (mkRunStats 0 0 0)
          (Sample.world [("out/a.json.zst", "(0hi")] "out"
             (Directory [("a.json.zst", Sample.file 4)] None))
        = (w', (stats', None))
        ∧ w_files w' !! Join Sample.paths "dec" outRel = Some (bytes_of "hi").
Proof.
  apply (decompress_output_path Sample.paths Sample.zstd [] "out" "dec"
           "out/a.json.zst" (mkRunStats 0 0 0) _ "a.json.zst"
           (bytes_of "(0hi") (bytes_of "hi")).
  - reflexivity.
  - reflexivity.
  - vm_compute. discriminate.
  - reflexivity.
  - reflexivity.
Defined.

(** * The dictionary flag is checked first (C10) *)

(** C10.  In the compressor and in the decompressor alike, when [-use-dict]
    is set and [-dict] is empty or only white space (what is left of it by
    [strings.TrimSpace] is the empty string), the run prints one line on
    standard error and exits with code 1, and that line is the only thing
    the run does: no directory is created, no file is listed, opened or
    written. *)
Theorem use_dict_requires_dict fp st z (c : Compress.Config)
    (d : Decompress.Config) w :
  Compress.useDict c = true →
  TrimSpace st (Compress.dictPath c) = "" →
  Decompress.useDict d = true →
  TrimSpace st (Decompress.dictPath d) = "" →
  let line := EvStderr ("-dict is required when -use-dict is set" +:+ nl) in
  Compress.main fp st z c w = (log line w, Exit 1)
  ∧ Decompress.main fp st z d w = (log line w, Exit 1)
  ∧ is_work line = false.
Proof.
  intros Hc Hcp Hd Hdp line.
  unfold Compress.main, Compress.main_work, Decompress.main,
    Decompress.main_work.
  rewrite Hc, Hcp, Hd, Hdp. done.
Qed.

Lemma use_dict_requires_dict_witness :
  let c := Compress.mkConfig "output" "compressed" 0 true "  " "gateway" in
  let d := Decompress.mkConfig "compressed" "decompressed" true "" "" "gateway" in
  let w := Sample.world [("output/a.json", "{}")] "output"
             (Directory [("a.json", Sample.file 2)] None) in
  let line := EvStderr ("-dict is required when -use-dict is set" +:+ nl) in
  Compress.main Sample.paths Sample.strings Sample.zstd c w = (log line w, Exit 1)
  ∧ Decompress.main Sample.paths Sample.strings Sample.zstd d w
    = (log line w, Exit 1)
  ∧ is_work line = false.
Proof.
  intros c d w.
  apply (use_dict_requires_dict Sample.paths Sample.strings Sample.zstd c d w);
    reflexivity.
Defined.

(** * The events of each tool's main work *)

Lemma is_work_not_push e : is_work e = true → is_push e = false.
Proof. by destruct e. Qed.

Section PerformsCompress.
Context (fp : Filepath) (st : Strings) (z : Zstd).
Import Compress.

Lemma performs_compressFiles_body options baseDir outDir path stats :
  performs (λ e, is_work e = true)
    (compressFiles_body fp z options baseDir outDir path stats).
Proof. unfold compressFiles_body, copy_encode. performs_all. Qed.

Lemma performs_compressFiles paths baseDir outDir level dictBytes :
  performs (λ e, is_work e = true)
    (compressFiles fp z paths baseDir outDir level dictBytes).
Proof.
  unfold compressFiles. destruct (NewWriter _ _); [performs_all|].
  generalize (mkRunStats 0 0 0).
  induction paths as [|path rest IH]; intros stats; simpl; [performs_all|].
  apply performs_bind; [apply performs_compressFiles_body|].
  intros [stats' [e|]]; [performs_all | apply IH].
Qed.

Lemma performs_compress_work cfg :
  performs (λ e, is_push e = false) (main_work fp st z cfg).
Proof.
  unfold main_work. destruct (_ && _); [by performs_all|].
  apply performs_pbind; [by performs_all|].
  intros [e|]; [by performs_all|].
  apply performs_pbind; [by performs_all|].
  intros [paths [e|]]; [by performs_all|].
  destruct (_ =? _); [by performs_all|].
  apply performs_pbind.
  { destruct (useDict cfg); by performs_all. }
  intros dictBytes. apply performs_pbind; [|intros r; by performs_all].
  apply performs_run.
  eapply performs_mono; [|apply performs_compressFiles].
  apply is_work_not_push.
Qed.
End PerformsCompress.

Section PerformsDecompress.
Context (fp : Filepath) (st : Strings) (z : Zstd).
Import Decompress.

Lemma performs_decompressFiles_body options baseDir outDir path stats :
  performs (λ e, is_work e = true)
    (decompressFiles_body fp z options baseDir outDir path stats).
Proof. unfold decompressFiles_body, copy_decode. performs_all. Qed.

Lemma performs_decompressFiles paths baseDir outDir dictBytes :
  performs (λ e, is_work e = true)
    (decompressFiles fp z paths baseDir outDir dictBytes).
Proof.
  unfold decompressFiles. destruct (NewReader _ _); [performs_all|].
  generalize (mkRunStats 0 0 0).
  induction paths as [|path rest IH]; intros stats; simpl; [performs_all|].
  apply performs_bind; [apply performs_decompressFiles_body|].
  intros [stats' [e|]]; [performs_all | apply IH].
Qed.

Lemma performs_decompress_work cfg :
  performs (λ e, is_push e = false) (main_work fp st z cfg).
Proof.
  unfold main_work. destruct (_ && _); [by performs_all|].
  apply performs_pbind; [by performs_all|].
  intros [e|]; [by performs_all|].
  apply performs_pbind; [by performs_all|].
  intros [paths [e|]]; [by performs_all|].
  destruct (_ =? _); [by performs_all|].
  apply performs_pbind.
  { destruct (useDict cfg); by performs_all. }
  intros dictBytes. apply performs_pbind; [|intros r; by performs_all].
  apply performs_run.
  eapply performs_mono; [|apply performs_decompressFiles].
  apply is_work_not_push.
Qed.
End PerformsDecompress.

Section PerformsTrain.
Context (fp : Filepath) (st : Strings) (z : Zstd).
Import TrainDict.

Lemma performs_main_train cfg r :
  performs (λ e, is_push e = false) (main_train fp z cfg r).
Proof.
  destruct r as [[outputPath samples] stats]. unfold main_train.
  by performs_all.
Qed.

Lemma performs_train_work cfg :
  performs (λ e, is_push e = false) (main_work fp z cfg).
Proof.
  unfold main_work. apply performs_pbind.
  - eapply performs_mono; [|apply performs_main_collect]. by intros e (_ & ? & _).
  - intros r. apply performs_main_train.
Qed.
End PerformsTrain.

Section PerformsGenerate.
Context (fp : Filepath) (st : Strings) (R : Rand).
Variable Marshal : GenerateData.Item R → list byte * option error.
Import GenerateData.

Let quiet_work (e : Event) : Prop := is_push e = false.

Lemma performs_file_Write path data :
  performs quiet_work (file_Write path data).
Proof. unfold file_Write. by performs_all. Qed.

Lemma performs_Flush b : performs quiet_work (Writer_Flush b).
Proof.
  unfold Writer_Flush. destruct (wr_err b); [by performs_all|].
  destruct (_ =? _)%nat; [by performs_all|].
  apply performs_bind; [apply performs_file_Write|]. intros. by performs_all.
Qed.

Lemma performs_Write_turn b p : performs quiet_work (Writer_Write_turn b p).
Proof.
  unfold Writer_Write_turn. destruct (_ && _); [|by performs_all].
  destruct (_ =? _)%nat.
  - apply performs_bind; [apply performs_file_Write|]. intros. by performs_all.
  - apply performs_bind; [apply performs_Flush|]. intros. by performs_all.
Qed.

Lemma performs_Write b p : performs quiet_work (Writer_Write b p).
Proof.
  unfold Writer_Write.
  apply performs_bind; [apply performs_Write_turn|]. intros [b1 p1].
  apply performs_bind; [apply performs_Write_turn|]. intros [b2 p2].
  by performs_all.
Qed.

Lemma performs_makeItem dataTypeVal i rng :
  performs quiet_work (makeItem st R dataTypeVal i rng).
Proof.
  unfold makeItem, makeMovie, makeBook, makePerson, pick, randFloat.
  by performs_all.
Qed.

Lemma performs_writeJSONArray_loop mk indices writer rng :
  (∀ i rng, performs quiet_work (mk i rng)) →
  performs quiet_work (writeJSONArray_loop R Marshal mk indices writer rng).
Proof.
  intros Hmk. revert writer rng.
  induction indices as [|i rest IH]; intros writer rng; simpl;
    [by performs_all|].
  apply performs_bind.
  { destruct (_ >? _); [apply performs_Write | by performs_all]. }
  intros [writer1 [e|]]; [by performs_all|].
  apply performs_bind; [apply Hmk|]. intros [item rng1].
  destruct (Marshal item) as [data [e|]]; [by performs_all|].
  apply performs_bind; [apply performs_Write|].
  intros [writer2 [e|]]; [by performs_all | apply IH].
Qed.

Lemma performs_writeJSONArray path count mk rng :
  (∀ i rng, performs quiet_work (mk i rng)) →
  performs quiet_work (writeJSONArray R Marshal path count mk rng).
Proof.
  intros Hmk. unfold writeJSONArray.
  apply performs_bind; [by performs_all|].
  intros [e|]; [by performs_all|].
  apply performs_bind.
  { apply performs_bind; [apply performs_Write|].
    intros [writer1 [e|]]; [by performs_all|].
    apply performs_bind; [by apply performs_writeJSONArray_loop|].
    intros [writer2 [e|]]; [by performs_all | apply performs_Write]. }
  intros [writer err].
  apply performs_bind; [apply performs_Flush|]. intros. by performs_all.
Qed.

Lemma performs_stdin : performs quiet_work stdin_ReadString.
Proof. unfold stdin_ReadString. by performs_all. Qed.

Lemma performs_promptString_loop fuel message :
  performs quiet_work (promptString_loop st fuel message).
Proof.
  induction fuel as [|fuel IH]; simpl; [by performs_all|].
  apply performs_pbind; [by performs_all|]. intros _.
  apply performs_pbind; [apply performs_run, performs_stdin|].
  intros [text [e|]]; [by performs_all|].
  destruct (negb _); [by performs_all | apply IH].
Qed.

Lemma performs_promptInt_loop fuel message :
  performs quiet_work (promptInt_loop st fuel message).
Proof.
  induction fuel as [|fuel IH]; simpl; [by performs_all|].
  apply performs_pbind; [by performs_all|]. intros _.
  apply performs_pbind; [apply performs_run, performs_stdin|].
  intros [text [e|]]; [by performs_all|].
  destruct (Atoi st _) as [value err].
  destruct (_ || _); [|by performs_all].
  apply performs_pbind; [by performs_all | intros _; apply IH].
Qed.

Lemma performs_reader_dropped : performs quiet_work reader_dropped.
Proof.
  apply performs_quiet. intros w. unfold frame. simpl.
  by rewrite app_nil_r.
Qed.

Lemma performs_promptString message :
  performs quiet_work (promptString st message).
Proof.
  intros w. unfold promptString.
  apply performs_pbind; [apply performs_promptString_loop|].
  intros text. apply performs_pbind; [|intros; by performs_all].
  apply performs_run, performs_reader_dropped.
Qed.

Lemma performs_promptInt message :
  performs quiet_work (promptInt st message).
Proof.
  intros w. unfold promptInt.
  apply performs_pbind; [apply performs_promptInt_loop|].
  intros value. apply performs_pbind; [|intros; by performs_all].
  apply performs_run, performs_reader_dropped.
Qed.

Lemma performs_generate_work cfg :
  performs quiet_work (main_work fp st R Marshal cfg).
Proof.
  unfold main_work. apply performs_pbind.
  { destruct (String.eqb _ _); [|by performs_all].
    apply performs_promptString. }
  intros dataType. apply performs_pbind.
  { destruct (_ <=? _); [|by performs_all].
    apply performs_promptInt. }
  intros count. destruct (_ && _); [by performs_all|].
  apply performs_pbind; [by performs_all|].
  intros [e|]; [by performs_all|].
  apply performs_pbind; [by performs_all|]. intros seed.
  apply performs_pbind; [by performs_all|]. intros now.
  apply performs_pbind; [|intros [e|]; by performs_all].
  apply performs_run, performs_writeJSONArray.
  intros. apply performs_makeItem.
Qed.
End PerformsGenerate.

(** * The metrics are pushed last (C9) *)

Lemma split_at_push (l1 l2 pre post : list Event) x p :
  Forall (λ e, is_push e = false) l1 →
  Forall (λ e, is_push e = false) l2 →
  is_push p = true →
  l1 ++ x :: l2 = pre ++ p :: post →
  pre = l1 ∧ p = x ∧ post = l2.
Proof.
  intros H1 H2 Hp. revert pre.
  induction l1 as [|a l1 IH]; intros pre Heq.
  - destruct pre as [|b pre]; simpl in Heq.
    + by simplify_eq.
    + simplify_eq. apply Forall_app in H2 as [_ H2].
      apply Forall_cons in H2 as [H2 _]. congruence.
  - apply Forall_cons in H1 as [Ha H1].
    destruct pre as [|b pre]; simpl in Heq; simplify_eq.
    + congruence.
    + destruct (IH H1 pre) as (-> & -> & ->); done.
Qed.

Lemma no_push_no_split (evs pre post : list Event) p :
  Forall (λ e, is_push e = false) evs →
  is_push p = true → evs ≠ pre ++ p :: post.
Proof.
  intros H Hp ->. apply Forall_app in H as [_ H].
  apply Forall_cons in H as [H _]. congruence.
Qed.

Lemma push_after_work_intro {A B} (work : Proc A) (report : A → Proc B) :
  performs (λ e, is_push e = false) work →
  (∀ r, reports (report r)) →
  push_after_work work (pbind work report).
Proof.
  intros Hwork Hreport w. unfold pbind.
  destruct (Hwork w) as (evs1 & (_ & Hfault & _ & Htrace) & Hno).
  destruct (work w) as [w1 [r|code]] eqn:Ew; simpl in *.
  - destruct (Hreport r w1)
      as (clock & push & outs & Hpush & Hclock & Houts & Ht & Hfiles & Hexit).
    exists (evs1 ++ clock ++ push :: outs). split.
    { rewrite Ht, Htrace. by rewrite <- app_assoc. }
    intros pre p post Hp Heq.
    rewrite app_assoc in Heq.
    apply split_at_push in Heq as (-> & -> & ->); try done.
    + split; [|split; [|split]].
      * exists r, clock. split; [done|]. split; [done|].
        by rewrite Htrace, app_assoc.
      * eapply Forall_impl; [apply Houts|]. by intros e [? _].
      * done.
      * intros Hf. apply Hexit. by rewrite Hfault.
    + apply Forall_app. split; [done|].
      eapply Forall_impl; [apply Hclock|]. by intros e ->.
    + eapply Forall_impl; [apply Houts|]. by intros e [_ ?].
  - exists evs1. split; [done|]. intros pre p post Hp Heq.
    by apply no_push_no_split in Heq.
Qed.

Lemma reports_push (ev : Event) (k : option error → Proc unit) text out :
  is_push ev = true →
  (∀ e, k (Some e) = fatal (text e)) →
  k None = run (Print_stdout out) →
  reports (pbind (run (call ev)) k).
Proof.
  intros Hpush Herr Hok w. exists [], ev.
  unfold pbind, run, call. simpl.
  destruct (w_fault w ev) as [e|] eqn:Hf.
  - exists [EvStderr (text e)]. rewrite Herr. simpl.
    repeat split; try done.
    + repeat constructor.
    + by rewrite <- app_assoc.
  - exists [EvStdout out]. rewrite Hok. simpl.
    repeat split; try done.
    + repeat constructor.
    + by rewrite <- app_assoc.
Qed.

Lemma reports_compress fp st cfg stats :
  reports (Compress.main_report fp st cfg stats).
Proof. unfold Compress.main_report. by eapply reports_push. Qed.

Lemma reports_train fp st cfg r : reports (TrainDict.main_report fp st cfg r).
Proof.
  destruct r as [[stats trained] outputPath]. unfold TrainDict.main_report.
  by eapply reports_push.
Qed.

Lemma reports_generate cfg r : reports (GenerateData.main_report cfg r).
Proof.
  destruct r as [[count dataTypeVal] outputFile].
  unfold GenerateData.main_report. by eapply reports_push.
Qed.

Lemma reports_after_now {B} layout (k : string → Proc B) :
  (∀ s, reports (k s)) → reports (pbind (run (time_Now_Format layout)) k).
Proof.
  intros H w. unfold pbind, run, time_Now_Format. simpl.
  match goal with
  | |- context [k ?s ?w1] =>
      destruct (H s w1)
        as (clock & push & outs & Hp & Hc & Ho & Ht & Hfl & Hex)
  end.
  exists (EvNow :: clock), push, outs. simpl in *.
  repeat split; try done.
  - by constructor.
  - rewrite Ht. by rewrite <- app_assoc.
Qed.

Lemma reports_decompress fp st cfg stats :
  reports (Decompress.main_report fp st cfg stats).
Proof.
  unfold Decompress.main_report.
  destruct (String.eqb _ _).
  - apply reports_after_now. intros runID.
    unfold Decompress.pushMetrics. by eapply reports_push.
  - unfold pbind at 1. unfold run at 1. unfold ret. simpl.
    unfold Decompress.pushMetrics. by eapply reports_push.
Qed.

(** C9.  In a run of any of the four tools, the push of the metrics is
    attempted only after the main work has returned: every event of the
    main work precedes it, nothing that follows it touches the file system,
    and the files are the ones the main work left.  When the push fails the
    exit code is 1, and the files are still those. *)
Theorem metrics_pushed_last fp st z R Marshal
    (c : Compress.Config) (d : Decompress.Config) (t : TrainDict.Config)
    (g : GenerateData.Config) :
  push_after_work (Compress.main_work fp st z c) (Compress.main fp st z c)
  ∧ push_after_work (Decompress.main_work fp st z d)
      (Decompress.main fp st z d)
  ∧ push_after_work (TrainDict.main_work fp z t) (TrainDict.main fp st z t)
  ∧ push_after_work (GenerateData.main_work fp st R Marshal g)
      (GenerateData.main fp st R Marshal g).
Proof.
  repeat split.
  - apply push_after_work_intro;
      [apply performs_compress_work | intros; apply reports_compress].
  - apply push_after_work_intro;
      [apply performs_decompress_work | intros; apply reports_decompress].
  - apply push_after_work_intro;
      [apply performs_train_work | intros; apply reports_train].
  - apply push_after_work_intro;
      [apply performs_generate_work | intros; apply reports_generate].
Qed.

(** * The trainer's flags (C8) *)

Lemma pbind_assoc {A B C} (m : Proc A) (k : A → Proc B) (k' : B → Proc C) w :
  pbind (pbind m k) k' w = pbind m (λ a, pbind (k a) k') w.
Proof. unfold pbind. by destruct (m w) as [w1 [a|code]]. Qed.

Lemma starts_with_call {A} ev (k : option error → Proc A) w :
  (∀ e, performs (λ _, True) (k e)) →
  ∃ evs, w_trace (pbind (run (call ev)) k w).1 = w_trace w ++ ev :: evs.
Proof.
  intros Hk. unfold pbind, run, call. simpl.
  destruct (Hk (w_fault w ev) (log ev w)) as (evs & (_ & _ & _ & Ht) & _).
  exists evs. rewrite Ht. simpl. by rewrite <- app_assoc.
Qed.

Lemma performs_train_report fp st cfg r :
  performs (λ _, True) (TrainDict.main_report fp st cfg r).
Proof.
  destruct r as [[stats trained] outputPath].
  unfold TrainDict.main_report, TrainDict.pushMetrics. by performs_all.
Qed.

(** [parseZstdLevel] never refuses a level. *)
Lemma train_options_level cfg :
  ZstdLevel (TrainDict.train_options cfg)
  = (if TrainDict.zstdLevel cfg <=? 0 then speedNotSet
     else if TrainDict.zstdLevel cfg =? 1 then SpeedFastest
     else if TrainDict.zstdLevel cfg =? 2 then SpeedDefault
     else if TrainDict.zstdLevel cfg =? 3 then SpeedBetterCompression
     else SpeedBestCompression).
Proof.
  unfold TrainDict.train_options.
  destruct (TrainDict.zstdLevel cfg) as [|p|p] eqn:E; try done.
  simpl. unfold TrainDict.parseZstdLevel.
  destruct p as [[[]|[]|]|[[]|[]|]|]; done.
Qed.

(** C8, as the code has it.  A non-positive [-dict-size], [-max-samples] or
    [-max-sample-bytes] is a configuration error: the run prints one line
    on standard error and exits with code 1, and does nothing else.  No
    value of [-zstd-level] is one: when the three other flags are positive
    the run goes on to create the output directory, whatever the level.  A
    level of 0 or less leaves the training level unset, 1 to 4 select the
    four speeds, and every level above 4 is taken as the best compression. *)
Theorem trainer_flag_validation fp st z (cfg : TrainDict.Config) w :
  (if (TrainDict.dictSize cfg <=? 0) || (TrainDict.maxSamples cfg <=? 0)
      || (TrainDict.maxSampleBytes cfg <=? 0)
   then ∃ text, TrainDict.main fp st z cfg w = (log (EvStderr text) w, Exit 1)
   else ∃ evs, w_trace (TrainDict.main fp st z cfg w).1
               = w_trace w ++ EvMkdirAll (TrainDict.outDir cfg) :: evs)
  ∧ ZstdLevel (TrainDict.train_options cfg)
    = (if TrainDict.zstdLevel cfg <=? 0 then speedNotSet
       else if TrainDict.zstdLevel cfg =? 1 then SpeedFastest
       else if TrainDict.zstdLevel cfg =? 2 then SpeedDefault
       else if TrainDict.zstdLevel cfg =? 3 then SpeedBetterCompression
       else SpeedBestCompression).
Proof.
  split; [|apply train_options_level].
  unfold TrainDict.main, TrainDict.main_work, TrainDict.main_collect.
  destruct (TrainDict.dictSize cfg <=? 0); simpl; [by eexists|].
  destruct (TrainDict.maxSamples cfg <=? 0); simpl; [by eexists|].
  destruct (TrainDict.maxSampleBytes cfg <=? 0); simpl; [by eexists|].
  rewrite !pbind_assoc. unfold os_MkdirAll.
  apply starts_with_call. intros err.
  apply performs_pbind.
  - destruct err as [e|]; [by performs_all|].
    apply performs_pbind.
    { destruct (String.eqb _ _); by performs_all. }
    intros outputPath. apply performs_pbind; [|intros r; by performs_all].
    apply performs_run.
    eapply performs_mono; [|apply performs_collectSamples]. done.
  - intros r. apply performs_pbind; [|intros; apply performs_train_report].
    eapply performs_mono; [|apply performs_main_train]. done.
Qed.

(** C8 as it was stated fails: with [-zstd-level 7], and every other flag
    at its default, the trainer reports no configuration error.  It makes
    the output directory, walks the input directory, reads the six files
    there and hands their bodies to the library, with the level of the
    best compression; nothing has been printed on standard error by then,
    whatever the library goes on to do.  When the library builds a
    dictionary the run writes it and returns from [main], still without a
    line on standard error. *)
Lemma zstd_level_out_of_range_is_accepted :
  let records :=
    ["id=1 title=Silent Harbor genre=drama director=Ana Varga year=1994 runtime=101 min";
     "id=2 title=Paper Moonlight genre=comedy director=Ben Okoro year=2003 runtime=96 min";
     "id=3 title=The Last Orchard genre=drama director=Ana Varga year=2011 runtime=118 min";
     "id=4 title=Iron Meridian genre=action director=Chen Wei year=1987 runtime=124 min";
     "id=5 title=Glass Harbor genre=thriller director=Ben Okoro year=2019 runtime=109 min";
     "id=6 title=Northern Orchard genre=comedy director=Chen Wei year=1999 runtime=92 min"] in
  let names := ["m1.txt"; "m2.txt"; "m3.txt"; "m4.txt"; "m5.txt"; "m6.txt"] in
  let w := Sample.world (zip (String.append "in/" <$> names) records) "in"
             (Directory
                (zip names
                   ((λ r, Sample.file (Z.of_nat (String.length r))) <$> records))
                None) in
  let cfg := TrainDict.mkConfig "in" "dict-out" "" 131072 1000 32768 7
               "http://localhost:9091" in
  let samples := bytes_of <$> records in
  let options := mkDictOptions 131072 6 SpeedBestCompression in
  ¬ (1 ≤ TrainDict.zstdLevel cfg ≤ 4)
  ∧ Forall (λ s, 8 ≤ len s) samples
  ∧ ∀ z : Zstd,
      let run := TrainDict.main Sample.paths Sample.strings z cfg w in
      (∃ before after,
          w_trace run.1 = before ++ EvTrain samples options :: after
          ∧ head before = Some (EvMkdirAll "dict-out")
          ∧ EvWalkDir "in" ∈ before
          ∧ Forall (λ e, ∀ text, e ≠ EvStderr text) before)
      ∧ ∀ trained,
          BuildZstdDict z samples options = (trained, None) →
          run.2 = Continue tt
          ∧ w_files run.1 !! "dict-out/zstd_dict_0.zdict" = Some trained
          ∧ Forall (λ e, ∀ text, e ≠ EvStderr text) (w_trace run.1).
Proof.
  intros records names w cfg samples options.
  split; [subst cfg; simpl; lia|].
  split; [subst samples records; vm_compute; repeat constructor; discriminate|].
  intros z run.
  set (c := TrainDict.main_collect Sample.paths cfg w).
  assert (c.2 = Continue ("dict-out/zstd_dict_0.zdict", samples,
                          TrainDict.mkSampleStats 6 6 495)) as Hc
    by (vm_compute; reflexivity).
  assert (∃ before,
            w_trace c.1 = before
            ∧ head before = Some (EvMkdirAll "dict-out")
            ∧ EvWalkDir "in" ∈ before
            ∧ Forall (λ e, ∀ text, e ≠ EvStderr text) before)
    as (before & Ht & Hhead & Hwalk & Hquiet).
  { eexists. split; [vm_compute; reflexivity|].
    split; [reflexivity|]. split.
    - rewrite !elem_of_cons. tauto.
    - repeat (constructor; [intros text; discriminate|]). constructor. }
  assert (w_fault c.1 = λ _, None) as Hfault by (vm_compute; reflexivity).
  assert (TrainDict.train_options cfg = options) as Hopt by reflexivity.
  subst run. unfold TrainDict.main, TrainDict.main_work, pbind. fold c.
  destruct c as [w1 r]. simpl in Hc, Ht, Hfault. subst r.
  unfold TrainDict.main_train. rewrite Hopt.
  unfold pbind at 2. unfold run at 1. unfold call.
  cbn [fst snd w_fault w_files w_trace log set_file].
  destruct (BuildZstdDict z samples options) as [dict [e|]] eqn:Ebuild.
  { split; [|intros trained Hb; discriminate].
    exists before. eexists. split; [|done].
    unfold fatal, pbind, run, Fprint_stderr, os_Exit.
    cbn [fst snd w_fault w_files w_trace log set_file].
    rewrite Ht, <- app_assoc. reflexivity. }
  unfold TrainDict.main_report, TrainDict.pushMetrics.
  unfold pbind, run, call, os_MkdirAll, os_WriteFile, write_all, os_Close,
    bind, call, ret, Print_stdout.
  repeat (cbn [fst snd w_fault w_files w_trace log set_file];
          rewrite ?Hfault; cbn beta).
  rewrite Ht, <- !app_assoc. split.
  - exists before. eexists. split; [reflexivity | done].
  - intros trained [= <-]. split; [done|].
    split; [by rewrite lookup_insert_eq|].
    apply Forall_app. split; [done|].
    repeat (constructor; [intros text; discriminate|]). constructor.
Qed.

(** * The file lister (C5) *)

Lemma node_induction (P : node → Prop) :
  (∀ ty info, P (Leaf ty info)) →
  (∀ es err, Forall (λ x, P x.2) es → P (Directory es err)) →
  ∀ n, P n.
Proof.
  intros HL HD. fix IH 1. intros [ty info|es err]; [apply HL|].
  apply HD. revert es. fix IHes 1. intros [|[name c] es].
  - constructor.
  - constructor; [apply IH | apply IHes].
Qed.

Lemma walkDir_readable fp n : ∀ path acc,
  readable n = true →
  walkDir fp listFiles_fn path n acc
  = (acc ++ (filter listed (entries fp path n)).*1, None).
Proof.
  induction n as [ty info|es err IH] using node_induction; intros path acc Hr.
  - simpl in Hr. destruct info as [info|e]; [|done].
    cbn [walkDir entries entry_of listFiles_fn IsDir Info].
    destruct (Size info =? 0) eqn:E.
    + rewrite filter_cons_False
        by (unfold listed; simpl; rewrite E; simpl; tauto).
      simpl. by rewrite app_nil_r.
    + rewrite filter_cons_True
        by (unfold listed; simpl; rewrite E; simpl; tauto).
      done.
  - simpl in Hr. destruct err as [e|]; [done|].
    cbn [walkDir entries entry_of listFiles_fn IsDir].
    rewrite filter_cons_False by (unfold listed; simpl; tauto).
    revert acc Hr. induction IH as [|[name c] es Hc _ IHes]; intros acc Hr.
    + simpl. by rewrite app_nil_r.
    + apply andb_true_iff in Hr as [Hrc Hres]. simpl in Hc.
      rewrite (Hc _ acc Hrc). rewrite IHes by done.
      rewrite filter_app, fmap_app, app_assoc. done.
Qed.

Lemma only_empty_files_spec fp n : ∀ path,
  only_empty_files n = true →
  readable n = true ∧ filter listed (entries fp path n) = [].
Proof.
  induction n as [ty info|es err IH] using node_induction; intros path He.
  - simpl in *. destruct info as [info|e]; [|done]. split; [done|].
    rewrite filter_cons_False; [done|].
    unfold listed. simpl. rewrite He. simpl. tauto.
  - simpl in He. destruct err as [e|]; [done|].
    cbn [readable entries entry_of].
    rewrite filter_cons_False by (unfold listed; simpl; tauto).
    revert He. induction IH as [|[name c] es Hc _ IHes]; intros He.
    + done.
    + apply andb_true_iff in He as [Hec Hes]. simpl in Hc.
      destruct (Hc (Join fp path name) Hec) as [Hr Hf].
      destruct (IHes Hes) as [Hrs Hfs].
      rewrite Hr, Hrs, filter_app, Hf, Hfs. done.
Qed.

Lemma listFiles_on_readable fp root n :
  readable n = true →
  listFiles_on fp (inl n) root
  = (sort_Strings (filter listed (entries fp root n)).*1, None).
Proof.
  intros Hr. unfold listFiles_on, WalkDir.
  by rewrite (walkDir_readable fp n root [] Hr).
Qed.

(** C5, as the code has it.  On a tree that can be read, [listFiles]
    returns the paths of the entries beneath the root that are not
    directories and whose size is not zero (regular files, and symbolic
    links and other special files as well), each once, in the order of
    [sort.Strings].  When the root cannot be read ([os.Lstat] or
    [os.ReadDir] of it fails), it returns that error and no path.  On a
    directory that holds only empty files it returns the empty list, and
    the compressor and the decompressor, once the output directory is made,
    print "no files found in" with the input directory on standard error
    and exit with code 1. *)
Theorem listFiles_spec fp st z root lstat :
  (∀ n, lstat = inl n → readable n = true →
     ∃ l, listFiles_on fp lstat root = (l, None)
          ∧ StronglySorted String.le l
          ∧ l ≡ₚ (filter listed (entries fp root n)).*1)
  ∧ (∀ e, e ≠ SkipDir → e ≠ SkipAll →
       lstat = inr e ∨ (∃ es, lstat = inl (Directory es (Some e))) →
       listFiles_on fp lstat root = ([], Some e))
  ∧ (∀ n, lstat = inl n → only_empty_files n = true →
       listFiles_on fp lstat root = ([], None)
       ∧ ∀ (c : Compress.Config) (d : Decompress.Config) w,
           w_lstat w root = lstat →
           let line := EvStderr ("no files found in " +:+ root +:+ nl) in
           (Compress.inputDir c = root →
            Compress.useDict c
            && String.eqb (TrimSpace st (Compress.dictPath c)) "" = false →
            w_fault w (EvMkdirAll (Compress.outDir c)) = None →
            Compress.main fp st z c w
            = (log line (log (EvWalkDir root)
                           (log (EvMkdirAll (Compress.outDir c)) w)), Exit 1))
           ∧ (Decompress.inputDir d = root →
              Decompress.useDict d
              && String.eqb (TrimSpace st (Decompress.dictPath d)) "" = false →
              w_fault w (EvMkdirAll (Decompress.outDir d)) = None →
              Decompress.main fp st z d w
              = (log line (log (EvWalkDir root)
                             (log (EvMkdirAll (Decompress.outDir d)) w)),
                 Exit 1))).
Proof.
  split; [|split].
  - intros n -> Hr. eexists. split; [by apply listFiles_on_readable|].
    split.
    + apply StronglySorted_merge_sort; apply _.
    + apply merge_sort_Permutation.
  - intros e Hd Ha [->|[es ->]]; unfold listFiles_on, WalkDir; simpl;
      unfold errors_Is;
      repeat (rewrite !bool_decide_eq_false_2 by done; simpl); done.
  - intros n -> He.
    destruct (only_empty_files_spec fp n root He) as [Hr Hf].
    assert (Hl : listFiles_on fp (inl n) root = ([], None)).
    { rewrite listFiles_on_readable by done. by rewrite Hf. }
    split; [done|]. intros c d w Hw line. split.
    + intros Hin Hflag Hmk.
      unfold Compress.main, Compress.main_work. rewrite Hflag.
      unfold pbind, run, os_MkdirAll, call, listFiles. simpl.
      rewrite Hmk. simpl. rewrite Hin, Hw, Hl. done.
    + intros Hin Hflag Hmk.
      unfold Decompress.main, Decompress.main_work. rewrite Hflag.
      unfold pbind, run, os_MkdirAll, call, listFiles. simpl.
      rewrite Hmk. simpl. rewrite Hin, Hw, Hl. done.
Qed.

(** C5 as it was stated fails on "regular": a symbolic link is not a
    regular file, and [listFiles] returns its path. *)
Lemma listFiles_lists_a_symlink :
  let tree := Directory [("data.json", Sample.file 9);
                   ("latest", Leaf ModeSymlink (inl (mkFileInfo 9)))] None in
  listFiles_on Sample.paths (inl tree) "in"
  = (["in/data.json"; "in/latest"], None)
  ∧ (filter regular_nonempty (entries Sample.paths "in" tree)).*1
    = ["in/data.json"]
  ∧ ¬ ["in/data.json"; "in/latest"] ≡ₚ ["in/data.json"].
Proof.
  intros tree. split; [by vm_compute|]. split; [by vm_compute|].
  intros H. apply Permutation_length in H. discriminate H.
Qed.

Lemma listFiles_spec_witness :
  let tree := Directory [("b.json", Sample.file 7); ("a.json", Sample.file 0);
                   ("sub", Directory [("c.json", Sample.file 3)] None)] None in
  let empty := Directory [("a.json", Sample.file 0);
                    ("sub", Directory [("c.json", Sample.file 0)] None)] None in
  let gone := PathError "lstat" "in" "no such file or directory" in
  let w := Sample.world [] "in" empty in
  let c := Compress.mkConfig "in" "out" 0 false "" "gateway" in
  let line := EvStderr ("no files found in " +:+ "in" +:+ nl) in
  (∃ l, listFiles_on Sample.paths (inl tree) "in" = (l, None)
        ∧ StronglySorted String.le l
        ∧ l ≡ₚ (filter listed (entries Sample.paths "in" tree)).*1)
  ∧ listFiles_on Sample.paths (inr gone) "in" = ([], Some gone)
  ∧ Compress.main Sample.paths Sample.strings Sample.zstd c w
    = (log line (log (EvWalkDir "in") (log (EvMkdirAll "out") w)), Exit 1).
Proof.
  intros tree empty gone w c line. split; [|split].
  - apply (listFiles_spec Sample.paths Sample.strings Sample.zstd "in"
             (inl tree)); reflexivity.
  - apply (listFiles_spec Sample.paths Sample.strings Sample.zstd "in"
             (inr gone)); [discriminate | discriminate | by left].
  - destruct (listFiles_spec Sample.paths Sample.strings Sample.zstd "in"
                (inl empty)) as (_ & _ & H).
    destruct (H empty eq_refl eq_refl) as [_ Hmain].
    apply (Hmain c (Decompress.mkConfig "in" "out" false "" "" "gateway") w);
      reflexivity.
Defined.

(** * Samples (C2, C3, C7) *)

Section Trim.
Import TrainDict.

Lemma trimStart_bounds fuel input s e :
  (s ≤ e)%nat → (s ≤ trimStart fuel input s e ≤ e)%nat.
Proof.
  revert s. induction fuel as [|fuel IH]; intros s Hs; simpl; [lia|].
  destruct (s <? e)%nat eqn:E; [|lia]. apply Nat.ltb_lt in E.
  destruct (input !! s) as [b|]; [|lia].
  destruct (isTrimByte b); [|lia].
  specialize (IH (S s)). lia.
Qed.

Lemma trimStart_stop fuel input s e :
  (e ≤ length input)%nat → (e - s ≤ fuel)%nat →
  (trimStart fuel input s e < e)%nat →
  ∃ b, input !! trimStart fuel input s e = Some b ∧ isTrimByte b = false.
Proof.
  intros He. revert s. induction fuel as [|fuel IH]; intros s Hf; simpl.
  - lia.
  - destruct (s <? e)%nat eqn:E; [|apply Nat.ltb_ge in E; lia].
    apply Nat.ltb_lt in E.
    destruct (input !! s) as [b|] eqn:Hb.
    + destruct (isTrimByte b) eqn:Ht.
      * apply IH. lia.
      * intros _. by exists b.
    + apply lookup_ge_None in Hb. lia.
Qed.

Lemma trimEnd_bounds fuel input s e :
  (s ≤ e)%nat → (s ≤ trimEnd fuel input s e ≤ e)%nat.
Proof.
  revert e. induction fuel as [|fuel IH]; intros e Hs; simpl; [lia|].
  destruct (s <? e)%nat eqn:E; [|lia]. apply Nat.ltb_lt in E.
  destruct (input !! (e - 1)%nat) as [b|]; [|lia].
  destruct (isTrimByte b); [|lia].
  specialize (IH (e - 1)%nat). lia.
Qed.

Lemma trimEnd_stop fuel input s e :
  (e ≤ length input)%nat → (e - s ≤ fuel)%nat →
  (s < trimEnd fuel input s e)%nat →
  ∃ b, input !! (trimEnd fuel input s e - 1)%nat = Some b
       ∧ isTrimByte b = false.
Proof.
  revert e. induction fuel as [|fuel IH]; intros e He Hf; simpl.
  - lia.
  - destruct (s <? e)%nat eqn:E; [|apply Nat.ltb_ge in E; lia].
    apply Nat.ltb_lt in E.
    destruct (input !! (e - 1)%nat) as [b|] eqn:Hb.
    + destruct (isTrimByte b) eqn:Ht.
      * apply IH; lia.
      * intros _. by exists b.
    + apply lookup_ge_None in Hb. lia.
Qed.

Lemma slice_length input s e :
  (s ≤ e)%nat → (e ≤ length input)%nat → length (slice input s e) = (e - s)%nat.
Proof. intros. unfold slice. rewrite length_take, length_drop. lia. Qed.

Lemma slice_head input s e :
  (s < e)%nat → head (slice input s e) = input !! s.
Proof.
  intros. unfold slice. rewrite head_lookup, lookup_take_lt by lia.
  rewrite lookup_drop. f_equal. lia.
Qed.

Lemma slice_last input s e :
  (s < e)%nat → (e ≤ length input)%nat →
  last (slice input s e) = input !! (e - 1)%nat.
Proof.
  intros. rewrite last_lookup, slice_length by lia. unfold slice.
  rewrite lookup_take_lt by lia. rewrite lookup_drop. f_equal. lia.
Qed.

Lemma bytesTrimSpace_length input :
  (length (bytesTrimSpace input) ≤ length input)%nat.
Proof.
  unfold bytesTrimSpace, slice. rewrite length_take, length_drop. lia.
Qed.

Lemma bytesTrimSpace_trimmed input :
  bytesTrimSpace input ≠ [] → trimmed (bytesTrimSpace input).
Proof.
  unfold bytesTrimSpace.
  set (n := length input).
  set (s := trimStart n input 0 n).
  set (e := trimEnd (n - s) input s n).
  pose proof (trimStart_bounds n input 0 n ltac:(lia)) as Hs. fold s in Hs.
  pose proof (trimEnd_bounds (n - s) input s n ltac:(lia)) as He. fold e in He.
  intros Hne.
  assert (s < e)%nat as Hlt.
  { destruct (decide (s < e)%nat); [done|]. exfalso. apply Hne.
    apply length_zero_iff_nil. rewrite slice_length; lia. }
  split; intros b Hb.
  - rewrite slice_head in Hb by done.
    destruct (trimStart_stop n input 0 n) as (b' & Hb' & Ht);
      [done | lia | fold s; lia |].
    fold s in Hb'. congruence.
  - rewrite slice_last in Hb by lia.
    destruct (trimEnd_stop (n - s) input s n) as (b' & Hb' & Ht);
      [done | lia | fold e; lia |].
    fold e in Hb'. congruence.
Qed.

End Trim.

Lemma returns_ret {A} (a : A) (Q : A → Prop) : Q a → returns (ret a) Q.
Proof. by intros H w. Qed.

Lemma returns_bind {A B} (m : IO A) (k : A → IO B) (P : A → Prop)
    (Q : B → Prop) :
  returns m P → (∀ a, P a → returns (k a) Q) → returns (bind m k) Q.
Proof.
  intros Hm Hk w. unfold bind. specialize (Hm w).
  destruct (m w) as [w1 a]. by apply Hk.
Qed.

Lemma returns_any {A} (m : IO A) : returns m (λ _, True).
Proof. by intros w. Qed.

Section Samples.
Import TrainDict.

Lemma returns_ReadFull path body off m :
  returns (io_ReadFull path body off m)
    (λ r, (length r.1 ≤ m)%nat
          ∧ (r.2 = None → (0 < m)%nat →
             (length r.1 = m ∧ off + m ≤ length body)%nat)).
Proof.
  intros w. unfold io_ReadFull.
  destruct (m =? 0)%nat eqn:Em.
  { apply Nat.eqb_eq in Em. simpl. split.
    - lia.
    - intros _ H0. exfalso. lia. }
  unfold bind, call, ret. simpl.
  destruct (w_fault w _); simpl; [split; [lia|done]|].
  destruct (length (drop off body) =? 0)%nat eqn:E0; simpl; [split; [lia|done]|].
  destruct (length (drop off body) <? m)%nat eqn:E1; simpl.
  - apply Nat.ltb_lt in E1. split; [lia|done].
  - apply Nat.ltb_ge in E1. rewrite length_take. rewrite length_drop in E1.
    split; [lia|]. intros _ Hm. rewrite length_drop. lia.
Qed.

Lemma good_trimmed_chunk m chunk :
  (length chunk ≤ m)%nat → bytesTrimSpace chunk ≠ [] →
  good_sample m (bytesTrimSpace chunk).
Proof.
  intros Hlen Hne. split; [done|]. split.
  - pose proof (bytesTrimSpace_length chunk). lia.
  - by apply bytesTrimSpace_trimmed.
Qed.

Lemma len_zero {A} (l : list A) : (len l =? 0) = true → l = [].
Proof.
  intros H. apply Z.eqb_eq in H. unfold len in H.
  apply length_zero_iff_nil. lia.
Qed.

Lemma len_nonzero {A} (l : list A) : (len l =? 0) = false → l ≠ [].
Proof. intros H ->. done. Qed.

Lemma len_positive {A} (l : list A) : (len l >? 0) = true → l ≠ [].
Proof. intros H ->. done. Qed.

Lemma len_app {A} (l1 l2 : list A) : len (l1 ++ l2) = len l1 + len l2.
Proof. unfold len. rewrite length_app. lia. Qed.

Lemma gathered_nil m cap : gathered m cap [].
Proof. split; [constructor | unfold len; simpl; lia]. Qed.

Lemma gathered_snoc m cap samples s :
  gathered m cap samples → len samples < cap → good_sample m s →
  gathered m cap (samples ++ [s]).
Proof.
  intros [Hg Hl] Hlt Hs. split.
  - apply Forall_app. split; [done | by constructor].
  - rewrite len_app. unfold len at 2. simpl. lia.
Qed.

Lemma returns_readSamples_loop fuel path body off m cap samples total :
  gathered m cap samples →
  returns (readSamples_loop fuel path body off m cap samples total)
    (result_ok m cap).
Proof.
  revert off samples total.
  induction fuel as [|fuel IH]; intros off samples total Hg; simpl.
  - destruct (negb _); by apply returns_ret.
  - destruct (negb (len samples <? cap)) eqn:Ecap; [by apply returns_ret|].
    apply negb_false_iff, Z.ltb_lt in Ecap.
    eapply returns_bind; [apply returns_ReadFull|].
    intros [chunk err] [Hlen _]. simpl in Hlen.
    destruct err as [e|].
    + destruct (_ || _); [|apply returns_ret; split; [apply gathered_nil | done]].
      destruct (_ =? _)%nat; [by apply returns_ret|].
      destruct (len _ >? 0) eqn:E; [|by apply returns_ret].
      apply returns_ret. split; [|done].
      apply gathered_snoc; [done..|].
      apply good_trimmed_chunk; [done | by apply len_positive].
    + destruct (len _ =? 0) eqn:E; [by apply IH|].
      apply IH, gathered_snoc; [done..|].
      apply good_trimmed_chunk; [done | by apply len_nonzero].
Qed.

(** The loop ends before its fuel does when the chunk size is positive. *)
Lemma readSamples_loop_ends fuel path body off m cap samples total :
  (0 < m)%nat → (length body - off < fuel)%nat →
  returns (readSamples_loop fuel path body off m cap samples total)
    (λ r, r ≠ None).
Proof.
  intros Hm. revert off samples total.
  induction fuel as [|fuel IH]; intros off samples total Hfuel; simpl.
  - lia.
  - destruct (negb _); [by apply returns_ret|].
    eapply returns_bind; [apply returns_ReadFull|].
    intros [chunk err] [_ Hfull]. simpl in Hfull.
    destruct err as [e|].
    + repeat case_match; by apply returns_ret.
    + destruct (Hfull eq_refl Hm) as [Hc Hb].
      destruct (len _ =? 0); apply IH; lia.
Qed.

Lemma returns_readSamplesFromFile path maxBytes cap :
  returns (readSamplesFromFile path maxBytes cap)
    (λ r, result_ok (Z.to_nat maxBytes) cap r ∧ (0 < maxBytes → r ≠ None)).
Proof.
  unfold readSamplesFromFile.
  eapply returns_bind; [apply returns_any|]. intros [e|] _.
  { apply returns_ret. split; [|done]. split; [apply gathered_nil | done]. }
  destruct (maxBytes <? 0) eqn:E.
  { apply returns_ret. split; [done|]. apply Z.ltb_lt in E. lia. }
  eapply returns_bind; [apply returns_any|]. intros body _.
  apply (returns_bind _ _
           (λ r, result_ok (Z.to_nat maxBytes) cap r ∧ (0 < maxBytes → r ≠ None))).
  { intros w. split.
    - apply (returns_readSamples_loop _ _ _ _ _ _ _ _ (gathered_nil _ _) w).
    - intros Hpos. apply readSamples_loop_ends; lia. }
  intros r [Hr Hend]. eapply returns_bind; [apply returns_any|]. intros _ _.
  by apply returns_ret.
Qed.

Lemma gathered_app m cap samples chunks :
  gathered m cap samples → len samples < cap →
  gathered m (cap - len samples) chunks →
  gathered m cap (samples ++ chunks).
Proof.
  intros [Hg Hl] Hlt [Hc Hcl]. split.
  - by apply Forall_app.
  - rewrite len_app. lia.
Qed.

Lemma returns_collectSamples_loop paths cap maxBytes samples stats :
  gathered (Z.to_nat maxBytes) cap samples →
  returns (collectSamples_loop paths cap maxBytes samples stats)
    (λ r, result_ok (Z.to_nat maxBytes) cap r ∧ (0 < maxBytes → r ≠ None)).
Proof.
  revert samples stats.
  induction paths as [|path rest IH]; intros samples stats Hg; simpl.
  - by apply returns_ret.
  - destruct (len samples >=? cap) eqn:E; [by apply returns_ret|].
    assert (len samples < cap) as Hlt by lia.
    eapply returns_bind; [apply returns_readSamplesFromFile|].
    intros [[[chunks readBytes] [e|]]|] [Hr Hend].
    + apply returns_ret. split; [|done]. split; [apply gathered_nil | done].
    + destruct Hr as [Hc _].
      destruct (len chunks =? 0); [by apply IH|].
      by apply IH, gathered_app.
    + apply returns_ret. split; [done|]. intros Hpos. by destruct Hend.
Qed.

(** What [collectSamples] returns for positive parameters: it does return,
    every sample is good and there are at most [maxSamples] of them, a
    success has at least two samples and a failure has none. *)
Lemma returns_collectSamples fp dir maxSamples maxBytes :
  0 < maxSamples → 0 < maxBytes →
  returns (collectSamples fp dir maxSamples maxBytes)
    (λ r, ∃ samples stats err,
        r = Some (samples, stats, err)
        ∧ Forall (good_sample (Z.to_nat maxBytes)) samples
        ∧ len samples ≤ maxSamples
        ∧ (err = None → 2 ≤ len samples)
        ∧ (err ≠ None → samples = [])).
Proof.
  intros Hs Hb. unfold collectSamples.
  assert (Hfail : ∀ (stats : sampleStats) (e : error),
    ∃ (samples : list (list byte)) stats' err,
      Some ([], stats, Some e) = Some (samples, stats', err)
      ∧ Forall (good_sample (Z.to_nat maxBytes)) samples
      ∧ len samples ≤ maxSamples
      ∧ (err = None → 2 ≤ len samples)
      ∧ (err ≠ None → samples = [])).
  { intros stats e. eexists _, _, _. split; [done|].
    split; [constructor|]. split; [unfold len; simpl; lia|]. done. }
  eapply returns_bind; [apply returns_any|]. intros [paths [e|]] _.
  { apply returns_ret, Hfail. }
  destruct (len paths =? 0); [apply returns_ret, Hfail|].
  destruct (Z.min maxSamples (len paths) <? 0) eqn:E.
  { apply Z.ltb_lt in E. unfold len in E. lia. }
  eapply returns_bind.
  { apply returns_collectSamples_loop, gathered_nil. }
  intros [[[samples stats] err]|] [Hr Hend]; [|by destruct Hend].
  destruct Hr as [[Hg Hl] Hnil]. destruct err as [e|].
  - rewrite Hnil by done. apply returns_ret, Hfail.
  - destruct (len samples <? 2) eqn:E2; [apply returns_ret, Hfail|].
    apply returns_ret. eexists _, _, _. split; [done|].
    split; [done|]. split; [lia|]. split; [lia | done].
Qed.

End Samples.

(** ** Reading a file chunk by chunk *)

Lemma chunks_from_irrel m : ∀ f1 f2 rest,
  (0 < m)%nat → (length rest ≤ f1)%nat → (length rest ≤ f2)%nat →
  chunks_from f1 m rest = chunks_from f2 m rest.
Proof.
  induction f1 as [|f1 IH]; intros f2 rest Hm H1 H2.
  - destruct rest; [by destruct f2 | simpl in H1; lia].
  - destruct rest as [|b rest]; [by destruct f2|].
    destruct f2 as [|f2]; [simpl in H2; lia|].
    cbn [chunks_from]. f_equal.
    apply IH; [done | |]; rewrite length_drop; simpl in *; lia.
Qed.

Lemma chunks_from_enough fuel m rest :
  (0 < m)%nat → (length rest ≤ fuel)%nat →
  chunks_from fuel m rest = chunks m rest.
Proof. intros. by apply chunks_from_irrel. Qed.

Lemma chunks_nil m : chunks m [] = [].
Proof. done. Qed.

Lemma chunks_step m rest :
  (0 < m)%nat → rest ≠ [] →
  chunks m rest = take m rest :: chunks m (drop m rest).
Proof.
  intros Hm Hne. unfold chunks at 1.
  destruct rest as [|b rest]; [done|]. cbn [length chunks_from]. f_equal.
  apply chunks_from_enough; [done|]. rewrite length_drop. simpl. lia.
Qed.

Lemma samples_of_nil m : samples_of m [] = [].
Proof. unfold samples_of. rewrite chunks_nil. apply filter_nil. Qed.

Lemma samples_of_step m rest :
  (0 < m)%nat → rest ≠ [] →
  samples_of m rest
  = (if decide (TrainDict.bytesTrimSpace (take m rest) ≠ [])
     then [TrainDict.bytesTrimSpace (take m rest)] else [])
    ++ samples_of m (drop m rest).
Proof.
  intros Hm Hne. unfold samples_of. rewrite chunks_step by done.
  rewrite fmap_cons. by destruct (decide _); [rewrite filter_cons_True | rewrite filter_cons_False].
Qed.

Section Sequential.
Import TrainDict.

Context (path : string) (body : list byte) (m : nat) (cap : Z).
Hypothesis Hm : (0 < m)%nat.

Lemma readSamples_loop_sequential fuel : ∀ off samples total w,
  (∀ o, w_fault w (EvRead path o) = None) →
  (length body - off < fuel)%nat →
  len samples ≤ cap →
  ∃ total',
    (readSamples_loop fuel path body off m cap samples total w).2
    = Some (samples
              ++ take (Z.to_nat (cap - len samples))
                   (samples_of m (drop off body)),
            total', None).
Proof.
  induction fuel as [|fuel IH]; intros off samples total w Hf Hfuel Hlen;
    [lia|].
  simpl. destruct (negb (len samples <? cap)) eqn:Ecap.
  { apply negb_true_iff, Z.ltb_ge in Ecap.
    replace (cap - len samples) with 0 by lia. simpl.
    rewrite app_nil_r. by eexists. }
  apply negb_false_iff, Z.ltb_lt in Ecap.
  unfold bind, io_ReadFull.
  replace (m =? 0)%nat with false by (symmetry; apply Nat.eqb_neq; lia).
  unfold bind, call, ret. simpl. rewrite Hf.
  set (rest := drop off body).
  assert (Hone : ∀ (s : list byte) l,
    take (Z.to_nat (cap - len samples)) (s :: l)
    = s :: take (Z.to_nat (cap - len (samples ++ [s]))) l).
  { intros s l. rewrite len_app. unfold len at 3. simpl.
    replace (Z.to_nat (cap - len samples))
      with (S (Z.to_nat (cap - (len samples + 1)))) by lia.
    done. }
  destruct (length rest =? 0)%nat eqn:E0.
  { apply Nat.eqb_eq, length_zero_iff_nil in E0. rewrite E0. simpl.
    rewrite samples_of_nil, ?take_nil, ?app_nil_r. by eexists. }
  apply Nat.eqb_neq in E0.
  assert (rest ≠ []) as Hne by (intros Hr; rewrite Hr in E0; done).
  rewrite (samples_of_step m rest Hm Hne).
  destruct (length rest <? m)%nat eqn:E1; simpl.
  - apply Nat.ltb_lt in E1.
    rewrite (take_ge rest m) by lia. rewrite (drop_ge rest m) by lia.
    rewrite samples_of_nil.
    rewrite app_nil_r.
    replace (length rest =? 0)%nat with false
      by (symmetry; by apply Nat.eqb_neq).
    destruct (len (bytesTrimSpace rest) >? 0) eqn:Et.
    + apply len_positive in Et. rewrite decide_True by done.
      rewrite Hone, ?take_nil. by eexists.
    + rewrite decide_False; [rewrite ?take_nil, ?app_nil_r; by eexists|].
      intros Hd. apply Hd, length_zero_iff_nil. unfold len in Et. lia.
  - apply Nat.ltb_ge in E1.
    assert (length (take m rest) = m) as Hlt by (rewrite length_take; lia).
    rewrite Hlt.
    assert (drop m rest = drop (off + m) body) as Hdrop.
    { unfold rest. by rewrite drop_drop. }
    rewrite Hdrop.
    assert (length body - (off + m) < fuel)%nat as Hfuel'.
    { unfold rest in E1. rewrite length_drop in E1. lia. }
    destruct (len (bytesTrimSpace (take m rest)) =? 0) eqn:Et.
    + apply len_zero in Et. rewrite decide_False by (by intros H).
      simpl. by apply IH.
    + apply len_nonzero in Et. rewrite decide_True by done.
      simpl. rewrite Hone.
      destruct (IH (off + m)%nat (samples ++ [bytesTrimSpace (take m rest)])
                  (total + len (bytesTrimSpace (take m rest)))
                  (log (EvRead path off) w)) as [total' Ht];
        [done | done | rewrite len_app; unfold len at 2; simpl; lia |].
      exists total'. rewrite Ht. by rewrite <- app_assoc.
Qed.

Local Arguments readSamples_loop : simpl never.

(** Where the file can be opened and read, [readSamplesFromFile] returns
    the first [maxSamples] samples of the body, in the order of the
    chunks. *)
Lemma readSamplesFromFile_sequential w :
  w_fault w (EvOpen path) = None →
  (∀ o, w_fault w (EvRead path o) = None) →
  w_files w !! path = Some body →
  0 ≤ cap →
  ∃ total,
    (readSamplesFromFile path (Z.of_nat m) cap w).2
    = Some (take (Z.to_nat cap) (samples_of m body), total, None).
Proof.
  intros Ho Hr Hb Hcap. unfold readSamplesFromFile.
  unfold bind, os_Open, os_Close, call, ret, bind. simpl.
  rewrite Ho. simpl. rewrite Hb.
  replace (Z.of_nat m <? 0) with false by (symmetry; apply Z.ltb_ge; lia).
  simpl. rewrite Hb. simpl. rewrite Nat2Z.id.
  destruct (readSamples_loop_sequential (S (length body)) 0 [] 0
              (log (EvOpen path) w)) as [total Ht];
    [done | lia | unfold len; simpl; lia |].
  exists total.
  destruct (readSamples_loop _ _ _ _ _ _ _ _ _) as [w1 r] eqn:E.
  simpl in Ht. subst r. simpl.
  unfold len. simpl. by rewrite Z.sub_0_r, drop_0.
Qed.

End Sequential.

(** ** Samples are trimmed and not empty (C2) *)

(** C2, as the code has it.  For positive [max-samples] and
    [max-sample-bytes], [collectSamples] returns, and every sample it
    returns is non-empty and neither begins nor ends with one of the four
    bytes the trimmer removes: space, line feed, carriage return, tab. *)
Theorem samples_trimmed fp dir maxSamples maxSampleBytes w :
  0 < maxSamples → 0 < maxSampleBytes →
  ∃ samples stats err,
    (TrainDict.collectSamples fp dir maxSamples maxSampleBytes w).2
    = Some (samples, stats, err)
    ∧ Forall (λ s, s ≠ [] ∧ trimmed s) samples.
Proof.
  intros Hs Hb.
  destruct (returns_collectSamples fp dir maxSamples maxSampleBytes Hs Hb w)
    as (samples & stats & err & Hr & Hg & _).
  exists samples, stats, err. split; [done|].
  eapply Forall_impl; [apply Hg|]. by intros s (? & _ & ?).
Qed.

(** C2 as it was stated fails for white space other than those four bytes:
    a form feed is white space, and it stays at the head of a sample. *)
Lemma form_feed_is_not_trimmed :
  let w := Sample.world [("in/a.json", String "012"%char "ab");
                         ("in/b.json", "cd")] "in"
             (Directory [("a.json", Sample.file 3); ("b.json", Sample.file 2)] None) in
  ∃ stats,
    (TrainDict.collectSamples Sample.paths "in" 10 8 w).2
    = Some ([[x0c; x61; x62]; [x63; x64]], stats, None)
    ∧ head [x0c; x61; x62] = Some x0c
    ∧ isSpace x0c = true.
Proof. intros w. eexists. split; [by vm_compute | done]. Qed.

Lemma samples_trimmed_witness :
  let w := Sample.world [("in/a.json", "  ab "); ("in/b.json", "cd")] "in"
             (Directory [("a.json", Sample.file 5); ("b.json", Sample.file 2)] None) in
  0 < 10 ∧ 0 < 8
  ∧ ∃ samples stats err,
      (TrainDict.collectSamples Sample.paths "in" 10 8 w).2
      = Some (samples, stats, err)
      ∧ Forall (λ s, s ≠ [] ∧ trimmed s) samples.
Proof.
  intros w. split; [lia|]. split; [lia|].
  apply (samples_trimmed Sample.paths "in" 10 8 w); lia.
Defined.

(** ** Computations that leave the files alone *)

Lemma keeps_ret {A} (a : A) : keeps_files (ret a).
Proof. done. Qed.

Lemma keeps_bind {A B} (m : IO A) (k : A → IO B) :
  keeps_files m → (∀ a, keeps_files (k a)) → keeps_files (bind m k).
Proof.
  intros Hm Hk w. unfold bind. specialize (Hm w).
  destruct (m w) as [w1 a]. simpl in Hm. by rewrite Hk.
Qed.

Lemma keeps_pbind {A B} (m : Proc A) (k : A → Proc B) :
  keeps_files m → (∀ a, keeps_files (k a)) → keeps_files (pbind m k).
Proof.
  intros Hm Hk w. unfold pbind. specialize (Hm w).
  destruct (m w) as [w1 [a|code]]; simpl in *; [by rewrite Hk | done].
Qed.

Lemma keeps_run {A} (m : IO A) : keeps_files m → keeps_files (run m).
Proof. intros Hm w. unfold run. specialize (Hm w). by destruct (m w). Qed.

Lemma keeps_exit {A} code : keeps_files (@os_Exit A code).
Proof. done. Qed.

Lemma keeps_call ev : keeps_files (call ev).
Proof. done. Qed.

Lemma keeps_fatal {A} text : keeps_files (@fatal A text).
Proof. done. Qed.

Lemma keeps_Open path : keeps_files (os_Open path).
Proof.
  intros w. unfold os_Open, bind, call, ret. simpl.
  destruct (w_fault w _); [done|]. simpl. by destruct (w_files w !! path).
Qed.

Lemma keeps_Stat path : keeps_files (os_Stat path).
Proof.
  intros w. unfold os_Stat, bind, call, ret. simpl.
  destruct (w_fault w _); [done|]. simpl. by destruct (w_files w !! path).
Qed.

Lemma keeps_ReadFile path : keeps_files (os_ReadFile path).
Proof.
  intros w. unfold os_ReadFile, bind, call, ret. simpl.
  destruct (w_fault w _); [done|]. simpl. by destruct (w_files w !! path).
Qed.

Lemma keeps_read_all path : keeps_files (read_all path).
Proof.
  intros w. unfold read_all, bind, call, ret. simpl.
  by destruct (w_fault w _).
Qed.

Lemma keeps_listFiles fp dir : keeps_files (listFiles fp dir).
Proof. done. Qed.

Lemma keeps_now layout : keeps_files (time_Now_Format layout).
Proof. done. Qed.

(** One step of a proof that a computation keeps the files, by the shape
    of the computation. *)
Ltac keeps_step :=
  lazymatch goal with
  | |- keeps_files (bind _ _) => apply keeps_bind; [|intros ?]
  | |- keeps_files (pbind _ _) => apply keeps_pbind; [|intros ?]
  | |- keeps_files (run _) => apply keeps_run
  | |- keeps_files (ret _) => apply keeps_ret
  | |- keeps_files (os_Exit _) => apply keeps_exit
  | |- keeps_files (fatal _) => apply keeps_fatal
  | |- keeps_files (call _) => apply keeps_call
  | |- keeps_files (os_MkdirAll _) => apply keeps_call
  | |- keeps_files (os_Close _) => apply keeps_call
  | |- keeps_files (os_Open _) => apply keeps_Open
  | |- keeps_files (os_Stat _) => apply keeps_Stat
  | |- keeps_files (os_ReadFile _) => apply keeps_ReadFile
  | |- keeps_files (read_all _) => apply keeps_read_all
  | |- keeps_files (listFiles _ _) => apply keeps_listFiles
  | |- keeps_files (time_Now_Format _) => apply keeps_now
  | |- keeps_files (Fprint_stderr _) => by intros ?
  | |- keeps_files (Print_stdout _) => by intros ?
  | |- keeps_files (match ?x with _ => _ end) => destruct x
  | |- keeps_files (let (_, _) := ?x in _) => destruct x
  | |- keeps_files (λ w, (w, _)) => by intros ?
  end.

Ltac keeps_all := repeat keeps_step.

Section KeepsTrainDict.
Import TrainDict.

Lemma keeps_ReadFull path body off m :
  keeps_files (io_ReadFull path body off m).
Proof. unfold io_ReadFull. keeps_all. Qed.

Lemma keeps_readSamples_loop fuel path body m cap :
  ∀ off samples total,
  keeps_files (readSamples_loop fuel path body off m cap samples total).
Proof.
  induction fuel as [|fuel IH]; intros off samples total; simpl.
  - keeps_all.
  - destruct (negb _); [keeps_all|].
    apply keeps_bind; [apply keeps_ReadFull|].
    intros [chunk err]. keeps_all; apply IH.
Qed.

Lemma keeps_readSamplesFromFile path maxBytes cap :
  keeps_files (readSamplesFromFile path maxBytes cap).
Proof.
  unfold readSamplesFromFile.
  apply keeps_bind; [apply keeps_Open|].
  intros [e|]; [keeps_all|].
  destruct (maxBytes <? 0); [keeps_all|].
  apply keeps_bind; [by intros ?|]. intros body.
  apply keeps_bind; [apply keeps_readSamples_loop|].
  intros r. keeps_all.
Qed.

Lemma keeps_collectSamples_loop paths cap maxBytes :
  ∀ samples stats,
  keeps_files (collectSamples_loop paths cap maxBytes samples stats).
Proof.
  induction paths as [|path rest IH]; intros samples stats; simpl.
  - keeps_all.
  - destruct (_ >=? _); [keeps_all|].
    apply keeps_bind; [apply keeps_readSamplesFromFile|].
    intros r. keeps_all; apply IH.
Qed.

Lemma keeps_collectSamples fp dir maxSamples maxBytes :
  keeps_files (collectSamples fp dir maxSamples maxBytes).
Proof.
  unfold collectSamples.
  apply keeps_bind; [apply keeps_listFiles|].
  intros [paths [e|]]; [keeps_all|].
  destruct (_ =? _); [keeps_all|].
  destruct (_ <? _); [keeps_all|].
  apply keeps_bind; [apply keeps_collectSamples_loop|].
  intros r. keeps_all.
Qed.

End KeepsTrainDict.

(** ** The samples of a directory, file after file *)

Lemma take_app_taken {A} (n : nat) (l k : list A) :
  take n (l ++ k) = take n l ++ take (n - length (take n l)) k.
Proof.
  rewrite take_app, length_take.
  destruct (decide (n ≤ length l)%nat).
  - replace (n - length l)%nat with 0%nat by lia.
    replace (n - n `min` length l)%nat with 0%nat by lia. done.
  - do 2 f_equal. lia.
Qed.

Section InOrder.
Import TrainDict.
Context (cap maxBytes : Z).
Hypothesis Hbytes : 0 < maxBytes.

(** Where every file can be opened and read, the loop over the files adds
    the samples of each file in turn, until the cap is reached. *)
Lemma collectSamples_loop_in_order paths bodies :
  ∀ samples stats w,
  (∀ p, w_fault w (EvOpen p) = None) →
  (∀ p o, w_fault w (EvRead p o) = None) →
  Forall2 (λ p body, w_files w !! p = Some body) paths bodies →
  len samples ≤ cap →
  ∃ stats',
    (collectSamples_loop paths cap maxBytes samples stats w).2
    = Some (samples
              ++ take (Z.to_nat (cap - len samples))
                   (concat (samples_of (Z.to_nat maxBytes) <$> bodies)),
            stats', None).
Proof.
  revert bodies.
  induction paths as [|path rest IH];
    intros bodies samples stats w Ho Hr Hfiles Hlen.
  - apply Forall2_nil_inv_l in Hfiles as ->. simpl.
    rewrite take_nil, app_nil_r. by eexists.
  - apply Forall2_cons_inv_l in Hfiles as (body & bodies' & Hb & Hrest & ->).
    simpl. destruct (len samples >=? cap) eqn:E.
    { replace (cap - len samples) with 0 by lia. simpl.
      rewrite app_nil_r. by eexists. }
    assert (len samples < cap) as Hlt by lia.
    unfold bind.
    destruct (readSamplesFromFile_sequential path body (Z.to_nat maxBytes)
                (cap - len samples) ltac:(lia) w (Ho path) (Hr path) Hb
                ltac:(lia)) as [total Hread].
    rewrite Z2Nat.id in Hread by lia.
    pose proof (keeps_readSamplesFromFile path maxBytes (cap - len samples) w)
      as Hkeep.
    destruct (performs_readSamplesFromFile path maxBytes (cap - len samples) w)
      as (evs & (_ & Hfault & _) & _).
    destruct (readSamplesFromFile path maxBytes (cap - len samples) w)
      as [w1 r]. simpl in Hread, Hkeep, Hfault. subst r.
    set (n := Z.to_nat (cap - len samples)) in *.
    set (so := samples_of (Z.to_nat maxBytes) body) in *.
    rewrite take_app_taken.
    assert (∀ p, w_fault w1 (EvOpen p) = None) as Ho1
      by (intros p; by rewrite Hfault).
    assert (∀ p o, w_fault w1 (EvRead p o) = None) as Hr1
      by (intros p o; by rewrite Hfault).
    assert (Forall2 (λ p body, w_files w1 !! p = Some body) rest bodies')
      as Hrest1 by (by rewrite Hkeep).
    destruct (len (take n so) =? 0) eqn:E0.
    + apply len_zero in E0. rewrite E0. simpl.
      rewrite Nat.sub_0_r. by apply IH.
    + assert (len (samples ++ take n so) ≤ cap) as Hlen'.
      { rewrite len_app. unfold len at 2. rewrite length_take. lia. }
      destruct (IH bodies' (samples ++ take n so)
                  (mkSampleStats (FilesScanned stats + 1)
                     (Samples stats + len (take n so))
                     (SampleBytes stats + total)) w1 Ho1 Hr1 Hrest1 Hlen')
        as [stats' Hloop].
      assert (Z.to_nat (cap - len (samples ++ take n so))
              = (n - length (take n so))%nat) as Heq.
      { rewrite len_app. subst n. unfold len. lia. }
      rewrite Heq in Hloop.
      exists stats'. rewrite Hloop. by rewrite <- app_assoc.
Qed.

End InOrder.

(** Where every listed file can be opened and read, [collectSamples]
    returns the first [maxSamples] of the samples of the listed files, file
    after file; with fewer than two of them, or with no file listed, it
    returns the error that says so. *)
Lemma collectSamples_in_order fp dir maxSamples maxSampleBytes w paths bodies :
  0 < maxSamples → 0 < maxSampleBytes →
  (∀ p, w_fault w (EvOpen p) = None) →
  (∀ p o, w_fault w (EvRead p o) = None) →
  listFiles_on fp (w_lstat w dir) dir = (paths, None) →
  Forall2 (λ p body, w_files w !! p = Some body) paths bodies →
  let all := take (Z.to_nat maxSamples)
               (concat (samples_of (Z.to_nat maxSampleBytes) <$> bodies)) in
  ∃ stats,
    (TrainDict.collectSamples fp dir maxSamples maxSampleBytes w).2
    = if len paths =? 0
      then Some ([], stats, Some (Errorf ("no files found in " +:+ dir)))
      else if len all <? 2
      then Some ([], stats, Some (not_enough (len all)))
      else Some (all, stats, None).
Proof.
  intros Hs Hb Ho Hr Hlist Hfiles all.
  unfold TrainDict.collectSamples, bind, listFiles. simpl. rewrite Hlist.
  destruct (len paths =? 0); [by eexists|].
  replace (Z.min maxSamples (len paths) <? 0) with false
    by (symmetry; apply Z.ltb_ge; unfold len; lia).
  destruct (collectSamples_loop_in_order maxSamples maxSampleBytes Hb
              paths bodies [] (TrainDict.mkSampleStats 0 0 0)
              (log (EvWalkDir dir) w)) as [stats Hloop];
    [done | done | done | unfold len; simpl; lia |].
  destruct (TrainDict.collectSamples_loop _ _ _ _ _ _) as [w1 r].
  simpl in Hloop. subst r.
  exists stats. simpl.
  replace (Z.to_nat (maxSamples - len [])) with (Z.to_nat maxSamples)
    by (unfold len; simpl; lia).
  fold all. by destruct (len all <? 2).
Qed.

(** ** Samples are bounded in number and in size (C7) *)

(** C7.  For positive [max-samples] and [max-sample-bytes], [collectSamples]
    returns at most [max-samples] samples, over all files, and each is at
    most [max-sample-bytes] long.  Within a file the chunks are read one
    after the other: where the file can be opened and read,
    [readSamplesFromFile] returns the samples of the consecutive chunks of
    the body, from the first one on, up to the end of the file or to the
    number of samples still allowed.  And that number is what is left of
    [max-samples]: where every listed file can be opened and read,
    [collectSamples] gathers the samples of the listed files, file after
    file and chunk after chunk, each file to its end, until [max-samples]
    of them are gathered, so that it returns the first [max-samples] of
    all the samples of the directory (or, with fewer than two of them, the
    error that counts them, and with no file the error that says so). *)
Theorem samples_bounded fp dir maxSamples maxSampleBytes w :
  0 < maxSamples → 0 < maxSampleBytes →
  (∃ samples stats err,
      (TrainDict.collectSamples fp dir maxSamples maxSampleBytes w).2
      = Some (samples, stats, err)
      ∧ len samples ≤ maxSamples
      ∧ Forall (λ s, len s ≤ maxSampleBytes) samples)
  ∧ (∀ path body cap,
      w_fault w (EvOpen path) = None →
      (∀ o, w_fault w (EvRead path o) = None) →
      w_files w !! path = Some body →
      0 ≤ cap →
      ∃ total,
        (TrainDict.readSamplesFromFile path maxSampleBytes cap w).2
        = Some (take (Z.to_nat cap)
                  (samples_of (Z.to_nat maxSampleBytes) body), total, None))
  ∧ ∀ paths bodies,
      (∀ p, w_fault w (EvOpen p) = None) →
      (∀ p o, w_fault w (EvRead p o) = None) →
      listFiles_on fp (w_lstat w dir) dir = (paths, None) →
      Forall2 (λ p body, w_files w !! p = Some body) paths bodies →
      let all := take (Z.to_nat maxSamples)
                   (concat (samples_of (Z.to_nat maxSampleBytes) <$> bodies)) in
      ∃ stats,
        (TrainDict.collectSamples fp dir maxSamples maxSampleBytes w).2
        = if len paths =? 0
          then Some ([], stats, Some (Errorf ("no files found in " +:+ dir)))
          else if len all <? 2
          then Some ([], stats, Some (not_enough (len all)))
          else Some (all, stats, None).
Proof.
  intros Hs Hb. split; [|split].
  - destruct (returns_collectSamples fp dir maxSamples maxSampleBytes Hs Hb w)
      as (samples & stats & err & Hr & Hg & Hl & _).
    exists samples, stats, err. split; [done|]. split; [done|].
    eapply Forall_impl; [apply Hg|]. intros s (_ & Hlen & _).
    unfold len. lia.
  - intros path body cap Ho Hr Hbody Hcap.
    pose proof (readSamplesFromFile_sequential path body
                  (Z.to_nat maxSampleBytes) cap ltac:(lia) w Ho Hr Hbody Hcap)
      as H.
    by rewrite Z2Nat.id in H by lia.
  - intros paths bodies Ho Hr Hlist Hfiles.
    by apply collectSamples_in_order.
Qed.

Lemma samples_bounded_witness :
  let w := Sample.world [("in/b.json", " cd "); ("in/a.json", "  hello ")]
             "in"
             (Directory [("b.json", Sample.file 4); ("a.json", Sample.file 8)]
                None) in
  (∃ samples stats err,
      (TrainDict.collectSamples Sample.paths "in" 3 4 w).2
      = Some (samples, stats, err)
      ∧ len samples ≤ 3
      ∧ Forall (λ s, len s ≤ 4) samples)
  ∧ (∃ total,
      (TrainDict.readSamplesFromFile "in/a.json" 4 3 w).2
      = Some (take (Z.to_nat 3)
                (samples_of (Z.to_nat 4) (bytes_of "  hello ")),
              total, None))
  ∧ ∃ stats,
      (TrainDict.collectSamples Sample.paths "in" 3 4 w).2
      = Some ([bytes_of "he"; bytes_of "llo"; bytes_of "cd"], stats, None).
Proof.
  intros w.
  destruct (samples_bounded Sample.paths "in" 3 4 w) as (H1 & H2 & H3);
    [lia..|].
  split; [exact H1|]. split.
  - apply (H2 "in/a.json" (bytes_of "  hello ") 3);
      [reflexivity | reflexivity | reflexivity | lia].
  - destruct (H3 ["in/a.json"; "in/b.json"]
                [bytes_of "  hello "; bytes_of " cd "]) as [stats Hr].
    + reflexivity.
    + reflexivity.
    + vm_compute. reflexivity.
    + repeat constructor.
    + exists stats. exact Hr.
Defined.

(** ** Fewer than two samples (C3) *)

Lemma main_collect_continue fp cfg w outputPath samples stats :
  (TrainDict.main_collect fp cfg w).2 = Continue (outputPath, samples, stats) →
  2 ≤ len samples.
Proof.
  unfold TrainDict.main_collect.
  destruct (TrainDict.dictSize cfg <=? 0); [done|].
  destruct (TrainDict.maxSamples cfg <=? 0) eqn:Es; [done|].
  destruct (TrainDict.maxSampleBytes cfg <=? 0) eqn:Eb; [done|].
  apply Z.leb_gt in Es, Eb.
  unfold pbind at 1. destruct (run (os_MkdirAll _) w) as [w1 [[e|]|c]]; try done.
  unfold pbind at 1.
  match goal with
  | |- context [match ?m w1 with _ => _ end] =>
      destruct (m w1) as [w2 [outputPath'|c]]
  end; [|done].
  unfold pbind, run.
  pose proof (returns_collectSamples fp (TrainDict.inputDir cfg) _ _ Es Eb w2)
    as (smp & sts & err & Hr & _ & _ & Hok & _).
  destruct (TrainDict.collectSamples _ _ _ _ w2) as [w3 r]. simpl in Hr.
  subst r. destruct err as [e|]; [done|]. simpl. intros H. simplify_eq.
  by apply Hok.
Qed.

(** C3.  For positive parameters, [collectSamples] returns, and it never
    returns a success with fewer than two samples: when the loop over the
    files ends with fewer than two, it returns no sample and the error "not
    enough samples to train".  In [main], the part up to [collectSamples]
    goes on only with two samples or more; otherwise the run ends there
    with its exit code, and neither has a dictionary been trained nor a
    file been written.  None of this depends on the requested dictionary
    size: that part of [main] is the same for every positive
    [-dict-size]. *)
Theorem too_few_samples fp st z (cfg : TrainDict.Config) w :
  0 < TrainDict.dictSize cfg →
  0 < TrainDict.maxSamples cfg →
  0 < TrainDict.maxSampleBytes cfg →
  let collect dir :=
    TrainDict.collectSamples fp dir (TrainDict.maxSamples cfg)
      (TrainDict.maxSampleBytes cfg) in
  (∃ samples stats err,
      (collect (TrainDict.inputDir cfg) w).2 = Some (samples, stats, err)
      ∧ (err = None → 2 ≤ len samples)
      ∧ (err ≠ None → samples = []))
  ∧ (∀ w1 paths gathered stats,
       listFiles fp (TrainDict.inputDir cfg) w = (w1, (paths, None)) →
       paths ≠ [] →
       (TrainDict.collectSamples_loop paths (TrainDict.maxSamples cfg)
          (TrainDict.maxSampleBytes cfg) [] (TrainDict.mkSampleStats 0 0 0)
          w1).2 = Some (gathered, stats, None) →
       len gathered < 2 →
       (collect (TrainDict.inputDir cfg) w).2
       = Some ([], stats, Some (not_enough (len gathered))))
  ∧ match (TrainDict.main_collect fp cfg w).2 with
    | Continue (_, samples, _) => 2 ≤ len samples
    | Exit code =>
        TrainDict.main fp st z cfg w
        = ((TrainDict.main_collect fp cfg w).1, Exit code)
    end
  ∧ (∃ evs,
       w_trace (TrainDict.main_collect fp cfg w).1 = w_trace w ++ evs
       ∧ Forall (λ e, is_train e = false ∧ ∀ p, e ≠ EvWriteFile p) evs)
  ∧ ∀ d, 0 < d →
      TrainDict.main_collect fp (with_dictSize d cfg) w
      = TrainDict.main_collect fp cfg w.
Proof.
  intros Hd Hs Hb collect. split; [|split; [|split; [|split]]].
  - destruct (returns_collectSamples fp (TrainDict.inputDir cfg) _ _ Hs Hb w)
      as (samples & stats & err & Hr & _ & _ & Hok & Hno).
    by exists samples, stats, err.
  - intros w1 paths gathered stats Hlist Hne Hloop Hlt.
    unfold collect, TrainDict.collectSamples, bind. rewrite Hlist.
    replace (len paths =? 0) with false.
    2:{ symmetry. apply Z.eqb_neq. unfold len. destruct paths; [done|].
        simpl. lia. }
    replace (Z.min _ _ <? 0) with false
      by (symmetry; apply Z.ltb_ge; unfold len; lia).
    destruct (TrainDict.collectSamples_loop _ _ _ _ _ w1) as [w2 r].
    simpl in Hloop. subst r. unfold ret. simpl.
    replace (len gathered <? 2) with true by (symmetry; by apply Z.ltb_lt).
    done.
  - destruct (TrainDict.main_collect fp cfg w) as [w1 [[[p smp] sts]|code]] eqn:E.
    + simpl. eapply (main_collect_continue fp cfg w). by rewrite E.
    + simpl. unfold TrainDict.main, TrainDict.main_work, pbind. by rewrite E.
  - destruct (performs_main_collect fp cfg w) as (evs & (_ & _ & _ & Ht) & Hall).
    exists evs. split; [done|].
    eapply Forall_impl; [apply Hall|]. by intros e (? & _ & ?).
  - intros d Hpos. unfold TrainDict.main_collect, with_dictSize. simpl.
    replace (d <=? 0) with false by (symmetry; apply Z.leb_gt; lia).
    replace (TrainDict.dictSize cfg <=? 0) with false
      by (symmetry; apply Z.leb_gt; lia).
    done.
Qed.

Lemma too_few_samples_witness :
  let cfg := TrainDict.mkConfig "in" "dict-out" "" 1024 10 64 0 "gateway" in
  let w := Sample.world [("in/a.json", "  one sample  ")] "in"
             (Directory [("a.json", Sample.file 14)] None) in
  (TrainDict.collectSamples Sample.paths "in" 10 64 w).2
  = Some ([], TrainDict.mkSampleStats 1 1 10, Some (not_enough 1))
  ∧ ∀ d, 0 < d →
      TrainDict.main_collect Sample.paths (with_dictSize d cfg) w
      = TrainDict.main_collect Sample.paths cfg w.
Proof.
  intros cfg w.
  destruct (too_few_samples Sample.paths Sample.strings Sample.zstd cfg w)
    as (_ & Hfew & _ & _ & Hsize); [simpl; lia..|].
  split; [|exact Hsize].
  apply (Hfew (log (EvWalkDir "in") w) ["in/a.json"]
           [bytes_of "one sample"]); [reflexivity | done | reflexivity | done].
Defined.

(** * The generated records (C4) *)

Section Writer.
Import GenerateData.

Lemma file_Write_ok path data w :
  no_fault w →
  ∃ w', file_Write path data w = (w', None)
        ∧ w_fault w' = w_fault w
        ∧ w_files w' !! path = Some (default [] (w_files w !! path) ++ data).
Proof.
  intros Hf. unfold file_Write, bind, call, ret. simpl. rewrite Hf.
  eexists. split; [done|]. split; [done|]. simpl. by rewrite lookup_insert_eq.
Qed.

Lemma Writer_Flush_ok b w :
  no_fault w → wr_err b = None →
  ∃ w' b', Writer_Flush b w = (w', (b', None))
           ∧ wr_err b' = None ∧ wr_path b' = wr_path b ∧ wr_buf b' = []
           ∧ w_fault w' = w_fault w
           ∧ written b' w' = written b w.
Proof.
  intros Hf He. unfold Writer_Flush. rewrite He.
  destruct (length (wr_buf b) =? 0)%nat eqn:E.
  - apply Nat.eqb_eq, length_zero_iff_nil in E.
    exists w, b. unfold ret. by repeat split.
  - destruct (file_Write_ok (wr_path b) (wr_buf b) w Hf) as (w' & Hw & Hfl & Hfile).
    unfold bind. rewrite Hw. unfold ret. eexists _, _. split; [done|].
    repeat split; try done. unfold written. simpl.
    by rewrite Hfile, app_nil_r.
Qed.

Lemma Writer_Write_turn_ok b p w :
  no_fault w → wr_err b = None →
  ∃ w' b' p', Writer_Write_turn b p w = (w', (b', p'))
              ∧ wr_err b' = None ∧ wr_path b' = wr_path b
              ∧ w_fault w' = w_fault w
              ∧ written b' w' ++ p' = written b w ++ p.
Proof.
  intros Hf He. unfold Writer_Write_turn.
  destruct (_ && _); [|exists w, b, p; by repeat split].
  destruct (length (wr_buf b) =? 0)%nat eqn:E.
  - apply Nat.eqb_eq, length_zero_iff_nil in E.
    destruct (file_Write_ok (wr_path b) p w Hf) as (w' & Hw & Hfl & Hfile).
    unfold bind. rewrite Hw. unfold ret. exists w', b, []. split; [done|].
    repeat split; try done. unfold written. rewrite Hfile, E.
    by rewrite !app_nil_r.
  - set (b1 := mkWriter (wr_path b) (wr_buf b ++ take (Available b) p) None).
    destruct (Writer_Flush_ok b1 w Hf eq_refl)
      as (w' & b' & Hw & He' & Hp & _ & Hfl & Hwr).
    unfold bind. rewrite Hw. unfold ret. exists w', b', (drop (Available b) p).
    split; [done|]. repeat split; try done.
    rewrite Hwr. unfold written. simpl.
    by rewrite <- !app_assoc, take_drop.
Qed.

Lemma Writer_Write_ok b p w :
  no_fault w → wr_err b = None →
  ∃ w' b', Writer_Write b p w = (w', (b', None))
           ∧ wr_err b' = None ∧ wr_path b' = wr_path b
           ∧ w_fault w' = w_fault w
           ∧ written b' w' = written b w ++ p.
Proof.
  intros Hf He. unfold Writer_Write, bind.
  destruct (Writer_Write_turn_ok b p w Hf He)
    as (w1 & b1 & p1 & -> & He1 & Hp1 & Hf1 & Hw1).
  assert (no_fault w1) as Hnf1 by (intros ev; by rewrite Hf1).
  destruct (Writer_Write_turn_ok b1 p1 w1 Hnf1 He1)
    as (w2 & b2 & p2 & -> & He2 & Hp2 & Hf2 & Hw2).
  rewrite He2. unfold ret. eexists _, _. split; [done|]. simpl.
  repeat split; [congruence | congruence |].
  unfold written in *. simpl. by rewrite app_assoc, Hw2.
Qed.

End Writer.

Section Generate.
Import GenerateData.
Context (fp : Filepath) (st : Strings) (R : Rand).
Variable Marshal : Item R → list byte * option error.
Hypothesis Marshal_ok : ∀ item, (Marshal item).2 = None.

(** [makeItem(i)] makes the record of identifier [i + 1], and only reads
    the clock. *)
Lemma makeItem_ID dataTypeVal i rng w :
  ∃ w' item rng',
    makeItem st R dataTypeVal i rng w = (w', (item, rng'))
    ∧ item_ID R item = i + 1
    ∧ w_files w' = w_files w
    ∧ w_fault w' = w_fault w.
Proof.
  unfold makeItem, makeMovie, makeBook, makePerson, pick, randFloat.
  repeat case_match;
    unfold bind, ret, time_Now_Format; simpl;
    eexists _, _, _; (split; [reflexivity|]); done.
Qed.

(** The loop over [n] indices from [first] on writes their records, each
    but the one of index 0 after a separator; the records have the
    identifiers [first + 1], [first + 2], ... *)
Lemma writeJSONArray_loop_ok dataTypeVal (n : nat) : ∀ first writer rng w,
  0 ≤ first →
  no_fault w → wr_err writer = None →
  ∃ w' writer' items,
    writeJSONArray_loop R Marshal (makeItem st R dataTypeVal)
      (seqZ first (Z.of_nat n)) writer rng w
    = (w', (writer', None))
    ∧ wr_err writer' = None ∧ wr_path writer' = wr_path writer
    ∧ w_fault w' = w_fault w
    ∧ length items = n
    ∧ (∀ k item, items !! k = Some item →
         item_ID R item = first + Z.of_nat k + 1)
    ∧ written writer' w'
      = written writer w
        ++ array_body (bool_decide (first = 0)) ((λ it, (Marshal it).1) <$> items).
Proof.
  induction n as [|n IH]; intros first writer rng w Hfirst Hf He.
  - exists w, writer, []. simpl. unfold ret.
    repeat split; try done. by rewrite app_nil_r.
  - rewrite Nat2Z.inj_succ, seqZ_cons by lia.
    replace (Z.pred (Z.succ (Z.of_nat n))) with (Z.of_nat n) by lia.
    cbn [writeJSONArray_loop]. unfold bind at 1.
    assert (∃ w1 writer1,
      (if first >? 0 then Writer_Write writer (bytes_of ("," +:+ nl))
       else ret (writer, None)) w = (w1, (writer1, None))
      ∧ wr_err writer1 = None ∧ wr_path writer1 = wr_path writer
      ∧ w_fault w1 = w_fault w
      ∧ written writer1 w1
        = written writer w
          ++ (if bool_decide (first = 0) then [] else bytes_of ("," +:+ nl)))
      as (w1 & writer1 & -> & He1 & Hp1 & Hf1 & Hw1).
    { destruct (first >? 0) eqn:E.
      - rewrite bool_decide_eq_false_2 by lia.
        destruct (Writer_Write_ok writer (bytes_of ("," +:+ nl)) w Hf He)
          as (w1 & writer1 & ? & ? & ? & ? & ?).
        by exists w1, writer1.
      - rewrite bool_decide_eq_true_2 by lia.
        exists w, writer. unfold ret. by rewrite app_nil_r. }
    destruct (makeItem_ID dataTypeVal first rng w1)
      as (w2 & item & rng2 & Hmk & Hid & Hfiles2 & Hf2).
    unfold bind at 1. rewrite Hmk.
    pose proof (Marshal_ok item) as Hm.
    destruct (Marshal item) as [data merr] eqn:Em. simpl in Hm. subst merr.
    assert (no_fault w2) as Hnf2 by (intros ev; by rewrite Hf2, Hf1).
    destruct (Writer_Write_ok writer1 data w2 Hnf2 He1)
      as (w3 & writer3 & Hwr & He3 & Hp3 & Hf3 & Hw3).
    unfold bind at 1. rewrite Hwr.
    assert (no_fault w3) as Hnf3 by (intros ev; by rewrite Hf3).
    destruct (IH (first + 1) writer3 rng2 w3 ltac:(lia) Hnf3 He3)
      as (w4 & writer4 & items & Hloop & He4 & Hp4 & Hf4 & Hlen & Hids & Hw4).
    replace (Z.succ first) with (first + 1) by lia. rewrite Hloop.
    exists w4, writer4, (item :: items). split; [done|].
    split; [done|]. split; [congruence|]. split; [congruence|].
    split; [simpl; by rewrite Hlen|]. split.
    + intros [|k] it Hk; simpl in Hk.
      * simplify_eq. lia.
      * rewrite (Hids k it Hk). lia.
    + rewrite Hw4, Hw3. rewrite bool_decide_eq_false_2 by lia.
      assert (written writer1 w2 = written writer1 w1) as ->.
      { unfold written. by rewrite Hfiles2. }
      rewrite Hw1. rewrite fmap_cons, Em. simpl.
      by rewrite <- !app_assoc.
Qed.

Lemma writeJSONArray_ok path count dataTypeVal rng w :
  0 ≤ count → no_fault w →
  ∃ w' items,
    writeJSONArray R Marshal path count (makeItem st R dataTypeVal) rng w
    = (w', None)
    ∧ length items = Z.to_nat count
    ∧ (∀ k item, items !! k = Some item → item_ID R item = Z.of_nat k + 1)
    ∧ w_files w' !! path
      = Some (json_array ((λ it, (Marshal it).1) <$> items)).
Proof.
  intros Hc Hf. unfold writeJSONArray.
  set (w0 := set_file path [] (log (EvCreate path) w)).
  assert (os_Create path w = (w0, None)) as Hcreate.
  { unfold os_Create, bind, call, ret. simpl. by rewrite Hf. }
  unfold bind at 1. rewrite Hcreate.
  assert (no_fault w0) as Hf0 by done.
  set (writer := mkWriter path [] None).
  destruct (Writer_Write_ok writer (bytes_of ("[" +:+ nl)) w0 Hf0 eq_refl)
    as (w1 & writer1 & Hw & He1 & Hp1 & Hf1 & Hw1).
  unfold bind at 1. unfold bind at 1. rewrite Hw.
  assert (no_fault w1) as Hnf1 by (intros ev; by rewrite Hf1).
  destruct (writeJSONArray_loop_ok dataTypeVal (Z.to_nat count) 0 writer1 rng
              w1 ltac:(lia) Hnf1 He1)
    as (w2 & writer2 & items & Hloop & He2 & Hp2 & Hf2 & Hlen & Hids & Hw2).
  rewrite Z2Nat.id in Hloop by lia.
  unfold bind at 1. rewrite Hloop.
  assert (no_fault w2) as Hnf2 by (intros ev; by rewrite Hf2).
  destruct (Writer_Write_ok writer2 (bytes_of (nl +:+ "]" +:+ nl)) w2 Hnf2 He2)
    as (w3 & writer3 & Hw' & He3 & Hp3 & Hf3 & Hw3).
  rewrite Hw'.
  assert (no_fault w3) as Hnf3 by (intros ev; by rewrite Hf3).
  destruct (Writer_Flush_ok writer3 w3 Hnf3 He3)
    as (w4 & writer4 & Hfl & He4 & Hp4 & Hb4 & Hf4 & Hw4).
  unfold bind at 1. rewrite Hfl.
  unfold os_Close, bind, call, ret. simpl.
  exists (log (EvClose path) w4), items. split; [done|]. split; [done|].
  split; [intros k item Hk; rewrite (Hids k item Hk); lia|].
  simpl.
  assert (written writer4 w4
          = json_array ((λ it, (Marshal it).1) <$> items)) as Hall.
  { rewrite Hw4, Hw3, Hw2, Hw1. unfold written. simpl.
    unfold w0. simpl. rewrite lookup_insert_eq. simpl.
    reflexivity. }
  unfold written in Hall. rewrite Hb4, app_nil_r in Hall.
  assert (wr_path writer4 = path) as Hpath by (by rewrite Hp4, Hp3, Hp2, Hp1).
  rewrite Hpath in Hall.
  destruct (w_files w4 !! path) as [content|]; simpl in Hall;
    [subst; reflexivity|].
  unfold json_array in Hall. simpl in Hall. discriminate Hall.
Qed.

End Generate.

(** C4.  For a requested count [n >= 1] and a valid record type, when no
    call on the file system fails and every record can be marshalled, the
    generator's main work returns, and the output file holds a JSON array
    of exactly [n] records, the one at position [i] (counting from 1)
    having the identifier [i]. *)
Theorem generated_records fp st R Marshal (cfg : GenerateData.Config) w :
  1 ≤ GenerateData.count cfg →
  GenerateData.dataType cfg ≠ "" →
  let ty := ToLower st (TrimSpace st (GenerateData.dataType cfg)) in
  ty = "movies" ∨ ty = "books" ∨ ty = "people" →
  no_fault w →
  (∀ item, (Marshal item).2 = None) →
  ∃ w' outputFile items,
    GenerateData.main_work fp st R Marshal cfg w
    = (w', Continue (GenerateData.count cfg, ty, outputFile))
    ∧ len items = GenerateData.count cfg
    ∧ (∀ k item, items !! k = Some item →
         GenerateData.item_ID R item = Z.of_nat k + 1)
    ∧ w_files w' !! outputFile
      = Some (json_array ((λ it, (Marshal it).1) <$> items)).
Proof.
  intros Hn Hty ty Hvalid Hf HM.
  unfold GenerateData.main_work.
  replace (String.eqb (GenerateData.dataType cfg) "") with false
    by (symmetry; by apply String.eqb_neq).
  replace (GenerateData.count cfg <=? 0) with false
    by (symmetry; apply Z.leb_gt; lia).
  unfold pbind at 1. unfold run at 1. unfold ret at 1.
  unfold pbind at 1. unfold run at 1. unfold ret at 1.
  fold ty.
  replace (negb (String.eqb ty "movies") && negb (String.eqb ty "books")
           && negb (String.eqb ty "people")) with false.
  2:{ destruct Hvalid as [->|[->| ->]]; done. }
  unfold pbind at 1. unfold run at 1. unfold os_MkdirAll, call. rewrite Hf.
  unfold pbind at 1. unfold run at 1. unfold time_Now_Format at 1.
  unfold pbind at 1. unfold run at 1. unfold time_Now_Format at 1.
  unfold pbind at 1. unfold run at 1.
  match goal with
  | |- context [GenerateData.writeJSONArray R Marshal ?path ?count ?mk ?rng ?w0] =>
      destruct (writeJSONArray_ok st R Marshal HM path count ty rng w0)
        as (w' & items & Hw & Hlen & Hids & Hfile); [lia | done |]
  end.
  rewrite Hw. unfold run, ret.
  eexists _, _, items. split; [reflexivity|].
  split; [unfold len; lia|]. split; done.
Qed.

Lemma generated_records_witness :
  let cfg := GenerateData.mkConfig "Movies " 3 "output" "gateway" in
  let w := Sample.world [] "output" (Directory [] None) in
  ∃ w' outputFile items,
    GenerateData.main_work Sample.paths Sample.strings Sample.rand
      Sample.marshal cfg w
    = (w', Continue (3, "movies", outputFile))
    ∧ len items = 3
    ∧ (∀ k item, items !! k = Some item →
         GenerateData.item_ID Sample.rand item = Z.of_nat k + 1)
    ∧ w_files w' !! outputFile
      = Some (json_array ((λ it, (Sample.marshal it).1) <$> items)).
Proof.
  intros cfg w.
  apply (generated_records Sample.paths Sample.strings Sample.rand
           Sample.marshal cfg w).
  - simpl. lia.
  - discriminate.
  - left. reflexivity.
  - intros ev. reflexivity.
  - intros item. reflexivity.
Defined.

(** * Compressing and decompressing (C1) *)

Section RoundTrip.
Context (fp : Filepath) (z : Zstd).

(** A run that returned no error passed every call without a failure. *)
Ltac passed H :=
  repeat match type of H with
         | context [w_fault ?w ?ev] =>
             destruct (w_fault w ev); simpl in H; [by inversion H|]
         end.

Lemma compressFiles_body_success options baseDir outDir path stats w w' stats' :
  Compress.compressFiles_body fp z options baseDir outDir path stats w
  = (w', (stats', None)) →
  compressed_path fp baseDir outDir path ≠ path →
  ∃ body,
    w_files w !! path = Some body
    ∧ w_files w'
      = <[compressed_path fp baseDir outDir path := encode z options body]>
          (w_files w)
    ∧ w_fault w' = w_fault w.
Proof.
  unfold compressed_path, Compress.compressFiles_body.
  destruct (Rel fp baseDir path) as [rel [e|]]; [by intros [=]|]. simpl.
  set (o := Compress.out_path fp outDir rel).
  unfold bind, os_MkdirAll, os_Open, os_Create, os_Close, os_Stat,
    Compress.copy_encode, read_all, write_all, call, ret, bind. simpl.
  intros H Hne.
  passed H.
  destruct (w_files w !! path) as [body|] eqn:Hbody; [|by inversion H].
  passed H. rewrite lookup_insert_eq in H.
  rewrite !lookup_insert_ne, Hbody in H by done. simpl in H.
  inversion H; subst; clear H. simpl.
  exists body. split; [done|]. split; [|done].
  by rewrite insert_insert_eq.
Qed.

Lemma decompressFiles_body_success options baseDir outDir path stats w w' stats' :
  Decompress.decompressFiles_body fp z options baseDir outDir path stats w
  = (w', (stats', None)) →
  decompressed_path fp baseDir outDir path ≠ path →
  ∃ body plain,
    w_files w !! path = Some body
    ∧ decode z options body = inl plain
    ∧ w_files w'
      = <[decompressed_path fp baseDir outDir path := plain]> (w_files w)
    ∧ w_fault w' = w_fault w.
Proof.
  unfold decompressed_path, Decompress.decompressFiles_body.
  destruct (Rel fp baseDir path) as [rel [e|]]; [by intros [=]|]. simpl.
  set (o := Join fp outDir (Decompress.out_rel rel)).
  unfold bind, os_MkdirAll, os_Open, os_Create, os_Close, os_Stat,
    Decompress.copy_decode, read_all, write_all, call, ret, bind. simpl.
  intros H Hne.
  passed H.
  destruct (w_files w !! path) as [body|] eqn:Hbody; [|by inversion H].
  passed H. rewrite lookup_insert_ne in H by done.
  rewrite Hbody in H. simpl in H.
  destruct (decode z options body) as [plain|e] eqn:Hdec; [|by inversion H].
  simpl in H. passed H.
  rewrite !lookup_insert_ne in H by done.
  rewrite Hbody in H. inversion H; subst; clear H. simpl.
  exists body, plain. split; [done|]. split; [done|]. split; [|done].
  by rewrite insert_insert_eq.
Qed.


Lemma compressFiles_loop_success options baseDir outDir :
  ∀ paths stats w w' stats',
  Compress.compressFiles_loop fp z options baseDir outDir paths stats w
  = (w', (stats', None)) →
  let outs := compressed_path fp baseDir outDir <$> paths in
  NoDup outs →
  (∀ o p, o ∈ outs → p ∈ paths → o ≠ p) →
  w_fault w' = w_fault w
  ∧ (∀ q, q ∉ outs → w_files w' !! q = w_files w !! q)
  ∧ (∀ p, p ∈ paths →
       ∃ body, w_files w !! p = Some body
               ∧ w_files w' !! compressed_path fp baseDir outDir p
                 = Some (encode z options body)).
Proof.
  induction paths as [|p1 rest IH]; intros stats w w' stats' Hrun outs Hnd Hdis.
  - simpl in Hrun. inversion Hrun; subst. split; [done|]. split; [done|].
    intros p Hp. by apply elem_of_nil in Hp.
  - simpl in Hrun. unfold bind in Hrun.
    destruct (Compress.compressFiles_body _ _ _ _ _ _ _ w)
      as [w1 [stats1 [e|]]] eqn:Hbody; [by inversion Hrun|].
    subst outs. rewrite fmap_cons in Hnd, Hdis.
    apply NoDup_cons in Hnd as [Hfresh Hnd].
    apply compressFiles_body_success in Hbody as (body & Hb & Hfiles & Hfault).
    2:{ apply Hdis; [left | left]. }
    destruct (IH stats1 w1 w' stats' Hrun Hnd) as (Hf' & Hother & Hrest).
    { intros o p Ho Hp. apply Hdis; by right. }
    split; [congruence|]. split.
    + intros q Hq. apply not_elem_of_cons in Hq as [Hq1 Hq].
      rewrite (Hother q Hq), Hfiles. by rewrite lookup_insert_ne.
    + intros p Hp. apply elem_of_cons in Hp as [->|Hp].
      * exists body. split; [done|].
        rewrite (Hother _ Hfresh), Hfiles. by rewrite lookup_insert_eq.
      * destruct (Hrest p Hp) as (b & Hb1 & Hb').
        exists b. split; [|done].
        rewrite Hfiles in Hb1. rewrite lookup_insert_ne in Hb1; [done|].
        apply Hdis; [left | by right].
Qed.



End RoundTrip.




(** * Further properties of the tools *)

(** * More on [bytesTrimSpace] *)

Section TrimMore.
Import TrainDict.

(** What the first loop steps over is made of the four bytes. *)
Lemma trimStart_skipped fuel input : ∀ s e i,
  (s ≤ i < trimStart fuel input s e)%nat →
  ∃ b, input !! i = Some b ∧ isTrimByte b = true.
Proof.
  induction fuel as [|fuel IH]; intros s e i Hi; simpl in Hi; [lia|].
  destruct (s <? e)%nat; [|lia].
  destruct (input !! s) as [b|] eqn:Hb; [|lia].
  destruct (isTrimByte b) eqn:Ht; [|lia].
  destruct (decide (i = s)) as [->|Hne]; [by exists b|].
  apply (IH (S s) e i). lia.
Qed.

Lemma trimEnd_skipped fuel input : ∀ s e i,
  (trimEnd fuel input s e ≤ i < e)%nat →
  ∃ b, input !! i = Some b ∧ isTrimByte b = true.
Proof.
  induction fuel as [|fuel IH]; intros s e i Hi; simpl in Hi; [lia|].
  destruct (s <? e)%nat; [|lia].
  destruct (input !! (e - 1)%nat) as [b|] eqn:Hb; [|lia].
  destruct (isTrimByte b) eqn:Ht; [|lia].
  destruct (decide (i = e - 1)%nat) as [->|Hne]; [by exists b|].
  apply (IH s (e - 1)%nat i). lia.
Qed.

(** The input is what was cut off in front, the result, and what was cut
    off behind. *)
Lemma bytesTrimSpace_split input :
  ∃ pre post,
    input = pre ++ bytesTrimSpace input ++ post
    ∧ trim_bytes pre ∧ trim_bytes post.
Proof.
  unfold bytesTrimSpace.
  set (n := length input).
  set (s := trimStart n input 0 n).
  set (e := trimEnd (n - s) input s n).
  pose proof (trimStart_bounds n input 0 n ltac:(lia)) as Hs. fold s in Hs.
  pose proof (trimEnd_bounds (n - s) input s n ltac:(lia)) as He. fold e in He.
  exists (take s input), (drop e input). split; [|split].
  - unfold slice.
    rewrite <- (take_drop s input) at 1. f_equal.
    rewrite <- (take_drop (e - s) (drop s input)) at 1. f_equal.
    rewrite drop_drop. f_equal. lia.
  - apply Forall_lookup_2. intros i b Hb.
    apply lookup_take_Some in Hb as [Hb Hi].
    destruct (trimStart_skipped n input 0 n i) as (b' & Hb' & Ht);
      [fold s; lia|]. congruence.
  - apply Forall_lookup_2. intros i b Hb.
    rewrite lookup_drop in Hb.
    pose proof (lookup_lt_Some _ _ _ Hb) as Hlt.
    destruct (trimEnd_skipped (n - s) input s n (e + i)) as (b' & Hb' & Ht);
      [fold e; fold n in Hlt; lia|]. congruence.
Qed.

Lemma bytesTrimSpace_is_trimmed input : trimmed (bytesTrimSpace input).
Proof.
  destruct (decide (bytesTrimSpace input = [])) as [->|Hne].
  - split; intros b; simpl; discriminate.
  - by apply bytesTrimSpace_trimmed.
Qed.

Lemma trimmed_no_front pre rest :
  trimmed (pre ++ rest) → trim_bytes pre → pre = [].
Proof.
  intros [Hh _] Hpre. unfold trim_bytes in Hpre.
  destruct pre as [|b pre]; [done|].
  apply Forall_cons in Hpre as [Hb _].
  specialize (Hh b eq_refl). congruence.
Qed.

Lemma trimmed_no_back rest post :
  trimmed (rest ++ post) → trim_bytes post → post = [].
Proof.
  intros [_ Hl] Hpost. unfold trim_bytes in Hpost.
  destruct post as [|b post _] using rev_ind; [done|].
  apply Forall_app in Hpost as [_ Hb]. apply Forall_inv in Hb. simpl in Hb.
  rewrite app_assoc, last_snoc in Hl. specialize (Hl b eq_refl). congruence.
Qed.

Lemma bytesTrimSpace_of_trimmed input :
  trimmed input → bytesTrimSpace input = input.
Proof.
  intros Ht.
  destruct (bytesTrimSpace_split input) as (pre & post & Heq & Hpre & Hpost).
  assert (pre = []) as ->.
  { rewrite Heq in Ht. by eapply trimmed_no_front. }
  assert (post = []) as ->.
  { rewrite Heq in Ht. by eapply trimmed_no_back. }
  simpl in Heq. by rewrite app_nil_r in Heq.
Qed.

End TrimMore.

(** X1.  [bytesTrimSpace] returns a sub-slice of its input, and cuts off
    nothing but the four bytes: the input is a run of them, the result, and
    another run of them; the result neither begins nor ends with one, and
    so is the longest such sub-slice. *)
Theorem bytesTrimSpace_cuts_only_white_space input :
  ∃ pre post,
    input = pre ++ TrainDict.bytesTrimSpace input ++ post
    ∧ trim_bytes pre ∧ trim_bytes post
    ∧ trimmed (TrainDict.bytesTrimSpace input)
    ∧ (length input
       = length pre + length (TrainDict.bytesTrimSpace input) + length post)%nat.
Proof.
  destruct (bytesTrimSpace_split input) as (pre & post & Heq & Hpre & Hpost).
  exists pre, post. split; [done|]. split; [done|]. split; [done|].
  split; [apply bytesTrimSpace_is_trimmed|].
  rewrite Heq at 1. rewrite !length_app. lia.
Qed.

(** X2.  [bytesTrimSpace] returns its input unchanged exactly when the input
    neither begins nor ends with one of the four bytes; trimming twice is
    trimming once. *)
Theorem bytesTrimSpace_fixed_point input :
  (TrainDict.bytesTrimSpace input = input ↔ trimmed input)
  ∧ TrainDict.bytesTrimSpace (TrainDict.bytesTrimSpace input)
    = TrainDict.bytesTrimSpace input.
Proof.
  split; [split|].
  - intros <-. apply bytesTrimSpace_is_trimmed.
  - apply bytesTrimSpace_of_trimmed.
  - apply bytesTrimSpace_of_trimmed, bytesTrimSpace_is_trimmed.
Qed.

(** X3.  [bytesTrimSpace] returns the empty slice exactly when its input holds
    nothing but the four bytes (the empty input among them): such a chunk
    gives no sample. *)
Theorem bytesTrimSpace_empty_iff input :
  TrainDict.bytesTrimSpace input = [] ↔ trim_bytes input.
Proof.
  destruct (bytesTrimSpace_split input) as (pre & post & Heq & Hpre & Hpost).
  split.
  - intros Hnil. rewrite Hnil in Heq. rewrite Heq. simpl.
    by apply Forall_app.
  - intros Hall.
    pose proof (bytesTrimSpace_is_trimmed input) as [Hh _].
    destruct (TrainDict.bytesTrimSpace input) as [|b out]; [done|].
    rewrite Heq in Hall. unfold trim_bytes in Hall.
    apply Forall_app in Hall as [_ Hall].
    apply Forall_app in Hall as [Hall _].
    apply Forall_inv in Hall. simpl in Hall.
    specialize (Hh b eq_refl). congruence.
Qed.

(** * The sample collector only reads *)

(** X6.  The sample collector only reads: it leaves every file as it found it,
    and all it asks of the file system is to walk the directory and to
    open, read and close files; it creates, writes and removes nothing,
    whatever the flags and whether it succeeds or fails. *)
Theorem collectSamples_only_reads fp dir maxSamples maxSampleBytes w :
  let w' := (TrainDict.collectSamples fp dir maxSamples maxSampleBytes w).1 in
  w_files w' = w_files w
  ∧ ∃ evs, w_trace w' = w_trace w ++ evs
           ∧ Forall (λ e, is_read e = true) evs.
Proof.
  split; [apply keeps_collectSamples|].
  destruct (performs_collectSamples fp dir maxSamples maxSampleBytes w)
    as (evs & (_ & _ & _ & Ht) & Hall).
  by exists evs.
Qed.

(** * The statistics of the sample collector *)

Lemma sum_len_app l1 l2 : sum_len (l1 ++ l2) = sum_len l1 + sum_len l2.
Proof. induction l1 as [|s l1 IH]; simpl; [done|]. rewrite IH. lia. Qed.

Lemma sum_len_snoc l s : sum_len (l ++ [s]) = sum_len l + len s.
Proof. rewrite sum_len_app. simpl. lia. Qed.

(** Samples that are not empty hold at least one byte each. *)
Lemma sum_len_ge m samples :
  Forall (good_sample m) samples → len samples ≤ sum_len samples.
Proof.
  induction 1 as [|s l [Hne _] _ IH]; [done|].
  change (sum_len (s :: l)) with (len s + sum_len l).
  assert (0 < len s) by (destruct s; [done | unfold len; simpl; lia]).
  unfold len in *. simpl length. lia.
Qed.

Lemma returns_and {A} (m : IO A) (P Q : A → Prop) :
  returns m P → returns m Q → returns m (λ a, P a ∧ Q a).
Proof. intros HP HQ w. split; [apply HP | apply HQ]. Qed.

Section Totals.
Import TrainDict.

(** The loop adds to [total] the bytes of the samples it adds. *)
Lemma returns_readSamples_loop_total fuel path body m cap :
  ∀ off samples total,
  returns (readSamples_loop fuel path body off m cap samples total)
    (λ r, match r with
          | Some (samples', total', None) =>
              total' - total = sum_len samples' - sum_len samples
          | _ => True
          end).
Proof.
  induction fuel as [|fuel IH]; intros off samples total; simpl.
  - destruct (negb _); apply returns_ret; [lia | done].
  - destruct (negb _); [apply returns_ret; lia|].
    eapply returns_bind; [apply returns_any|].
    intros [chunk [e|]] _.
    + destruct (_ || _); [|by apply returns_ret].
      destruct (_ =? _)%nat; [apply returns_ret; lia|].
      destruct (len _ >? 0); apply returns_ret; [|lia].
      rewrite sum_len_snoc. lia.
    + destruct (len _ =? 0); [apply IH|].
      intros w. specialize (IH (off + length chunk)%nat
        (samples ++ [bytesTrimSpace chunk])
        (total + len (bytesTrimSpace chunk)) w).
      destruct (readSamples_loop _ _ _ _ _ _ _ _ w).2 as [[[s' t'] [e|]]|];
        [done | | done].
      rewrite sum_len_snoc in IH. lia.
Qed.

Lemma returns_readSamplesFromFile_total path maxBytes cap :
  returns (readSamplesFromFile path maxBytes cap)
    (λ r, match r with
          | Some (samples, total, None) => total = sum_len samples
          | _ => True
          end).
Proof.
  unfold readSamplesFromFile.
  eapply returns_bind; [apply returns_any|]. intros [e|] _.
  { by apply returns_ret. }
  destruct (maxBytes <? 0); [by apply returns_ret|].
  eapply returns_bind; [apply returns_any|]. intros body _.
  eapply returns_bind; [apply returns_readSamples_loop_total|].
  intros r Hr. eapply returns_bind; [apply returns_any|]. intros _ _.
  apply returns_ret. destruct r as [[[s t] [e|]]|]; [done | | done].
  simpl in Hr. lia.
Qed.

(** What the loop of [collectSamples] keeps: the samples gathered are good
    and within the cap, and the statistics count them. *)
Lemma returns_collectSamples_loop_counted paths cap maxBytes :
  ∀ samples stats,
  gathered (Z.to_nat maxBytes) cap samples → counted stats samples →
  returns (collectSamples_loop paths cap maxBytes samples stats)
    (λ r, match r with
          | Some (samples', stats', err) =>
              ∃ so_far, gathered (Z.to_nat maxBytes) cap so_far
                        ∧ counted stats' so_far
                        ∧ (err = None → samples' = so_far)
          | None => True
          end).
Proof.
  induction paths as [|path rest IH]; intros samples stats Hg Hc; simpl.
  - apply returns_ret. by exists samples.
  - destruct (len samples >=? cap) eqn:E.
    { apply returns_ret. by exists samples. }
    assert (len samples < cap) as Hlt by lia.
    eapply returns_bind.
    { apply returns_and;
        [apply returns_readSamplesFromFile
        | apply returns_readSamplesFromFile_total]. }
    intros [[[chunks readBytes] [e|]]|] [[Hr _] Ht].
    + apply returns_ret. by exists samples.
    + destruct Hr as [Hchunks _]. simpl in Ht. subst readBytes.
      destruct (len chunks =? 0) eqn:E0; [by apply IH|].
      apply IH; [by apply gathered_app|].
      destruct Hc as (Hn & Hb & Hf & Hpos). unfold counted. simpl.
      rewrite len_app, sum_len_app.
      assert (len chunks ≠ 0) by (by apply Z.eqb_neq).
      assert (0 ≤ len chunks) by (unfold len; lia).
      lia.
    + by apply returns_ret.
Qed.

End Totals.

(** X4.  [readSamplesFromFile] returns, with the samples, the number of bytes
    they hold: for a positive chunk size it returns, and when it returns no
    error the second result is the sum of the lengths of the samples; when
    it returns an error it returns no sample. *)
Theorem readSamplesFromFile_counts_bytes path maxBytes maxSamples w :
  0 < maxBytes →
  ∃ samples total err,
    (TrainDict.readSamplesFromFile path maxBytes maxSamples w).2
    = Some (samples, total, err)
    ∧ (err = None → total = sum_len samples)
    ∧ (err ≠ None → samples = []).
Proof.
  intros Hb.
  pose proof (returns_readSamplesFromFile path maxBytes maxSamples w)
    as [Hok Hret].
  pose proof (returns_readSamplesFromFile_total path maxBytes maxSamples w)
    as Htot.
  destruct (TrainDict.readSamplesFromFile path maxBytes maxSamples w).2
    as [[[samples total] err]|]; [|by destruct Hret].
  exists samples, total, err. split; [done|]. split.
  - intros ->. done.
  - by destruct Hok as [_ Hnil].
Qed.

Lemma readSamplesFromFile_counts_bytes_witness :
  let w := Sample.world [("in/a.json", "  hello world  ")] "in"
             (Directory [("a.json", Sample.file 15)] None) in
  (TrainDict.readSamplesFromFile "in/a.json" 4 3 w).2
  = Some ([bytes_of "he"; bytes_of "llo"; bytes_of "worl"], 9, None)
  ∧ 9 = sum_len [bytes_of "he"; bytes_of "llo"; bytes_of "worl"].
Proof.
  intros w.
  destruct (readSamplesFromFile_counts_bytes "in/a.json" 4 3 w ltac:(lia))
    as (samples & total & err & Hr & Htot & _).
  assert ((TrainDict.readSamplesFromFile "in/a.json" 4 3 w).2
          = Some ([bytes_of "he"; bytes_of "llo"; bytes_of "worl"], 9, None))
    as Hrun by (vm_compute; reflexivity).
  split; [exact Hrun|].
  rewrite Hrun in Hr. injection Hr as <- <- <-. exact (Htot eq_refl).
Defined.

(** What [collectSamples] returns for positive parameters, with its
    statistics: they count the samples gathered up to the way out. *)
Lemma returns_collectSamples_counted fp dir maxSamples maxSampleBytes :
  0 < maxSamples → 0 < maxSampleBytes →
  returns (TrainDict.collectSamples fp dir maxSamples maxSampleBytes)
    (λ r, ∃ samples stats err,
        r = Some (samples, stats, err)
        ∧ ∃ so_far, gathered (Z.to_nat maxSampleBytes) maxSamples so_far
                    ∧ counted stats so_far
                    ∧ (err = None → samples = so_far ∧ 2 ≤ len samples)).
Proof.
  intros Hs Hb.
  assert (Hzero : ∀ e : error,
    ∃ (samples : list (list byte)) stats err,
      Some ([], TrainDict.mkSampleStats 0 0 0, Some e)
      = Some (samples, stats, err)
      ∧ ∃ so_far, gathered (Z.to_nat maxSampleBytes) maxSamples so_far
                  ∧ counted stats so_far
                  ∧ (err = None → samples = so_far ∧ 2 ≤ len samples)).
  { intros e. eexists _, _, _. split; [done|]. exists [].
    split; [apply gathered_nil|]. split; [|done].
    unfold counted, len. simpl. lia. }
  unfold TrainDict.collectSamples.
  eapply returns_bind; [apply returns_any|]. intros [paths [e|]] _.
  { apply returns_ret, Hzero. }
  destruct (len paths =? 0); [apply returns_ret, Hzero|].
  destruct (Z.min maxSamples (len paths) <? 0) eqn:E.
  { apply Z.ltb_lt in E. unfold len in E. lia. }
  eapply returns_bind.
  { apply returns_and.
    - apply (returns_collectSamples_loop_counted paths maxSamples
               maxSampleBytes [] (TrainDict.mkSampleStats 0 0 0)).
      + apply gathered_nil.
      + unfold counted, len. simpl. lia.
    - apply returns_collectSamples_loop, gathered_nil. }
  intros [[[samples stats] err]|] [Hc [_ Hend]]; [|by destruct Hend].
  destruct Hc as (so_far & Hg & Hc & Heq). destruct err as [e|].
  - apply returns_ret. eexists _, _, _. split; [done|]. by exists so_far.
  - specialize (Heq eq_refl). subst so_far.
    destruct (len samples <? 2) eqn:E2; apply returns_ret;
      eexists _, _, _; (split; [done|]); exists samples;
      (split; [done|]); (split; [done|]); [done|].
    intros _. split; [done|]. lia.
Qed.

(** X7.  The statistics [collectSamples] returns, on every way out: no more
    files are counted than samples, no more samples than bytes and than
    [max-samples] allows; and on success the statistics are exact: the
    number of the samples returned and the number of bytes they hold. *)
Theorem collectSamples_stats fp dir maxSamples maxSampleBytes w :
  0 < maxSamples → 0 < maxSampleBytes →
  ∃ samples stats err,
    (TrainDict.collectSamples fp dir maxSamples maxSampleBytes w).2
    = Some (samples, stats, err)
    ∧ 0 ≤ TrainDict.FilesScanned stats ≤ TrainDict.Samples stats
    ∧ TrainDict.Samples stats ≤ TrainDict.SampleBytes stats
    ∧ TrainDict.Samples stats ≤ maxSamples
    ∧ (err = None →
       TrainDict.Samples stats = len samples
       ∧ TrainDict.SampleBytes stats = sum_len samples
       ∧ 1 ≤ TrainDict.FilesScanned stats).
Proof.
  intros Hs Hb.
  destruct (returns_collectSamples_counted fp dir maxSamples maxSampleBytes
              Hs Hb w)
    as (samples & stats & err & Hr & so_far & Hg & Hc & Heq).
  exists samples, stats, err. split; [done|].
  destruct Hg as [Hgood Hcap]. destruct Hc as (Hn & Hbytes & Hf & Hpos).
  pose proof (sum_len_ge _ _ Hgood) as Hge.
  split; [done|]. split; [lia|]. split; [lia|].
  intros ->. destruct (Heq eq_refl) as [-> H2].
  split; [done|]. split; [done|]. lia.
Qed.

Lemma collectSamples_stats_witness :
  let w := Sample.world [("in/a.json", "  hello world  "); ("in/b.json", " ")]
             "in"
             (Directory [("a.json", Sample.file 15); ("b.json", Sample.file 1)]
                None) in
  (TrainDict.collectSamples Sample.paths "in" 10 4 w).2
  = Some ([bytes_of "he"; bytes_of "llo"; bytes_of "worl"; bytes_of "d"],
          TrainDict.mkSampleStats 1 4 10, None)
  ∧ 4 = len [bytes_of "he"; bytes_of "llo"; bytes_of "worl"; bytes_of "d"]
  ∧ 10 = sum_len [bytes_of "he"; bytes_of "llo"; bytes_of "worl"; bytes_of "d"].
Proof.
  intros w.
  destruct (collectSamples_stats Sample.paths "in" 10 4 w ltac:(lia) ltac:(lia))
    as (samples & stats & err & Hr & _ & _ & _ & Hok).
  assert ((TrainDict.collectSamples Sample.paths "in" 10 4 w).2
          = Some ([bytes_of "he"; bytes_of "llo"; bytes_of "worl"; bytes_of "d"],
                  TrainDict.mkSampleStats 1 4 10, None))
    as Hrun by (vm_compute; reflexivity).
  split; [exact Hrun|].
  rewrite Hrun in Hr. injection Hr as <- <- <-.
  destruct (Hok eq_refl) as (Hn & Hb & _). split; [exact Hn | exact Hb].
Defined.

(** * The samples in the order of the listing *)

(** X8.  Where every listed file can be opened and read, [collectSamples]
    returns the samples of the files in the order of the listing, those of
    one file in the order of its chunks, cut off at [max-samples]: the
    first [max-samples] of all the samples the directory gives.  With fewer
    than two of them it returns the error that counts them, and with no
    file listed the error that says so. *)
Theorem collectSamples_in_listing_order fp dir maxSamples maxSampleBytes w
    paths bodies :
  0 < maxSamples → 0 < maxSampleBytes →
  (∀ p, w_fault w (EvOpen p) = None) →
  (∀ p o, w_fault w (EvRead p o) = None) →
  listFiles_on fp (w_lstat w dir) dir = (paths, None) →
  Forall2 (λ p body, w_files w !! p = Some body) paths bodies →
  let all := take (Z.to_nat maxSamples)
               (concat (samples_of (Z.to_nat maxSampleBytes) <$> bodies)) in
  ∃ stats,
    (TrainDict.collectSamples fp dir maxSamples maxSampleBytes w).2
    = if len paths =? 0
      then Some ([], stats, Some (Errorf ("no files found in " +:+ dir)))
      else if len all <? 2
      then Some ([], stats, Some (not_enough (len all)))
      else Some (all, stats, None).
Proof.
  intros Hs Hb Ho Hr Hlist Hfiles. by apply collectSamples_in_order.
Qed.

Lemma collectSamples_in_listing_order_witness :
  let w := Sample.world [("in/b.json", " cd "); ("in/a.json", "  hello ")]
             "in"
             (Directory [("b.json", Sample.file 4); ("a.json", Sample.file 8)]
                None) in
  ∃ stats,
    (TrainDict.collectSamples Sample.paths "in" 3 4 w).2
    = Some ([bytes_of "he"; bytes_of "llo"; bytes_of "cd"], stats, None).
Proof.
  intros w.
  destruct (collectSamples_in_listing_order Sample.paths "in" 3 4 w
              ["in/a.json"; "in/b.json"] [bytes_of "  hello "; bytes_of " cd "])
    as [stats Hr].
  - lia.
  - lia.
  - reflexivity.
  - reflexivity.
  - vm_compute. reflexivity.
  - repeat constructor.
  - exists stats. exact Hr.
Defined.

(** * The file a sample is read from is closed *)

Section Closes.
Import TrainDict.

Lemma performs_readSamples_loop_reads fuel path body m cap :
  ∀ off samples total,
  performs (λ e, ∃ o, e = EvRead path o)
    (readSamples_loop fuel path body off m cap samples total).
Proof.
  induction fuel as [|fuel IH]; intros off samples total; simpl.
  - performs_all.
  - destruct (negb _); [performs_all|].
    apply performs_bind.
    { unfold io_ReadFull. performs_all. by eexists. }
    intros [chunk err]. performs_all; apply IH.
Qed.

Local Arguments readSamples_loop : simpl never.

(** X5.  [readSamplesFromFile] closes the file it opened, once, and last of
    all, whatever the reads in between returned; when the file could not be
    opened there is nothing to close, and nothing is read.  The file itself
    is left as it was. *)
Theorem readSamplesFromFile_closes_the_file path maxBytes maxSamples w :
  0 < maxBytes →
  let w' := (TrainDict.readSamplesFromFile path maxBytes maxSamples w).1 in
  w_files w' = w_files w
  ∧ ∃ reads,
      Forall (λ e, ∃ o, e = EvRead path o) reads
      ∧ w_trace w'
        = w_trace w
          ++ (if bool_decide (w_fault w (EvOpen path) = None
                              ∧ is_Some (w_files w !! path))
              then EvOpen path :: reads ++ [EvClose path]
              else [EvOpen path]).
Proof.
  intros Hb w'. split; [apply keeps_readSamplesFromFile|].
  subst w'.
  destruct (w_fault w (EvOpen path)) as [e|] eqn:Ho.
  { rewrite bool_decide_eq_false_2 by (by intros [? _]).
    exists []. split; [constructor|].
    unfold TrainDict.readSamplesFromFile, bind, os_Open, bind, call, ret.
    simpl. by rewrite Ho. }
  destruct (w_files w !! path) as [body|] eqn:Hfile.
  2:{ rewrite bool_decide_eq_false_2 by (intros [_ [? ?]]; done).
      exists []. split; [constructor|].
      unfold TrainDict.readSamplesFromFile, bind, os_Open, bind, call, ret.
      simpl. rewrite Ho. simpl. by rewrite Hfile. }
  rewrite bool_decide_eq_true_2 by (split; [done | by eexists]).
  unfold TrainDict.readSamplesFromFile.
  unfold bind at 1. unfold os_Open, bind, call, ret. simpl.
  rewrite Ho. simpl. rewrite Hfile.
  replace (maxBytes <? 0) with false by (symmetry; apply Z.ltb_ge; lia).
  simpl. rewrite ?Hfile. simpl.
  destruct (performs_readSamples_loop_reads (S (length body)) path body
              (Z.to_nat maxBytes) maxSamples 0 [] 0 (log (EvOpen path) w))
    as (reads & (_ & _ & _ & Ht) & Hreads).
  destruct (TrainDict.readSamples_loop _ _ _ _ _ _ _ _ _) as [w1 r].
  simpl in *. exists reads. split; [done|].
  rewrite Ht. by rewrite <- !app_assoc.
Qed.

End Closes.

Lemma readSamplesFromFile_closes_the_file_witness :
  let w := Sample.world [("in/a.json", "  hello world  ")] "in"
             (Directory [("a.json", Sample.file 15)] None) in
  let w' := (TrainDict.readSamplesFromFile "in/a.json" 4 2 w).1 in
  w_files w' = w_files w
  ∧ ∃ reads,
      Forall (λ e, ∃ o, e = EvRead "in/a.json" o) reads
      ∧ w_trace w'
        = w_trace w
          ++ (if bool_decide (w_fault w (EvOpen "in/a.json") = None
                              ∧ is_Some (w_files w !! "in/a.json"))
              then EvOpen "in/a.json" :: reads ++ [EvClose "in/a.json"]
              else [EvOpen "in/a.json"]).
Proof.
  intros w.
  apply (readSamplesFromFile_closes_the_file "in/a.json" 4 2 w). lia.
Defined.

(** * More on the file lister *)

(** A tree is readable when a walk of it meets no error. *)
Lemma first_error_readable n : first_error n = None ↔ readable n = true.
Proof.
  induction n as [ty info|es err IH] using node_induction.
  - by destruct info.
  - simpl. destruct err as [e|]; [done|].
    induction IH as [|[name c] es Hc _ IHes]; [done|].
    simpl in Hc. rewrite andb_true_iff, <- Hc, <- IHes.
    destruct (first_error c); [|tauto].
    split; [done | by intros [? _]].
Qed.

(** The walk stops at the first error it meets, and returns it. *)
Lemma walkDir_first_error fp n : ∀ path acc e,
  plain_errors n = true → first_error n = Some e →
  plain_error e = true
  ∧ ∃ acc', walkDir fp listFiles_fn path n acc = (acc', Some e).
Proof.
  induction n as [ty info|es err IH] using node_induction;
    intros path acc e Hp He.
  - simpl in *. destruct info as [info|e']; [done|]. simplify_eq.
    split; [done|]. cbn [walkDir entry_of listFiles_fn IsDir Info].
    rewrite andb_false_r. by eexists.
  - cbn [walkDir entry_of listFiles_fn IsDir].
    simpl in Hp, He. apply andb_true_iff in Hp as [Hpe Hpes].
    destruct err as [e'|].
    + simplify_eq. split; [done|].
      unfold plain_error in Hpe. apply andb_true_iff in Hpe as [Hd _].
      apply negb_true_iff in Hd. rewrite Hd. simpl. by eexists.
    + clear Hpe. revert acc Hpes He.
      induction IH as [|[name c] es Hc _ IHes]; intros acc Hpes He; [done|].
      apply andb_true_iff in Hpes as [Hpc Hpes]. simpl in Hc.
      destruct (first_error c) as [e'|] eqn:Ec.
      * simplify_eq.
        destruct (Hc (Join fp path name) acc e Hpc eq_refl)
          as (Hplain & acc' & Hw).
        split; [done|]. rewrite Hw.
        unfold plain_error in Hplain.
        apply andb_true_iff in Hplain as [Hd _].
        apply negb_true_iff in Hd. rewrite Hd. by eexists.
      * apply first_error_readable in Ec.
        rewrite (walkDir_readable fp c _ acc Ec). by apply IHes.
Qed.

(** X9.  [listFiles] fails as soon as the walk meets an error anywhere beneath
    the root (a directory that cannot be read, an entry whose [Info]
    fails): it returns that error, the first one in the order of the walk,
    and no path at all, not the paths found up to there.  A tree with no
    error is one that can be read. *)
Theorem listFiles_fails_with_first_error fp root n :
  (first_error n = None ↔ readable n = true)
  ∧ ∀ e, plain_errors n = true → first_error n = Some e →
         listFiles_on fp (inl n) root = ([], Some e).
Proof.
  split; [apply first_error_readable|]. intros e Hp He.
  destruct (walkDir_first_error fp n root [] e Hp He) as (Hplain & acc & Hw).
  unfold listFiles_on, WalkDir. rewrite Hw.
  unfold plain_error in Hplain. apply andb_true_iff in Hplain as [Hd Ha].
  apply negb_true_iff in Hd, Ha. rewrite Hd, Ha. simpl. by rewrite Hd.
Qed.

(** X10.  The result of [listFiles] does not depend on the order in which the
    directories report their entries: two trees that can be read and hold
    the same entries give the same list. *)
Theorem listFiles_order_independent fp root n1 n2 :
  readable n1 = true → readable n2 = true →
  entries fp root n1 ≡ₚ entries fp root n2 →
  listFiles_on fp (inl n1) root = listFiles_on fp (inl n2) root.
Proof.
  intros H1 H2 Hperm. rewrite !listFiles_on_readable by done. f_equal.
  unfold sort_Strings.
  apply (StronglySorted_unique String.le).
  - apply StronglySorted_merge_sort; apply _.
  - apply StronglySorted_merge_sort; apply _.
  - rewrite !merge_sort_Permutation. by rewrite Hperm.
Qed.

Lemma listFiles_order_independent_witness :
  let t1 := Directory [("b.json", Sample.file 7); ("a.json", Sample.file 2)]
              None in
  let t2 := Directory [("a.json", Sample.file 2); ("b.json", Sample.file 7)]
              None in
  listFiles_on Sample.paths (inl t1) "in" = (["in/a.json"; "in/b.json"], None)
  ∧ listFiles_on Sample.paths (inl t1) "in"
    = listFiles_on Sample.paths (inl t2) "in".
Proof.
  intros t1 t2. split; [vm_compute; reflexivity|].
  apply (listFiles_order_independent Sample.paths "in" t1 t2);
    [reflexivity | reflexivity |].
  apply Permutation_cons; [reflexivity|]. apply Permutation_swap.
Defined.

Lemma listFiles_fails_with_first_error_witness :
  let denied := PathError "open" "in/sub" "permission denied" in
  let tree := Directory [("a.json", Sample.file 2);
                         ("sub", Directory [] (Some denied));
                         ("z.json", Sample.file 5)] None in
  listFiles_on Sample.paths (inl tree) "in" = ([], Some denied).
Proof.
  intros denied tree.
  destruct (listFiles_fails_with_first_error Sample.paths "in" tree)
    as [_ Hfail].
  apply Hfail; reflexivity.
Defined.

(** * What the compressor and the decompressor write *)

Lemma writes_only_keeps {A} outs (m : IO A) :
  keeps_files m → writes_only outs m.
Proof. intros Hm w q _. by rewrite Hm. Qed.

Lemma writes_only_bind {A B} outs (m : IO A) (k : A → IO B) :
  writes_only outs m → (∀ a, writes_only outs (k a)) →
  writes_only outs (bind m k).
Proof.
  intros Hm Hk w q Hq. unfold bind. specialize (Hm w q Hq).
  destruct (m w) as [w1 a]. simpl in Hm. by rewrite Hk.
Qed.

Lemma writes_only_mono {A} outs outs' (m : IO A) :
  outs ⊆ outs' → writes_only outs m → writes_only outs' m.
Proof. intros Hsub Hm w q Hq. apply Hm. intros Hin. by apply Hq, Hsub. Qed.

Lemma writes_only_Create outs path :
  path ∈ outs → writes_only outs (os_Create path).
Proof.
  intros Hin w q Hq. unfold os_Create, bind, call, ret. simpl.
  destruct (w_fault w _); [done|]. simpl.
  apply lookup_insert_ne. by intros ->.
Qed.

Lemma writes_only_write_all outs path data :
  path ∈ outs → writes_only outs (write_all path data).
Proof.
  intros Hin w q Hq. unfold write_all, bind, call, ret. simpl.
  destruct (w_fault w _); [done|]. simpl.
  apply lookup_insert_ne. by intros ->.
Qed.

Lemma writes_only_WriteFile outs path data :
  path ∈ outs → writes_only outs (os_WriteFile path data).
Proof.
  intros Hin w q Hq.
  assert (path ≠ q) as Hne by (by intros ->).
  unfold os_WriteFile, write_all, os_Close, bind, call, ret. simpl.
  destruct (w_fault w (EvWriteFile path)); [done|]. simpl.
  destruct (w_fault w (EvWrite path)); simpl;
    by rewrite ?lookup_insert_ne by done.
Qed.

(** One step of a proof of [writes_only], by the shape of the
    computation. *)
Ltac writes_step :=
  lazymatch goal with
  | |- writes_only _ (bind _ _) => apply writes_only_bind; [|intros ?]
  | |- writes_only _ (os_Create _) => apply writes_only_Create
  | |- writes_only _ (write_all _ _) => apply writes_only_write_all
  | |- writes_only _ (os_WriteFile _ _) => apply writes_only_WriteFile
  | |- writes_only _ (match ?x with _ => _ end) => destruct x
  | |- writes_only _ (let (_, _) := ?x in _) => destruct x
  | |- writes_only _ _ => apply writes_only_keeps; keeps_all
  end.

Ltac writes_all := repeat writes_step.

Section Writes.
Context (fp : Filepath) (z : Zstd).

Lemma writes_only_compress_body options baseDir outDir path stats :
  writes_only [compressed_path fp baseDir outDir path]
    (Compress.compressFiles_body fp z options baseDir outDir path stats).
Proof.
  unfold compressed_path, Compress.compressFiles_body, Compress.copy_encode.
  destruct (Rel fp baseDir path) as [rel [e|]]; simpl;
    writes_all; apply list_elem_of_singleton; reflexivity.
Qed.

Lemma writes_only_compress_loop options baseDir outDir paths :
  ∀ stats,
  writes_only (compressed_path fp baseDir outDir <$> paths)
    (Compress.compressFiles_loop fp z options baseDir outDir paths stats).
Proof.
  induction paths as [|path rest IH]; intros stats; simpl.
  - writes_all.
  - apply writes_only_bind.
    + eapply writes_only_mono; [|apply writes_only_compress_body].
      intros q Hq. apply list_elem_of_singleton in Hq as ->. left.
    + intros [stats' [e|]]; [writes_all|].
      eapply writes_only_mono; [|apply IH]. intros q Hq. by right.
Qed.

Lemma writes_only_compressFiles paths baseDir outDir level dictBytes :
  writes_only (compressed_path fp baseDir outDir <$> paths)
    (Compress.compressFiles fp z paths baseDir outDir level dictBytes).
Proof.
  unfold Compress.compressFiles.
  destruct (NewWriter z _); [writes_all|]. apply writes_only_compress_loop.
Qed.

Lemma writes_only_decompress_body options baseDir outDir path stats :
  writes_only [decompressed_path fp baseDir outDir path]
    (Decompress.decompressFiles_body fp z options baseDir outDir path stats).
Proof.
  unfold decompressed_path, Decompress.decompressFiles_body,
    Decompress.copy_decode.
  destruct (Rel fp baseDir path) as [rel [e|]]; simpl;
    writes_all; apply list_elem_of_singleton; reflexivity.
Qed.

Lemma writes_only_decompress_loop options baseDir outDir paths :
  ∀ stats,
  writes_only (decompressed_path fp baseDir outDir <$> paths)
    (Decompress.decompressFiles_loop fp z options baseDir outDir paths stats).
Proof.
  induction paths as [|path rest IH]; intros stats; simpl.
  - writes_all.
  - apply writes_only_bind.
    + eapply writes_only_mono; [|apply writes_only_decompress_body].
      intros q Hq. apply list_elem_of_singleton in Hq as ->. left.
    + intros [stats' [e|]]; [writes_all|].
      eapply writes_only_mono; [|apply IH]. intros q Hq. by right.
Qed.

Lemma writes_only_decompressFiles paths baseDir outDir dictBytes :
  writes_only (decompressed_path fp baseDir outDir <$> paths)
    (Decompress.decompressFiles fp z paths baseDir outDir dictBytes).
Proof.
  unfold Decompress.decompressFiles.
  destruct (NewReader z _); [writes_all|]. apply writes_only_decompress_loop.
Qed.

End Writes.

Section WritesMain.
Context (fp : Filepath) (st : Strings) (z : Zstd).

Lemma keeps_compress_report cfg stats :
  keeps_files (Compress.main_report fp st cfg stats).
Proof. unfold Compress.main_report, Compress.pushMetrics. keeps_all. Qed.

Lemma keeps_decompress_report cfg stats :
  keeps_files (Decompress.main_report fp st cfg stats).
Proof. unfold Decompress.main_report, Decompress.pushMetrics. keeps_all. Qed.

Lemma compress_work_writes cfg w q :
  let paths := (listFiles_on fp (w_lstat w (Compress.inputDir cfg))
                  (Compress.inputDir cfg)).1 in
  q ∉ compressed_path fp (Compress.inputDir cfg) (Compress.outDir cfg)
        <$> paths →
  w_files (Compress.main_work fp st z cfg w).1 !! q = w_files w !! q.
Proof.
  intros paths Hq. unfold Compress.main_work.
  destruct (_ && _); [done|].
  unfold pbind at 1. unfold run at 1. unfold os_MkdirAll, call.
  destruct (w_fault w _); [done|].
  unfold pbind at 1. unfold run at 1. unfold listFiles. simpl.
  subst paths.
  destruct (listFiles_on fp (w_lstat w (Compress.inputDir cfg))
              (Compress.inputDir cfg)) as [paths [e|]]; [done|].
  simpl in Hq. destruct (len paths =? 0); [done|].
  unfold pbind at 1.
  set (w2 := log (EvWalkDir (Compress.inputDir cfg))
               (log (EvMkdirAll (Compress.outDir cfg)) w)).
  match goal with
  | |- context [match ?m w2 with _ => _ end] =>
      assert (keeps_files m) as Hdict by keeps_all;
      specialize (Hdict w2);
      destruct (m w2) as [w3 [dictBytes|code]]
  end; simpl in Hdict |- *; [|by rewrite Hdict].
  unfold pbind, run.
  pose proof (writes_only_compressFiles fp z paths (Compress.inputDir cfg)
                (Compress.outDir cfg) (Compress.level cfg) dictBytes w3 q Hq)
    as Hw.
  destruct (Compress.compressFiles _ _ _ _ _ _ _ w3) as [w4 [stats [e|]]];
    simpl in *; by rewrite Hw, Hdict.
Qed.

Lemma decompress_work_writes cfg w q :
  let paths := (listFiles_on fp (w_lstat w (Decompress.inputDir cfg))
                  (Decompress.inputDir cfg)).1 in
  q ∉ decompressed_path fp (Decompress.inputDir cfg) (Decompress.outDir cfg)
        <$> paths →
  w_files (Decompress.main_work fp st z cfg w).1 !! q = w_files w !! q.
Proof.
  intros paths Hq. unfold Decompress.main_work.
  destruct (_ && _); [done|].
  unfold pbind at 1. unfold run at 1. unfold os_MkdirAll, call.
  destruct (w_fault w _); [done|].
  unfold pbind at 1. unfold run at 1. unfold listFiles. simpl.
  subst paths.
  destruct (listFiles_on fp (w_lstat w (Decompress.inputDir cfg))
              (Decompress.inputDir cfg)) as [paths [e|]]; [done|].
  simpl in Hq. destruct (len paths =? 0); [done|].
  unfold pbind at 1.
  set (w2 := log (EvWalkDir (Decompress.inputDir cfg))
               (log (EvMkdirAll (Decompress.outDir cfg)) w)).
  match goal with
  | |- context [match ?m w2 with _ => _ end] =>
      assert (keeps_files m) as Hdict by keeps_all;
      specialize (Hdict w2);
      destruct (m w2) as [w3 [dictBytes|code]]
  end; simpl in Hdict |- *; [|by rewrite Hdict].
  unfold pbind, run.
  pose proof (writes_only_decompressFiles fp z paths (Decompress.inputDir cfg)
                (Decompress.outDir cfg) dictBytes w3 q Hq) as Hw.
  destruct (Decompress.decompressFiles _ _ _ _ _ _ w3) as [w4 [stats [e|]]];
    simpl in *; by rewrite Hw, Hdict.
Qed.

End WritesMain.

(** X14.  A run of the compressor, however it ends, changes no file but the
    compressed copies of the files it listed: every other file, the inputs
    among them when no compressed copy takes the place of one, holds what
    it held before, and none is removed. *)
Theorem compressor_writes_only_compressed_copies fp st z
    (cfg : Compress.Config) w q :
  let paths := (listFiles_on fp (w_lstat w (Compress.inputDir cfg))
                  (Compress.inputDir cfg)).1 in
  q ∉ compressed_path fp (Compress.inputDir cfg) (Compress.outDir cfg)
        <$> paths →
  w_files (Compress.main fp st z cfg w).1 !! q = w_files w !! q.
Proof.
  intros paths Hq. unfold Compress.main, pbind.
  pose proof (compress_work_writes fp st z cfg w q Hq) as Hwork.
  destruct (Compress.main_work fp st z cfg w) as [w1 [stats|code]];
    simpl in Hwork; [|done].
  by rewrite keeps_compress_report.
Qed.

Lemma compressor_writes_only_compressed_copies_witness :
  let cfg := Compress.mkConfig "in" "out" 3 false "" "gateway" in
  let w := Sample.world [("in/a.json", "hello"); ("out/old.zst", "kept")] "in"
             (Directory [("a.json", Sample.file 5)] None) in
  let w' := (Compress.main Sample.paths Sample.strings Sample.zstd cfg w).1 in
  w_files w' !! "in/a.json" = Some (bytes_of "hello")
  ∧ w_files w' !! "out/old.zst" = Some (bytes_of "kept")
  ∧ w_files w' !! "out/a.json.zst" = Some (bytes_of "(0hello").
Proof.
  intros cfg w w'. split; [|split].
  - apply (compressor_writes_only_compressed_copies Sample.paths
             Sample.strings Sample.zstd cfg w "in/a.json").
    vm_compute. intros H. apply list_elem_of_In in H.
    destruct H as [H|[]]. discriminate H.
  - apply (compressor_writes_only_compressed_copies Sample.paths
             Sample.strings Sample.zstd cfg w "out/old.zst").
    vm_compute. intros H. apply list_elem_of_In in H.
    destruct H as [H|[]]. discriminate H.
  - vm_compute. reflexivity.
Defined.

(** X19.  A run of the decompressor, however it ends, changes no file but the
    plain copies of the files it listed. *)
Theorem decompressor_writes_only_plain_copies fp st z
    (cfg : Decompress.Config) w q :
  let paths := (listFiles_on fp (w_lstat w (Decompress.inputDir cfg))
                  (Decompress.inputDir cfg)).1 in
  q ∉ decompressed_path fp (Decompress.inputDir cfg) (Decompress.outDir cfg)
        <$> paths →
  w_files (Decompress.main fp st z cfg w).1 !! q = w_files w !! q.
Proof.
  intros paths Hq. unfold Decompress.main, pbind.
  pose proof (decompress_work_writes fp st z cfg w q Hq) as Hwork.
  destruct (Decompress.main_work fp st z cfg w) as [w1 [stats|code]];
    simpl in Hwork; [|done].
  by rewrite keeps_decompress_report.
Qed.

Lemma decompressor_writes_only_plain_copies_witness :
  let cfg := Decompress.mkConfig "out" "dec" false "" "run" "gateway" in
  let w := Sample.world [("out/a.json.zst", "(0hello"); ("dec/b", "kept")]
             "out" (Directory [("a.json.zst", Sample.file 7)] None) in
  let w' := (Decompress.main Sample.paths Sample.strings Sample.zstd cfg w).1 in
  w_files w' !! "out/a.json.zst" = Some (bytes_of "(0hello")
  ∧ w_files w' !! "dec/b" = Some (bytes_of "kept")
  ∧ w_files w' !! "dec/a.json" = Some (bytes_of "hello").
Proof.
  intros cfg w w'. split; [|split].
  - apply (decompressor_writes_only_plain_copies Sample.paths
             Sample.strings Sample.zstd cfg w "out/a.json.zst").
    vm_compute. intros H. apply list_elem_of_In in H.
    destruct H as [H|[]]. discriminate H.
  - apply (decompressor_writes_only_plain_copies Sample.paths
             Sample.strings Sample.zstd cfg w "dec/b").
    vm_compute. intros H. apply list_elem_of_In in H.
    destruct H as [H|[]]. discriminate H.
  - vm_compute. reflexivity.
Defined.

(** * The statistics of the compressor and of the decompressor *)

Section Counts.
Context (fp : Filepath) (z : Zstd).

(** A run that returned no error passed every call without a failure. *)
Ltac went_through H :=
  repeat match type of H with
         | context [w_fault ?w ?ev] =>
             destruct (w_fault w ev); simpl in H; [by inversion H|]
         end.

Lemma compressFiles_body_counts options baseDir outDir path stats w w' stats' :
  Compress.compressFiles_body fp z options baseDir outDir path stats w
  = (w', (stats', None)) →
  compressed_path fp baseDir outDir path ≠ path →
  ∃ body,
    w_files w !! path = Some body
    ∧ stats' = mkRunStats (FilesProcessed stats + 1)
                 (InputBytes stats + len body)
                 (OutputBytes stats + len (encode z options body)).
Proof.
  unfold compressed_path, Compress.compressFiles_body.
  destruct (Rel fp baseDir path) as [rel [e|]]; [by intros [=]|]. simpl.
  set (o := Compress.out_path fp outDir rel).
  unfold bind, os_MkdirAll, os_Open, os_Create, os_Close, os_Stat,
    Compress.copy_encode, read_all, write_all, call, ret, bind. simpl.
  intros H Hne.
  went_through H.
  destruct (w_files w !! path) as [body|] eqn:Hbody; [|by inversion H].
  went_through H. rewrite lookup_insert_eq in H.
  rewrite !lookup_insert_ne, Hbody in H by done. simpl in H.
  inversion H; subst; clear H. by exists body.
Qed.

Lemma decompressFiles_body_counts options baseDir outDir path stats w w' stats' :
  Decompress.decompressFiles_body fp z options baseDir outDir path stats w
  = (w', (stats', None)) →
  decompressed_path fp baseDir outDir path ≠ path →
  ∃ body plain,
    w_files w !! path = Some body
    ∧ decode z options body = inl plain
    ∧ stats' = mkRunStats (FilesProcessed stats + 1)
                 (InputBytes stats + len body)
                 (OutputBytes stats + len plain).
Proof.
  unfold decompressed_path, Decompress.decompressFiles_body.
  destruct (Rel fp baseDir path) as [rel [e|]]; [by intros [=]|]. simpl.
  set (o := Join fp outDir (Decompress.out_rel rel)).
  unfold bind, os_MkdirAll, os_Open, os_Create, os_Close, os_Stat,
    Decompress.copy_decode, read_all, write_all, call, ret, bind. simpl.
  intros H Hne.
  went_through H.
  destruct (w_files w !! path) as [body|] eqn:Hbody; [|by inversion H].
  went_through H. rewrite lookup_insert_ne in H by done.
  rewrite Hbody in H. simpl in H.
  destruct (decode z options body) as [plain|e] eqn:Hdec; [|by inversion H].
  simpl in H. went_through H.
  rewrite !lookup_insert_ne in H by done.
  rewrite Hbody in H. inversion H; subst; clear H. by exists body, plain.
Qed.

Lemma bodies_of_insert w w' o data paths :
  w_files w' = <[o := data]> (w_files w) → o ∉ paths →
  bodies_of w' paths = bodies_of w paths.
Proof.
  intros Hfiles Ho. unfold bodies_of. apply list_fmap_ext.
  intros i p Hp. rewrite Hfiles, lookup_insert_ne; [done|].
  intros ->. apply Ho. by eapply list_elem_of_lookup_2.
Qed.

Lemma compressFiles_loop_counts options baseDir outDir :
  ∀ paths stats w w' stats',
  Compress.compressFiles_loop fp z options baseDir outDir paths stats w
  = (w', (stats', None)) →
  (∀ o p, o ∈ compressed_path fp baseDir outDir <$> paths → p ∈ paths →
          o ≠ p) →
  Forall (λ p, is_Some (w_files w !! p)) paths
  ∧ FilesProcessed stats' = FilesProcessed stats + len paths
  ∧ InputBytes stats' = InputBytes stats + sum_len (bodies_of w paths)
  ∧ OutputBytes stats'
    = OutputBytes stats + sum_len (encode z options <$> bodies_of w paths).
Proof.
  induction paths as [|p1 rest IH]; intros stats w w' stats' Hrun Hdis.
  - simpl in Hrun. inversion Hrun; subst. unfold len. simpl.
    split; [constructor | lia].
  - simpl in Hrun. unfold bind in Hrun.
    destruct (Compress.compressFiles_body _ _ _ _ _ _ _ w)
      as [w1 [stats1 [e|]]] eqn:Hbody; [by inversion Hrun|].
    rewrite fmap_cons in Hdis.
    assert (compressed_path fp baseDir outDir p1 ≠ p1) as Hne
      by (apply Hdis; left).
    pose proof (compressFiles_body_success fp z _ _ _ _ _ _ _ _ Hbody Hne)
      as (body' & Hb' & Hfiles & _).
    apply compressFiles_body_counts in Hbody as (body & Hb & ->); [|done].
    destruct (IH _ w1 w' stats' Hrun) as (Hall & Hn & Hin & Hout).
    { intros o p Ho Hp. apply Hdis; by right. }
    assert (compressed_path fp baseDir outDir p1 ∉ rest) as Hfresh.
    { intros Hin'. by apply (Hdis _ _ ltac:(left) ltac:(by right)). }
    assert (body' = body) as -> by congruence.
    rewrite (bodies_of_insert w w1 _ _ rest) in Hin, Hout by done.
    assert (bodies_of w (p1 :: rest) = body :: bodies_of w rest) as Hcons.
    { unfold bodies_of. simpl. by rewrite Hb. }
    rewrite Hcons, fmap_cons.
    change (sum_len (body :: bodies_of w rest))
      with (len body + sum_len (bodies_of w rest)).
    change (sum_len (encode z options body
                       :: (encode z options <$> bodies_of w rest)))
      with (len (encode z options body)
            + sum_len (encode z options <$> bodies_of w rest)).
    simpl in Hn, Hin, Hout. split; [|split; [|split]].
    + constructor; [by rewrite Hb|].
      eapply Forall_impl; [apply Forall_and; split; [apply Hall|]|].
      { apply Forall_forall. intros p Hp. exact Hp. }
      intros p [Hsome Hp]. simpl in *.
      rewrite Hfiles, lookup_insert_ne in Hsome; [done|]. by intros <-.
    + rewrite Hn. unfold len. simpl length. lia.
    + lia.
    + lia.
Qed.

Lemma decompressFiles_loop_counts options baseDir outDir :
  ∀ paths stats w w' stats',
  Decompress.decompressFiles_loop fp z options baseDir outDir paths stats w
  = (w', (stats', None)) →
  (∀ o p, o ∈ decompressed_path fp baseDir outDir <$> paths → p ∈ paths →
          o ≠ p) →
  ∃ plains,
    Forall2 (λ body plain, decode z options body = inl plain)
      (bodies_of w paths) plains
    ∧ Forall (λ p, is_Some (w_files w !! p)) paths
    ∧ FilesProcessed stats' = FilesProcessed stats + len paths
    ∧ InputBytes stats' = InputBytes stats + sum_len (bodies_of w paths)
    ∧ OutputBytes stats' = OutputBytes stats + sum_len plains.
Proof.
  induction paths as [|p1 rest IH]; intros stats w w' stats' Hrun Hdis.
  - simpl in Hrun. inversion Hrun; subst. exists []. unfold len. simpl.
    split; [constructor|]. split; [constructor | lia].
  - simpl in Hrun. unfold bind in Hrun.
    destruct (Decompress.decompressFiles_body _ _ _ _ _ _ _ w)
      as [w1 [stats1 [e|]]] eqn:Hbody; [by inversion Hrun|].
    rewrite fmap_cons in Hdis.
    assert (decompressed_path fp baseDir outDir p1 ≠ p1) as Hne
      by (apply Hdis; left).
    pose proof (decompressFiles_body_success fp z _ _ _ _ _ _ _ _ Hbody Hne)
      as (body' & plain' & Hb' & Hd' & Hfiles & _).
    apply decompressFiles_body_counts in Hbody
      as (body & plain & Hb & Hdec & ->); [|done].
    destruct (IH _ w1 w' stats' Hrun)
      as (plains & Hplains & Hall & Hn & Hin & Hout).
    { intros o p Ho Hp. apply Hdis; by right. }
    assert (decompressed_path fp baseDir outDir p1 ∉ rest) as Hfresh.
    { intros Hin'. by apply (Hdis _ _ ltac:(left) ltac:(by right)). }
    assert (body' = body) as -> by congruence.
    assert (plain' = plain) as -> by congruence.
    rewrite (bodies_of_insert w w1 _ _ rest) in Hplains, Hin by done.
    assert (bodies_of w (p1 :: rest) = body :: bodies_of w rest) as Hcons.
    { unfold bodies_of. simpl. by rewrite Hb. }
    rewrite Hcons. exists (plain :: plains).
    change (sum_len (body :: bodies_of w rest))
      with (len body + sum_len (bodies_of w rest)).
    change (sum_len (plain :: plains)) with (len plain + sum_len plains).
    simpl in Hn, Hin, Hout. split; [|split; [|split; [|split]]].
    + by constructor.
    + constructor; [by rewrite Hb|].
      eapply Forall_impl; [apply Forall_and; split; [apply Hall|]|].
      { apply Forall_forall. intros p Hp. exact Hp. }
      intros p [Hsome Hp]. simpl in *.
      rewrite Hfiles, lookup_insert_ne in Hsome; [done|]. by intros <-.
    + rewrite Hn. unfold len. simpl length. lia.
    + lia.
    + lia.
Qed.

End Counts.

(** X11.  The statistics of a successful [compressFiles], when no compressed
    copy takes the place of a file to be read: every path was a file, the
    files counted are the paths given, the input bytes are the bytes of
    those files, and the output bytes are the bytes of their frames. *)
Theorem compressFiles_stats_exact fp z paths baseDir outDir level dictBytes
    w w' stats :
  Compress.compressFiles fp z paths baseDir outDir level dictBytes w
  = (w', (stats, None)) →
  (∀ o p, o ∈ compressed_path fp baseDir outDir <$> paths → p ∈ paths →
          o ≠ p) →
  Forall (λ p, is_Some (w_files w !! p)) paths
  ∧ FilesProcessed stats = len paths
  ∧ InputBytes stats = sum_len (bodies_of w paths)
  ∧ OutputBytes stats
    = sum_len (encode z (Compress.encoder_options z level dictBytes)
               <$> bodies_of w paths).
Proof.
  unfold Compress.compressFiles. intros Hrun Hdis.
  destruct (NewWriter z _); [by inversion Hrun|].
  apply compressFiles_loop_counts in Hrun as (Hall & Hn & Hin & Hout);
    [|done].
  simpl in *. split; [done|]. split; [lia|]. split; lia.
Qed.

Lemma compressFiles_stats_exact_witness :
  let paths := ["in/a.json"; "in/sub/c.json"] in
  let w := Sample.world [("in/a.json", "  hello world  ");
                         ("in/sub/c.json", "abc")] "in"
             (Directory [("a.json", Sample.file 15);
                   ("sub", Directory [("c.json", Sample.file 3)] None)] None) in
  let r := Compress.compressFiles Sample.paths Sample.zstd paths "in" "out" 3
             [] w in
  r.2 = (mkRunStats 2 18 22, None)
  ∧ 18 = sum_len (bodies_of w paths)
  ∧ 22 = sum_len (encode Sample.zstd
                    (Compress.encoder_options Sample.zstd 3 [])
                  <$> bodies_of w paths).
Proof.
  intros paths w r.
  assert (r = (r.1, (mkRunStats 2 18 22, None))) as Hr
    by (vm_compute; reflexivity).
  destruct (compressFiles_stats_exact Sample.paths Sample.zstd paths "in"
              "out" 3 [] w r.1 (mkRunStats 2 18 22) Hr)
    as (_ & _ & Hin & Hout).
  - intros o p Ho Hp.
    apply list_elem_of_In in Ho, Hp. vm_compute in Ho, Hp.
    intuition (subst; discriminate).
  - split; [by rewrite Hr|]. split; [exact Hin | exact Hout].
Defined.

(** X16.  The statistics of a successful [decompressFiles], when no plain copy
    takes the place of a file to be read: the files counted are the paths
    given, the input bytes are the bytes of those files, and the output
    bytes are the bytes the decoder read out of them. *)
Theorem decompressFiles_stats_exact fp z paths baseDir outDir dictBytes
    w w' stats :
  Decompress.decompressFiles fp z paths baseDir outDir dictBytes w
  = (w', (stats, None)) →
  (∀ o p, o ∈ decompressed_path fp baseDir outDir <$> paths → p ∈ paths →
          o ≠ p) →
  ∃ plains,
    Forall2 (λ body plain,
               decode z (Decompress.decoder_options dictBytes) body
               = inl plain)
      (bodies_of w paths) plains
    ∧ Forall (λ p, is_Some (w_files w !! p)) paths
    ∧ FilesProcessed stats = len paths
    ∧ InputBytes stats = sum_len (bodies_of w paths)
    ∧ OutputBytes stats = sum_len plains.
Proof.
  unfold Decompress.decompressFiles. intros Hrun Hdis.
  destruct (NewReader z _); [by inversion Hrun|].
  apply decompressFiles_loop_counts in Hrun
    as (plains & Hplains & Hall & Hn & Hin & Hout); [|done].
  exists plains. simpl in *. split; [done|]. split; [done|].
  split; [lia|]. split; lia.
Qed.

Lemma decompressFiles_stats_exact_witness :
  let paths := ["out/a.json.zst"; "out/b"] in
  let w := Sample.world [("out/a.json.zst", "(0hello"); ("out/b", "(0x")]
             "out"
             (Directory [("a.json.zst", Sample.file 7); ("b", Sample.file 3)]
                None) in
  let r := Decompress.decompressFiles Sample.paths Sample.zstd paths "out"
             "dec" [] w in
  r.2 = (mkRunStats 2 10 6, None)
  ∧ 10 = sum_len (bodies_of w paths)
  ∧ w_files r.1 !! "dec/b.out" = Some (bytes_of "x").
Proof.
  intros paths w r.
  assert (r = (r.1, (mkRunStats 2 10 6, None))) as Hr
    by (vm_compute; reflexivity).
  destruct (decompressFiles_stats_exact Sample.paths Sample.zstd paths "out"
              "dec" [] w r.1 (mkRunStats 2 10 6) Hr)
    as (plains & _ & _ & _ & Hin & _).
  - intros o p Ho Hp.
    apply list_elem_of_In in Ho, Hp. vm_compute in Ho, Hp.
    intuition (subst; discriminate).
  - split; [by rewrite Hr|]. split; [exact Hin|]. vm_compute. reflexivity.
Defined.

(** * Every file that is opened is closed *)

(** Count the closes of a path in a trace that is written out, and decide
    what is in it. *)
Ltac count_closes :=
  unfold closes;
  repeat (first [rewrite filter_nil
                | rewrite filter_cons; destruct (decide _) as [?|?]]);
  try discriminate; try congruence; simpl; try lia.

Ltac in_trace :=
  rewrite ?elem_of_cons, ?elem_of_nil; unfold is_Some;
  intuition (repeat match goal with H : ex _ |- _ => destruct H end;
             try discriminate; try congruence; eauto).

Ltac trace_facts :=
  cbn [app]; split; [in_trace|]; split; [in_trace|]; split; count_closes.

Ltac closes_case :=
  eexists; split; [rewrite <- ?app_assoc; reflexivity | trace_facts].

Ltac step_fault w ev H :=
  destruct (w_fault w ev) eqn:H;
  cbn [fst snd w_trace w_fault w_files log set_file].

(** X12.  A turn of the loop of [compressFiles] closes every file it opened, on
    every way out, the failing ones among them: the input file is closed if
    and only if it was opened, the output file if and only if it was
    created, and neither is closed twice. *)
Theorem compressFiles_closes_its_files fp z options baseDir outDir path
    stats w :
  let outPath := compressed_path fp baseDir outDir path in
  outPath ≠ path →
  ∃ evs,
    w_trace (Compress.compressFiles_body fp z options baseDir outDir path
               stats w).1 = w_trace w ++ evs
    ∧ (EvClose path ∈ evs
       ↔ EvOpen path ∈ evs ∧ w_fault w (EvOpen path) = None
         ∧ is_Some (w_files w !! path))
    ∧ (EvClose outPath ∈ evs
       ↔ EvCreate outPath ∈ evs ∧ w_fault w (EvCreate outPath) = None)
    ∧ (closes path evs ≤ 1)%nat ∧ (closes outPath evs ≤ 1)%nat.
Proof.
  intros outPath Hne. subst outPath.
  unfold compressed_path in *. unfold Compress.compressFiles_body.
  destruct (Rel fp baseDir path) as [rel [e|]];
    cbn [fst snd] in *.
  { exists []. rewrite app_nil_r. split; [done|].
    trace_facts. }
  set (o := Compress.out_path fp outDir rel) in *.
  unfold bind, os_MkdirAll, os_Open, os_Create, os_Close, os_Stat,
    Compress.copy_encode, read_all, write_all, call, ret, bind.
  cbn [fst snd w_trace w_fault w_files log set_file].
  step_fault w (EvMkdirAll (Dir fp o)) Hmk.
  { eexists. split; [reflexivity|].
    trace_facts. }
  step_fault w (EvOpen path) Hop.
  { eexists. split; [rewrite <- !app_assoc; reflexivity|].
    trace_facts. }
  destruct (w_files w !! path) as [body|] eqn:Hbody;
    cbn [fst snd w_trace w_fault w_files log set_file].
  2:{ eexists. split; [rewrite <- !app_assoc; reflexivity|].
      trace_facts. }
  step_fault w (EvCreate o) Hcr; [closes_case|].
  step_fault w (EvRead path 0) Hrd; [closes_case|].
  step_fault w (EvWrite o) Hwr; [closes_case|].
  step_fault w (EvClose o) Hco; [closes_case|].
  step_fault w (EvClose path) Hci; [closes_case|].
  step_fault w (EvStat o) Hst; [closes_case|].
  destruct (_ !! o); cbn [fst snd w_trace log set_file]; closes_case.
Qed.

Lemma compressFiles_closes_its_files_witness :
  let w := Sample.world [("in/a.json", "hello")] "in"
             (Directory [("a.json", Sample.file 5)] None) in
  let w' := mkWorld (w_files w) (w_lstat w)
              (λ ev, if bool_decide (ev = EvWrite "out/a.json.zst")
                     then Some (Errorf "no space left on device") else None)
              (w_clock w) (w_ticks w) (w_stdin w) (w_ahead w) (w_trace w) in
  ∃ evs,
    w_trace (Compress.compressFiles_body Sample.paths Sample.zstd [] "in"
               "out" "in/a.json" (mkRunStats 0 0 0) w').1 = w_trace w' ++ evs
    ∧ EvClose "in/a.json" ∈ evs ∧ EvClose "out/a.json.zst" ∈ evs.
Proof.
  intros w w'.
  destruct (compressFiles_closes_its_files Sample.paths Sample.zstd [] "in"
              "out" "in/a.json" (mkRunStats 0 0 0) w')
    as (evs & Ht & Hin & Hout & _); [vm_compute; discriminate|].
  exists evs. split; [exact Ht|].
  assert (evs = [EvMkdirAll "out"; EvOpen "in/a.json";
                 EvCreate "out/a.json.zst"; EvRead "in/a.json" 0;
                 EvWrite "out/a.json.zst"; EvClose "out/a.json.zst";
                 EvClose "in/a.json"]) as Hevs.
  { vm_compute in Ht. exact (eq_sym Ht). }
  split.
  - apply Hin. rewrite Hevs. split; [|split].
    + apply list_elem_of_In. vm_compute. tauto.
    + reflexivity.
    + eexists. reflexivity.
  - apply Hout. rewrite Hevs. split.
    + apply list_elem_of_In. vm_compute. tauto.
    + reflexivity.
Defined.

(** X17.  A turn of the loop of [decompressFiles] closes every file it opened,
    on every way out, a frame that cannot be decoded among them: the input
    file is closed if and only if it was opened, the output file if and
    only if it was created, and neither is closed twice. *)
Theorem decompressFiles_closes_its_files fp z options baseDir outDir path
    stats w :
  let outPath := decompressed_path fp baseDir outDir path in
  outPath ≠ path →
  ∃ evs,
    w_trace (Decompress.decompressFiles_body fp z options baseDir outDir path
               stats w).1 = w_trace w ++ evs
    ∧ (EvClose path ∈ evs
       ↔ EvOpen path ∈ evs ∧ w_fault w (EvOpen path) = None
         ∧ is_Some (w_files w !! path))
    ∧ (EvClose outPath ∈ evs
       ↔ EvCreate outPath ∈ evs ∧ w_fault w (EvCreate outPath) = None)
    ∧ (closes path evs ≤ 1)%nat ∧ (closes outPath evs ≤ 1)%nat.
Proof.
  intros outPath Hne. subst outPath.
  unfold decompressed_path in *. unfold Decompress.decompressFiles_body.
  destruct (Rel fp baseDir path) as [rel [e|]];
    cbn [fst snd] in *.
  { exists []. rewrite app_nil_r. split; [done|]. trace_facts. }
  set (o := Join fp outDir (Decompress.out_rel rel)) in *.
  unfold bind, os_MkdirAll, os_Open, os_Create, os_Close, os_Stat,
    Decompress.copy_decode, read_all, write_all, call, ret, bind.
  cbn [fst snd w_trace w_fault w_files log set_file].
  step_fault w (EvMkdirAll (Dir fp o)) Hmk; [closes_case|].
  step_fault w (EvOpen path) Hop; [closes_case|].
  destruct (w_files w !! path) as [body|] eqn:Hbody;
    cbn [fst snd w_trace w_fault w_files log set_file]; [|closes_case].
  step_fault w (EvCreate o) Hcr; [closes_case|].
  step_fault w (EvRead path 0) Hrd; [closes_case|].
  destruct (decode z options _) as [plain|e];
    cbn [fst snd w_trace w_fault w_files log set_file]; [|closes_case].
  step_fault w (EvWrite o) Hwr; [closes_case|].
  step_fault w (EvClose o) Hco; [closes_case|].
  step_fault w (EvClose path) Hci; [closes_case|].
  step_fault w (EvStat path) Hst; [closes_case|].
  match goal with
  | |- context [match ?m !! path with _ => _ end] => destruct (m !! path)
  end; cbn [fst snd w_trace log set_file]; closes_case.
Qed.

Lemma decompressFiles_closes_its_files_witness :
  let w := Sample.world [("out/a.json.zst", "corrupt")] "out"
             (Directory [("a.json.zst", Sample.file 7)] None) in
  ∃ evs,
    w_trace (Decompress.decompressFiles_body Sample.paths Sample.zstd [] "out"
               "dec" "out/a.json.zst" (mkRunStats 0 0 0) w).1 = w_trace w ++ evs
    ∧ EvClose "out/a.json.zst" ∈ evs ∧ EvClose "dec/a.json" ∈ evs.
Proof.
  intros w.
  destruct (decompressFiles_closes_its_files Sample.paths Sample.zstd [] "out"
              "dec" "out/a.json.zst" (mkRunStats 0 0 0) w)
    as (evs & Ht & Hin & Hout & _); [vm_compute; discriminate|].
  exists evs. split; [exact Ht|].
  assert (evs = [EvMkdirAll "dec"; EvOpen "out/a.json.zst";
                 EvCreate "dec/a.json"; EvRead "out/a.json.zst" 0;
                 EvClose "dec/a.json"; EvClose "out/a.json.zst"]) as Hevs.
  { vm_compute in Ht. exact (eq_sym Ht). }
  split.
  - apply Hin. rewrite Hevs. split; [|split].
    + apply list_elem_of_In. vm_compute. tauto.
    + reflexivity.
    + eexists. reflexivity.
  - apply Hout. rewrite Hevs. split.
    + apply list_elem_of_In. vm_compute. tauto.
    + reflexivity.
Defined.

(** * The decompressor's output names *)

Lemma append_inj_l a b c : a +:+ c = b +:+ c → a = b.
Proof.
  intros H.
  assert (String.length a = String.length b) as Hlen.
  { apply (f_equal String.length) in H. rewrite !length_append in H. lia. }
  rewrite <- (substring_0_app a c), H, Hlen. apply substring_0_app.
Qed.

(** X20.  The output name is never the input name: it is four bytes shorter or
    four bytes longer.  So a file is never decompressed onto itself, also
    when the output directory is the input directory. *)
Theorem out_rel_never_the_input rel :
  Decompress.out_rel rel ≠ rel
  ∧ (if HasSuffix rel ".zst"
     then String.length rel = (String.length (Decompress.out_rel rel) + 4)%nat
     else String.length (Decompress.out_rel rel) = (String.length rel + 4)%nat).
Proof.
  destruct (out_rel_cases rel) as [(Hs & _ & H)|[Hs H]]; rewrite Hs.
  - assert (String.length rel = (String.length (Decompress.out_rel rel) + 4)%nat)
      as Hlen by (rewrite <- H at 1; by rewrite length_append).
    split; [|done]. intros Heq. rewrite Heq in Hlen. lia.
  - assert (String.length (Decompress.out_rel rel) = (String.length rel + 4)%nat)
      as Hlen by (by rewrite H, length_append).
    split; [|done]. intros Heq. rewrite Heq in Hlen. lia.
Qed.

(** X21.  Two input names are given the same output name in one case only: one
    of them has no [".zst"] suffix, and the other is the first followed by
    [".out.zst"].  A directory that holds both [a] and [a.out.zst] has both
    decompressed into [a.out], the second over the first. *)
Theorem out_rel_collisions r1 r2 :
  Decompress.out_rel r1 = Decompress.out_rel r2
  ↔ r1 = r2
    ∨ (HasSuffix r2 ".zst" = false ∧ r1 = (r2 +:+ ".out") +:+ ".zst")
    ∨ (HasSuffix r1 ".zst" = false ∧ r2 = (r1 +:+ ".out") +:+ ".zst").
Proof.
  split.
  - intros Heq.
    destruct (out_rel_cases r1) as [(Hs1 & _ & H1)|[Hs1 H1]];
      destruct (out_rel_cases r2) as [(Hs2 & _ & H2)|[Hs2 H2]].
    + left. by rewrite <- H1, <- H2, Heq.
    + right. left. split; [done|]. by rewrite <- H1, Heq, H2.
    + right. right. split; [done|]. by rewrite <- H2, <- Heq, H1.
    + left. rewrite H1, H2 in Heq. by apply append_inj_l in Heq.
  - intros [->|[[Hs ->]|[Hs ->]]]; [done| |].
    + rewrite out_rel_app.
      destruct (out_rel_cases r2) as [(Hs2 & _)|[_ H2]]; congruence.
    + rewrite out_rel_app.
      destruct (out_rel_cases r1) as [(Hs1 & _)|[_ H1]]; congruence.
Qed.

(** * The prompts of the generator *)

Section Prompts.
Import GenerateData.
Context (st : Strings).

(** A run that ended in [fatal]. *)
Ltac by_fatal := simpl; split; [done|]; eexists; apply last_snoc.

Lemma promptInt_loop_answer message : ∀ fuel w,
  (length (w_stdin w) < fuel)%nat →
  match (promptInt_loop st fuel message w).2 with
  | Continue v =>
      0 < v ∧ ∃ line, line ∈ w_stdin w
                      ∧ Atoi st (TrimSpace st line) = (v, None)
  | Exit code =>
      code = 1
      ∧ ∃ text, last (w_trace (promptInt_loop st fuel message w).1)
                = Some (EvStderr text)
  end.
Proof.
  induction fuel as [|fuel IH]; intros w Hfuel; [lia|].
  simpl. unfold pbind, run, Print_stdout, stdin_ReadString, bind, call, ret.
  simpl. destruct (w_fault w EvStdin); [by_fatal|]. simpl.
  destruct (w_stdin w) as [|line rest] eqn:Hin; [by_fatal|]. simpl.
  destruct (Atoi st (TrimSpace st line)) as [value err] eqn:Ea.
  destruct (bool_decide (err ≠ None) || (value <=? 0)) eqn:Ebad.
  - simpl.
    match goal with
    | |- context [promptInt_loop st fuel message ?w1] =>
        specialize (IH w1); simpl in IH;
        destruct (promptInt_loop st fuel message w1) as [w2 [v|code]]
    end; simpl in *.
    + destruct IH as (Hpos & l & Hl & Hv); [lia|].
      split; [done|]. exists l. split; [by right | done].
    + apply IH. lia.
  - simpl. apply orb_false_iff in Ebad as [Herr Hpos].
    apply bool_decide_eq_false in Herr. apply Z.leb_gt in Hpos.
    split; [done|]. exists line. split; [left|].
    destruct err; [by destruct Herr | done].
Qed.

Lemma promptString_loop_answer message : ∀ fuel w,
  (length (w_stdin w) < fuel)%nat →
  match (promptString_loop st fuel message w).2 with
  | Continue text =>
      text ≠ "" ∧ ∃ line, line ∈ w_stdin w ∧ text = TrimSpace st line
  | Exit code =>
      code = 1
      ∧ ∃ text, last (w_trace (promptString_loop st fuel message w).1)
                = Some (EvStderr text)
  end.
Proof.
  induction fuel as [|fuel IH]; intros w Hfuel; [lia|].
  simpl. unfold pbind, run, Print_stdout, stdin_ReadString, bind, call, ret.
  simpl. destruct (w_fault w EvStdin); [by_fatal|]. simpl.
  destruct (w_stdin w) as [|line rest] eqn:Hin; [by_fatal|]. simpl.
  destruct (String.eqb_spec (TrimSpace st line) "") as [Heq|Hne]; simpl.
  - match goal with
    | |- context [promptString_loop st fuel message ?w1] =>
        specialize (IH w1); simpl in IH;
        destruct (promptString_loop st fuel message w1) as [w2 [v|code]]
    end; simpl in *.
    + destruct IH as (Hpos & l & Hl & Hv); [lia|].
      split; [done|]. exists l. split; [by right | done].
    + apply IH. lia.
  - split; [done|]. exists line. split; [left | done].
Qed.

(** A prompt gives the answer of its loop, and does what its loop does:
    dropping the reader shows neither in the result nor in the trace. *)
Lemma promptInt_of_loop message w :
  (promptInt st message w).2
  = (promptInt_loop st (S (length (w_stdin w))) message w).2
  ∧ w_trace (promptInt st message w).1
    = w_trace (promptInt_loop st (S (length (w_stdin w))) message w).1.
Proof.
  unfold promptInt, pbind, run, ret, reader_dropped.
  by destruct (promptInt_loop _ _ _ w) as [w1 [v|code]].
Qed.

Lemma promptString_of_loop message w :
  (promptString st message w).2
  = (promptString_loop st (S (length (w_stdin w))) message w).2
  ∧ w_trace (promptString st message w).1
    = w_trace (promptString_loop st (S (length (w_stdin w))) message w).1.
Proof.
  unfold promptString, pbind, run, ret, reader_dropped.
  by destruct (promptString_loop _ _ _ w) as [w1 [v|code]].
Qed.

End Prompts.

(** X23.  [promptInt] returns a positive number only, and one that
    [strconv.Atoi] read from a line of the input, trimmed; otherwise it
    reports the failed read on standard error and ends the run with exit
    code 1.  On an input of finitely many lines it comes to an end: every
    turn reads a line, and when there is none left the read fails. *)
Theorem promptInt_returns_positive st message w :
  match (GenerateData.promptInt st message w).2 with
  | Continue v =>
      0 < v ∧ ∃ line, line ∈ w_stdin w
                      ∧ Atoi st (TrimSpace st line) = (v, None)
  | Exit code =>
      code = 1
      ∧ ∃ text, last (w_trace (GenerateData.promptInt st message w).1)
                = Some (EvStderr text)
  end.
Proof.
  destruct (promptInt_of_loop st message w) as [-> ->].
  apply promptInt_loop_answer. lia.
Qed.

(** X25.  [promptString] returns a line of the input, trimmed, that is not
    empty; otherwise it reports the failed read on standard error and ends
    the run with exit code 1. *)
Theorem promptString_returns_nonempty st message w :
  match (GenerateData.promptString st message w).2 with
  | Continue text =>
      text ≠ "" ∧ ∃ line, line ∈ w_stdin w ∧ text = TrimSpace st line
  | Exit code =>
      code = 1
      ∧ ∃ text, last (w_trace (GenerateData.promptString st message w).1)
                = Some (EvStderr text)
  end.
Proof.
  destruct (promptString_of_loop st message w) as [-> ->].
  apply promptString_loop_answer. lia.
Qed.

Section PromptAnswers.
Import GenerateData.
Context (st : Strings).

Lemma promptInt_loop_first_positive message line rest : ∀ bad fuel w,
  w_fault w EvStdin = None →
  w_stdin w = bad ++ line :: rest →
  (length (w_stdin w) < fuel)%nat →
  Forall (λ l, positive_number st l = false) bad →
  positive_number st line = true →
  (promptInt_loop st fuel message w).2
  = Continue (Atoi st (TrimSpace st line)).1
  ∧ w_trace (promptInt_loop st fuel message w).1
    = w_trace w
      ++ asked_again message
           [EvStdout ("please enter a positive number" +:+ nl)] bad
      ++ [EvStdout message; EvStdin].
Proof.
  induction bad as [|b bad IH]; intros fuel w Hf Hin Hfuel Hbad Hok;
    (destruct fuel as [|fuel]; [lia|]);
    simpl; unfold pbind, run, Print_stdout, stdin_ReadString, bind, call, ret;
    simpl; rewrite Hf; simpl; rewrite Hin; simpl.
  - unfold positive_number in Hok.
    destruct (Atoi st (TrimSpace st line)) as [value err].
    apply andb_true_iff in Hok as [Herr Hpos].
    apply bool_decide_eq_true in Herr. apply Z.ltb_lt in Hpos. subst err.
    replace (value <=? 0) with false by (symmetry; apply Z.leb_gt; lia).
    simpl. by rewrite <- app_assoc.
  - apply Forall_cons in Hbad as [Hb Hbad]. unfold positive_number in Hb.
    destruct (Atoi st (TrimSpace st b)) as [value err].
    replace (bool_decide (err ≠ None) || (value <=? 0)) with true.
    2:{ symmetry. apply andb_false_iff in Hb as [Hb|Hb].
        - apply bool_decide_eq_false in Hb.
          by rewrite bool_decide_eq_true_2.
        - apply Z.ltb_ge in Hb. apply orb_true_iff. right.
          by apply Z.leb_le. }
    simpl.
    match goal with
    | |- context [promptInt_loop st fuel message ?w1] =>
        destruct (IH fuel w1) as [Hr Ht]; try done
    end.
    { simpl. rewrite Hin in Hfuel. simpl in Hfuel. lia. }
    rewrite Hr, Ht. split; [done|]. simpl.
    rewrite <- !app_assoc. done.
Qed.

Lemma promptString_loop_first_nonempty message line rest : ∀ bad fuel w,
  w_fault w EvStdin = None →
  w_stdin w = bad ++ line :: rest →
  (length (w_stdin w) < fuel)%nat →
  Forall (λ l, TrimSpace st l = "") bad →
  TrimSpace st line ≠ "" →
  (promptString_loop st fuel message w).2 = Continue (TrimSpace st line)
  ∧ w_trace (promptString_loop st fuel message w).1
    = w_trace w ++ asked_again message [] bad ++ [EvStdout message; EvStdin].
Proof.
  induction bad as [|b bad IH]; intros fuel w Hf Hin Hfuel Hbad Hok;
    (destruct fuel as [|fuel]; [lia|]);
    simpl; unfold pbind, run, Print_stdout, stdin_ReadString, bind, call, ret;
    simpl; rewrite Hf; simpl; rewrite Hin; simpl.
  - apply String.eqb_neq in Hok. rewrite Hok. simpl.
    by rewrite <- app_assoc.
  - apply Forall_cons in Hbad as [Hb Hbad]. rewrite Hb. simpl.
    match goal with
    | |- context [promptString_loop st fuel message ?w1] =>
        destruct (IH fuel w1) as [Hr Ht]; try done
    end.
    { simpl. rewrite Hin in Hfuel. simpl in Hfuel. lia. }
    rewrite Hr, Ht. split; [done|]. simpl.
    rewrite <- !app_assoc. done.
Qed.

End PromptAnswers.

(** X24.  When standard input can be read, [promptInt] returns the first answer
    that is a positive number.  For every answer before it, it has shown
    the message, read the line and asked for a positive number; for the
    answer it takes it shows the message and reads the line. *)
Theorem promptInt_takes_first_positive st message w bad line rest :
  w_fault w EvStdin = None →
  w_stdin w = bad ++ line :: rest →
  Forall (λ l, positive_number st l = false) bad →
  positive_number st line = true →
  (GenerateData.promptInt st message w).2
  = Continue (Atoi st (TrimSpace st line)).1
  ∧ w_trace (GenerateData.promptInt st message w).1
    = w_trace w
      ++ asked_again message
           [EvStdout ("please enter a positive number" +:+ nl)] bad
      ++ [EvStdout message; EvStdin].
Proof.
  intros Hf Hin Hbad Hok.
  destruct (promptInt_of_loop st message w) as [-> ->].
  eapply promptInt_loop_first_positive; try done. lia.
Qed.

Lemma promptInt_takes_first_positive_witness :
  let w := mkWorld ∅ (λ _, inr EOF) (λ _, None) Sample.clock O
             ["many"; "-3"; " 12 "; "7"] id [] in
  (GenerateData.promptInt Sample.strings "How many? " w).2 = Continue 12
  ∧ w_trace (GenerateData.promptInt Sample.strings "How many? " w).1
    = [EvStdout "How many? "; EvStdin;
       EvStdout ("please enter a positive number" +:+ nl);
       EvStdout "How many? "; EvStdin;
       EvStdout ("please enter a positive number" +:+ nl);
       EvStdout "How many? "; EvStdin].
Proof.
  intros w.
  apply (promptInt_takes_first_positive Sample.strings "How many? " w
           ["many"; "-3"] " 12 " ["7"]).
  - reflexivity.
  - reflexivity.
  - repeat constructor.
  - reflexivity.
Defined.

(** X26.  When standard input can be read, [promptString] returns the first
    answer that is not blank, trimmed; for every blank answer before it, it
    has shown the message again. *)
Theorem promptString_takes_first_nonempty st message w bad line rest :
  w_fault w EvStdin = None →
  w_stdin w = bad ++ line :: rest →
  Forall (λ l, TrimSpace st l = "") bad →
  TrimSpace st line ≠ "" →
  (GenerateData.promptString st message w).2 = Continue (TrimSpace st line)
  ∧ w_trace (GenerateData.promptString st message w).1
    = w_trace w ++ asked_again message [] bad ++ [EvStdout message; EvStdin].
Proof.
  intros Hf Hin Hbad Hok.
  destruct (promptString_of_loop st message w) as [-> ->].
  eapply promptString_loop_first_nonempty; try done. lia.
Qed.

Lemma promptString_takes_first_nonempty_witness :
  let w := mkWorld ∅ (λ _, inr EOF) (λ _, None) Sample.clock O
             ["  "; ""; " books "; "movies"] id [] in
  (GenerateData.promptString Sample.strings "Select type: " w).2
  = Continue "books"
  ∧ w_trace (GenerateData.promptString Sample.strings "Select type: " w).1
    = [EvStdout "Select type: "; EvStdin; EvStdout "Select type: "; EvStdin;
       EvStdout "Select type: "; EvStdin].
Proof.
  intros w.
  apply (promptString_takes_first_nonempty Sample.strings "Select type: " w
           ["  "; ""] " books " ["movies"]).
  - reflexivity.
  - reflexivity.
  - repeat constructor.
  - vm_compute. discriminate.
Defined.

(** * The fields of a generated record *)

Section Fields.
Import GenerateData.
Context (st : Strings) (R : Rand).
Hypothesis HIntn : Intn_in_range R.

(** [pick] returns one of the items. *)
Lemma pick_in rng items : items ≠ [] → (pick R rng items).1 ∈ items.
Proof.
  intros Hne. unfold pick.
  assert (0 < len items) as Hpos.
  { unfold len. destruct items; [done | simpl; lia]. }
  pose proof (HIntn (len items) rng Hpos) as Hi.
  destruct (Intn R (len items) rng) as [i rng']. simpl in *.
  apply list_elem_of_In, nth_In. unfold len in Hi. lia.
Qed.

Lemma pick_split rng items :
  pick R rng items = ((pick R rng items).1, (pick R rng items).2).
Proof. by destruct (pick R rng items). Qed.

End Fields.

(** The fields of a movie. *)
Lemma makeMovie_fields R rng id w :
  Intn_in_range R →
  let m := (GenerateData.makeMovie R rng id w).2.1 in
  Movie.ID m = id
  ∧ Movie.Title _ m ∈ GenerateData.movieTitles
  ∧ Movie.Genre _ m ∈ GenerateData.movieGenres
  ∧ Movie.Director _ m ∈ GenerateData.directors
  ∧ 1980 ≤ Movie.Year _ m ≤ 2024
  ∧ 80 ≤ Movie.Runtime _ m ≤ 160
  ∧ (∃ f, Movie.Rating _ m
          = fadd R (fconst R "5.5")
              (fmul R f (fsub R (fconst R "9.8") (fconst R "5.5"))))
  ∧ Movie.CreatedAt _ m = w_clock w (w_ticks w) GenerateData.RFC3339.
Proof.
  intros HR m. subst m. unfold GenerateData.makeMovie.
  rewrite (pick_split R rng GenerateData.movieTitles).
  set (r1 := (GenerateData.pick R rng _).2).
  rewrite (pick_split R r1 GenerateData.movieGenres).
  set (r2 := (GenerateData.pick R r1 _).2).
  pose proof (HR 45 r2 ltac:(lia)) as Hyear.
  destruct (Intn R 45 r2) as [year r3].
  rewrite (pick_split R r3 GenerateData.directors).
  set (r4 := (GenerateData.pick R r3 _).2).
  unfold GenerateData.randFloat.
  destruct (Float64 R r4) as [f r5].
  pose proof (HR 81 r5 ltac:(lia)) as Hrun.
  destruct (Intn R 81 r5) as [runtime r6].
  unfold bind, time_Now_Format, ret. simpl in *.
  split; [done|].
  split; [by apply pick_in|]. split; [by apply pick_in|].
  split; [by apply pick_in|]. split; [lia|]. split; [lia|].
  split; [by exists f | done].
Qed.

(** The counter of the concrete setting keeps the promise of [rand.Intn]. *)
Lemma Sample_rand_in_range : Intn_in_range Sample.rand.
Proof. intros n rng Hn. simpl. by apply Z.mod_pos_bound. Qed.


(** The fields of a book. *)
Lemma makeBook_fields R rng id w :
  Intn_in_range R →
  let b := (GenerateData.makeBook R rng id w).2.1 in
  Book.ID b = id
  ∧ Book.Title _ b ∈ GenerateData.bookTitles
  ∧ Book.Author _ b ∈ GenerateData.authors
  ∧ Book.Genre _ b ∈ GenerateData.bookGenres
  ∧ 1965 ≤ Book.Year _ b ≤ 2024
  ∧ 150 ≤ Book.Pages _ b ≤ 599
  ∧ (∃ f, Book.Rating _ b
          = fadd R (fconst R "3.5")
              (fmul R f (fsub R (fconst R "5.0") (fconst R "3.5"))))
  ∧ Book.CreatedAt _ b = w_clock w (w_ticks w) GenerateData.RFC3339.
Proof.
  intros HR b. subst b. unfold GenerateData.makeBook.
  rewrite (pick_split R rng GenerateData.bookTitles).
  set (r1 := (GenerateData.pick R rng _).2).
  rewrite (pick_split R r1 GenerateData.authors).
  set (r2 := (GenerateData.pick R r1 _).2).
  rewrite (pick_split R r2 GenerateData.bookGenres).
  set (r3 := (GenerateData.pick R r2 _).2).
  pose proof (HR 60 r3 ltac:(lia)) as Hyear.
  destruct (Intn R 60 r3) as [year r4].
  pose proof (HR 450 r4 ltac:(lia)) as Hpages.
  destruct (Intn R 450 r4) as [pages r5].
  unfold GenerateData.randFloat.
  destruct (Float64 R r5) as [f r6].
  unfold bind, time_Now_Format, ret. simpl in *.
  split; [done|].
  split; [by apply pick_in|]. split; [by apply pick_in|].
  split; [by apply pick_in|]. split; [lia|]. split; [lia|].
  split; [by exists f | done].
Qed.


(** The fields of a person. *)
Lemma makePerson_fields st R rng id w :
  Intn_in_range R →
  let p := (GenerateData.makePerson st R rng id w).2.1 in
  Person.ID p = id
  ∧ Person.FirstName p ∈ GenerateData.firstNames
  ∧ Person.LastName p ∈ GenerateData.lastNames
  ∧ Person.Email p
    = ToLower st (Person.FirstName p +:+ "." +:+ Person.LastName p
                  +:+ "@example.com")
  ∧ Person.City p ∈ GenerateData.cities
  ∧ Person.Country p ∈ GenerateData.countries
  ∧ 18 ≤ Person.Age p ≤ 69
  ∧ Person.CreatedAt p = w_clock w (w_ticks w) GenerateData.RFC3339.
Proof.
  intros HR p. subst p. unfold GenerateData.makePerson.
  rewrite (pick_split R rng GenerateData.firstNames).
  set (r1 := (GenerateData.pick R rng _).2).
  rewrite (pick_split R r1 GenerateData.lastNames).
  set (r2 := (GenerateData.pick R r1 _).2).
  rewrite (pick_split R r2 GenerateData.cities).
  set (r3 := (GenerateData.pick R r2 _).2).
  rewrite (pick_split R r3 GenerateData.countries).
  set (r4 := (GenerateData.pick R r3 _).2).
  pose proof (HR 52 r4 ltac:(lia)) as Hage.
  destruct (Intn R 52 r4) as [age r5].
  unfold bind, time_Now_Format, ret. simpl in *.
  split; [done|].
  split; [by apply pick_in|]. split; [by apply pick_in|].
  split; [done|].
  split; [by apply pick_in|]. split; [by apply pick_in|].
  split; [lia | done].
Qed.


(** X27.  With a random source that keeps the promise of [rand.Intn], every
    record made has the identifier it was asked for, the time of its
    making, and fields within their ranges.  A movie has a title, a genre
    and a director from the vocabularies, a year from 1980 to 2024 and a
    running time from 80 to 160 minutes; a book has a title, an author and
    a genre from the vocabularies, a year from 1965 to 2024 and from 150 to
    599 pages; a person has names, a city and a country from the
    vocabularies, an age from 18 to 69, and the e-mail address made of the
    two names in lower case.  [pick] is never out of range. *)
Theorem generated_fields_in_range st R rng id w :
  Intn_in_range R →
  let m := (GenerateData.makeMovie R rng id w).2.1 in
  let b := (GenerateData.makeBook R rng id w).2.1 in
  let p := (GenerateData.makePerson st R rng id w).2.1 in
  (Movie.ID m = id
   ∧ Movie.Title _ m ∈ GenerateData.movieTitles
   ∧ Movie.Genre _ m ∈ GenerateData.movieGenres
   ∧ Movie.Director _ m ∈ GenerateData.directors
   ∧ 1980 ≤ Movie.Year _ m ≤ 2024
   ∧ 80 ≤ Movie.Runtime _ m ≤ 160
   ∧ Movie.CreatedAt _ m = w_clock w (w_ticks w) GenerateData.RFC3339)
  ∧ (Book.ID b = id
     ∧ Book.Title _ b ∈ GenerateData.bookTitles
     ∧ Book.Author _ b ∈ GenerateData.authors
     ∧ Book.Genre _ b ∈ GenerateData.bookGenres
     ∧ 1965 ≤ Book.Year _ b ≤ 2024
     ∧ 150 ≤ Book.Pages _ b ≤ 599
     ∧ Book.CreatedAt _ b = w_clock w (w_ticks w) GenerateData.RFC3339)
  ∧ (Person.ID p = id
     ∧ Person.FirstName p ∈ GenerateData.firstNames
     ∧ Person.LastName p ∈ GenerateData.lastNames
     ∧ Person.Email p
       = ToLower st (Person.FirstName p +:+ "." +:+ Person.LastName p
                     +:+ "@example.com")
     ∧ Person.City p ∈ GenerateData.cities
     ∧ Person.Country p ∈ GenerateData.countries
     ∧ 18 ≤ Person.Age p ≤ 69
     ∧ Person.CreatedAt p = w_clock w (w_ticks w) GenerateData.RFC3339).
Proof.
  intros HR m b p. split; [|split].
  - destruct (makeMovie_fields R rng id w HR)
      as (H1 & H2 & H3 & H4 & H5 & H6 & _ & H8).
    exact (conj H1 (conj H2 (conj H3 (conj H4 (conj H5 (conj H6 H8)))))).
  - destruct (makeBook_fields R rng id w HR)
      as (H1 & H2 & H3 & H4 & H5 & H6 & _ & H8).
    exact (conj H1 (conj H2 (conj H3 (conj H4 (conj H5 (conj H6 H8)))))).
  - apply (makePerson_fields st R rng id w HR).
Qed.

Lemma generated_fields_in_range_witness :
  let w := Sample.world [] "output" (Directory [] None) in
  let p := (GenerateData.makePerson Sample.strings Sample.rand 3%nat 7 w).2.1 in
  Person.ID p = 7
  ∧ Person.FirstName p ∈ GenerateData.firstNames
  ∧ Person.LastName p ∈ GenerateData.lastNames
  ∧ Person.Email p = "ethan.nguyen@example.com"
  ∧ 18 ≤ Person.Age p ≤ 69.
Proof.
  intros w p.
  destruct (generated_fields_in_range Sample.strings Sample.rand 3%nat 7 w
              Sample_rand_in_range)
    as (_ & _ & Hid & Hfirst & Hlast & _ & _ & _ & Hage & _).
  split; [exact Hid|]. split; [exact Hfirst|]. split; [exact Hlast|].
  split; [vm_compute; reflexivity | exact Hage].
Defined.

(** * What [writeJSONArray] leaves behind *)

Section Buffered.
Import GenerateData.
Context (st : Strings) (R : Rand).
Variable Marshal : Item R → list byte * option error.
Variable L : nat.
Hypothesis Marshal_ok : ∀ item, (Marshal item).2 = None.
Hypothesis Marshal_short : ∀ item, (length (Marshal item).1 ≤ L)%nat.

(** What fits into the buffer goes there, and the file is not touched. *)
Lemma Writer_Write_buffers b p w :
  wr_err b = None → (length (wr_buf b) + length p ≤ bufSize)%nat →
  Writer_Write b p w = (w, (mkWriter (wr_path b) (wr_buf b ++ p) None, None)).
Proof.
  intros He Hfit.
  assert (Writer_Write_turn b p w = (w, (b, p))) as Hturn.
  { unfold Writer_Write_turn, Available.
    replace (bufSize - length (wr_buf b) <? length p)%nat with false
      by (symmetry; apply Nat.ltb_ge; lia).
    done. }
  unfold Writer_Write, bind. rewrite Hturn, Hturn, He. done.
Qed.

Lemma writeJSONArray_loop_buffers dataTypeVal (n : nat) :
  ∀ first writer rng w,
  wr_err writer = None →
  (length (wr_buf writer) + n * (L + 2) ≤ bufSize)%nat →
  ∃ w' writer',
    writeJSONArray_loop R Marshal (makeItem st R dataTypeVal)
      (seqZ first (Z.of_nat n)) writer rng w
    = (w', (writer', None))
    ∧ wr_err writer' = None ∧ wr_path writer' = wr_path writer
    ∧ (length (wr_buf writer) ≤ length (wr_buf writer')
       ≤ length (wr_buf writer) + n * (L + 2))%nat
    ∧ w_files w' = w_files w ∧ w_fault w' = w_fault w.
Proof.
  induction n as [|n IH]; intros first writer rng w He Hfit.
  - exists w, writer. simpl. unfold ret. repeat split; try done; lia.
  - rewrite Nat2Z.inj_succ, seqZ_cons by lia.
    replace (Z.pred (Z.succ (Z.of_nat n))) with (Z.of_nat n) by lia.
    cbn [writeJSONArray_loop]. unfold bind at 1.
    assert (∃ writer1,
      (if first >? 0 then Writer_Write writer (bytes_of ("," +:+ nl))
       else ret (writer, None)) w = (w, (writer1, None))
      ∧ wr_err writer1 = None ∧ wr_path writer1 = wr_path writer
      ∧ (length (wr_buf writer) ≤ length (wr_buf writer1)
         ≤ length (wr_buf writer) + 2)%nat)
      as (writer1 & -> & He1 & Hp1 & Hl1).
    { destruct (first >? 0).
      - rewrite Writer_Write_buffers by (try done; simpl length; lia).
        eexists. split; [done|]. simpl. rewrite length_app. simpl.
        repeat split; try done; lia.
      - exists writer. unfold ret. repeat split; try done; lia. }
    destruct (makeItem_ID st R dataTypeVal first rng w)
      as (w2 & item & rng2 & Hmk & _ & Hfiles2 & Hf2).
    unfold bind at 1. rewrite Hmk.
    pose proof (Marshal_ok item) as Hm. pose proof (Marshal_short item) as Hs.
    destruct (Marshal item) as [data merr]. simpl in Hm, Hs. subst merr.
    unfold bind at 1.
    rewrite Writer_Write_buffers by (try done; lia).
    destruct (IH (Z.succ first)
                (mkWriter (wr_path writer1) (wr_buf writer1 ++ data) None)
                rng2 w2 eq_refl)
      as (w4 & writer4 & Hloop & He4 & Hp4 & Hl4 & Hfiles4 & Hf4).
    { simpl. rewrite length_app. lia. }
    rewrite Hloop. exists w4, writer4. split; [done|].
    simpl in Hp4, Hl4. rewrite length_app in Hl4.
    split; [done|]. split; [congruence|]. split; [lia|].
    split; congruence.
Qed.

End Buffered.

(** X29.  [writeJSONArray] drops the error of its deferred [writer.Flush()].  An
    array that fits into the buffer of the writer reaches the file in that
    flush only; when the write to the file fails there, [writeJSONArray]
    still returns no error, and the file it created is left empty. *)
Theorem writeJSONArray_drops_flush_error st R Marshal (L : nat) path count
    dataTypeVal rng w e :
  0 ≤ count →
  (∀ item, (Marshal item).2 = None) →
  (∀ item, (length (Marshal item).1 ≤ L)%nat) →
  (5 + Z.to_nat count * (L + 2) ≤ GenerateData.bufSize)%nat →
  w_fault w (EvCreate path) = None →
  w_fault w (EvWrite path) = Some e →
  let r := GenerateData.writeJSONArray R Marshal path count
             (GenerateData.makeItem st R dataTypeVal) rng w in
  r.2 = None ∧ w_files r.1 !! path = Some [].
Proof.
  intros Hc HM HL Hfit Hcr Hwr r.
  assert (∃ w', r = (w', None) ∧ w_files w' !! path = Some [])
    as (w' & -> & Hfile); [|done].
  subst r. unfold GenerateData.writeJSONArray.
  set (w0 := set_file path [] (log (EvCreate path) w)).
  assert (os_Create path w = (w0, None)) as Hcreate.
  { unfold os_Create, bind, call, ret. simpl. by rewrite Hcr. }
  unfold bind at 1. rewrite Hcreate.
  unfold bind at 1. unfold bind at 1.
  rewrite (Writer_Write_buffers (GenerateData.mkWriter path [] None))
    by (try done; simpl length; lia).
  cbn [app GenerateData.wr_path GenerateData.wr_buf].
  destruct (writeJSONArray_loop_buffers st R Marshal L HM HL dataTypeVal
              (Z.to_nat count) 0
              (GenerateData.mkWriter path (bytes_of ("[" +:+ nl)) None)
              rng w0 eq_refl)
    as (w2 & writer2 & Hloop & He2 & Hp2 & Hl2 & Hfiles2 & Hf2).
  { simpl length. lia. }
  rewrite Z2Nat.id in Hloop by lia.
  unfold bind at 1. rewrite Hloop.
  simpl length in Hl2.
  rewrite (Writer_Write_buffers writer2) by (try done; simpl length; lia).
  unfold bind at 1. unfold GenerateData.Writer_Flush.
  cbn [GenerateData.wr_err GenerateData.wr_buf GenerateData.wr_path].
  replace (length (GenerateData.wr_buf writer2 ++ bytes_of (nl +:+ "]" +:+ nl))
           =? 0)%nat with false
    by (symmetry; apply Nat.eqb_neq; rewrite length_app; simpl length; lia).
  unfold GenerateData.file_Write, os_Close, bind, call, ret.
  cbn [fst snd w_fault w_files log]. rewrite Hf2, Hp2.
  cbn [GenerateData.wr_path].
  assert (w_fault w0 (EvWrite path) = Some e) as -> by exact Hwr.
  eexists. split; [reflexivity|].
  cbn [fst snd w_files log]. rewrite Hfiles2. unfold w0.
  cbn [w_files set_file]. apply lookup_insert_eq.
Qed.

Lemma writeJSONArray_drops_flush_error_witness :
  let marshal := λ _ : GenerateData.Item Sample.rand,
                   (bytes_of "{}", @None error) in
  let full := Errorf "no space left on device" in
  let w := mkWorld ∅ (λ _, inr EOF)
             (λ ev, if bool_decide (ev = EvWrite "out/people.json")
                    then Some full else None)
             Sample.clock O [] id [] in
  let r := GenerateData.writeJSONArray Sample.rand marshal "out/people.json" 3
             (GenerateData.makeItem Sample.strings Sample.rand "people")
             O w in
  r.2 = None ∧ w_files r.1 !! "out/people.json" = Some [].
Proof.
  intros marshal full w.
  apply (writeJSONArray_drops_flush_error Sample.strings Sample.rand marshal
           2%nat "out/people.json" 3 "people" O w full).
  - lia.
  - intros item. reflexivity.
  - intros item. simpl. lia.
  - unfold GenerateData.bufSize. simpl. lia.
  - reflexivity.
  - reflexivity.
Defined.

(** X28.  With nothing to write, [writeJSONArray] writes the empty array: for a
    count of zero or less the loop does not run, no record is made, and
    when no call fails the file holds the opening and the closing line. *)
Theorem writeJSONArray_empty_array R Marshal path count makeItem rng w :
  count ≤ 0 → no_fault w →
  let r := GenerateData.writeJSONArray R Marshal path count makeItem rng w in
  r.2 = None
  ∧ w_files r.1 !! path = Some (json_array [])
  ∧ w_trace r.1 = w_trace w ++ [EvCreate path; EvWrite path; EvClose path].
Proof.
  intros Hc Hf r.
  assert (∃ w', r = (w', None)
                ∧ w_files w' !! path = Some (json_array [])
                ∧ w_trace w' = w_trace w
                               ++ [EvCreate path; EvWrite path; EvClose path])
    as (w' & -> & Hfile & Ht); [|done].
  subst r. unfold GenerateData.writeJSONArray.
  rewrite seqZ_nil by lia.
  set (w0 := set_file path [] (log (EvCreate path) w)).
  assert (os_Create path w = (w0, None)) as Hcreate.
  { unfold os_Create, bind, call, ret. simpl. by rewrite Hf. }
  unfold bind at 1. rewrite Hcreate.
  unfold bind at 1. unfold bind at 1.
  rewrite (Writer_Write_buffers (GenerateData.mkWriter path [] None))
    by (try done; simpl length; unfold GenerateData.bufSize; lia).
  cbn [app GenerateData.wr_path GenerateData.wr_buf
       GenerateData.writeJSONArray_loop].
  unfold bind at 1. unfold ret at 1.
  rewrite Writer_Write_buffers
    by (try done; simpl length; unfold GenerateData.bufSize; lia).
  unfold bind at 1. unfold GenerateData.Writer_Flush.
  cbn [GenerateData.wr_err GenerateData.wr_buf GenerateData.wr_path].
  replace (length (bytes_of ("[" +:+ nl) ++ bytes_of (nl +:+ "]" +:+ nl))
           =? 0)%nat with false by done.
  unfold GenerateData.file_Write, os_Close, bind, call, ret.
  cbn [fst snd w_fault w_files log].
  assert (w_fault w0 (EvWrite path) = None) as -> by apply Hf.
  eexists. split; [reflexivity|].
  unfold w0. cbn [fst snd w_files w_trace log set_file]. split.
  - rewrite lookup_insert_eq, lookup_insert_eq. reflexivity.
  - by rewrite <- !app_assoc.
Qed.

Lemma writeJSONArray_empty_array_witness :
  let w := Sample.world [] "output" (Directory [] None) in
  let r := GenerateData.writeJSONArray Sample.rand Sample.marshal
             "output/movies.json" 0
             (GenerateData.makeItem Sample.strings Sample.rand "movies")
             O w in
  r.2 = None
  ∧ w_files r.1 !! "output/movies.json" = Some (json_array [])
  ∧ w_trace r.1
    = w_trace w ++ [EvCreate "output/movies.json"; EvWrite "output/movies.json";
                    EvClose "output/movies.json"].
Proof.
  intros w.
  apply (writeJSONArray_empty_array Sample.rand Sample.marshal
           "output/movies.json" 0
           (GenerateData.makeItem Sample.strings Sample.rand "movies") O w).
  - lia.
  - intros ev. reflexivity.
Defined.

(** * How the tools end *)

Lemma ends_fatal {A} S text : ends S (@fatal A text).
Proof. intros w. simpl. split; [done|]. eexists. apply last_snoc. Qed.

Lemma ends_run {A} (m : IO A) : ends (λ _, True) (run m).
Proof. intros w. unfold run. by destruct (m w). Qed.

Lemma ends_pbind {A B} S (m : Proc A) (k : A → Proc B) :
  ends (λ _, True) m → (∀ a, ends S (k a)) → ends S (pbind m k).
Proof.
  intros Hm Hk w. unfold pbind. specialize (Hm w).
  destruct (m w) as [w1 [a|code]]; simpl in *; [apply Hk | done].
Qed.

(** A step that cannot stop the tool, followed by one chosen by what the
    step returned. *)
Lemma ends_after {A B} S (m : IO A) (Q : A → Prop) (k : A → Proc B) :
  returns m Q → (∀ a, Q a → ends S (k a)) → ends S (pbind (run m) k).
Proof.
  intros Hm Hk w. unfold pbind, run. specialize (Hm w).
  destruct (m w) as [w1 a]. simpl in *. by apply Hk.
Qed.

Lemma ends_print text : ends printed_last (run (Print_stdout text)).
Proof. intros w. simpl. eexists. apply last_snoc. Qed.

Lemma ends_weaken {A} S (m : Proc A) : ends S m → ends (λ _, True) m.
Proof. intros Hm w. specialize (Hm w). by destruct (m w).2. Qed.

(** Take a tool apart along its binds and its case distinctions. *)
Ltac ends_step :=
  lazymatch goal with
  | |- ends _ (fatal _) => apply ends_fatal
  | |- ends _ (run (Print_stdout _)) =>
      first [apply ends_print | apply ends_run]
  | |- ends _ (run _) => apply ends_run
  | |- ends _ (pbind _ _) => apply ends_pbind; [|intros ?]
  | |- ends _ (match ?x with _ => _ end) => destruct x
  | |- ends _ (let (_, _) := ?x in _) => destruct x
  end.

Ltac ends_all := repeat ends_step.

Section Ends.
Context (fp : Filepath) (st : Strings) (z : Zstd).

Lemma ends_compress cfg : ends_reported (Compress.main fp st z cfg).
Proof.
  unfold ends_reported, Compress.main, Compress.main_work,
    Compress.main_report.
  ends_all.
Qed.

Lemma ends_decompress cfg : ends_reported (Decompress.main fp st z cfg).
Proof.
  unfold ends_reported, Decompress.main, Decompress.main_work,
    Decompress.main_report.
  ends_all.
Qed.

Lemma ends_main_collect cfg : ends (λ _, True) (TrainDict.main_collect fp cfg).
Proof.
  unfold TrainDict.main_collect.
  destruct (TrainDict.dictSize cfg <=? 0); [apply ends_fatal|].
  destruct (TrainDict.maxSamples cfg <=? 0) eqn:Es; [apply ends_fatal|].
  destruct (TrainDict.maxSampleBytes cfg <=? 0) eqn:Eb; [apply ends_fatal|].
  apply Z.leb_gt in Es, Eb.
  apply ends_pbind; [apply ends_run|]. intros [e|]; [apply ends_fatal|].
  apply ends_pbind; [destruct (String.eqb _ _); apply ends_run|].
  intros outputPath.
  eapply ends_after; [by apply returns_collectSamples|].
  intros r (samples & stats & err & -> & _).
  destruct err; [apply ends_fatal | apply ends_run].
Qed.

Lemma ends_train cfg : ends_reported (TrainDict.main fp st z cfg).
Proof.
  unfold ends_reported, TrainDict.main, TrainDict.main_work.
  apply ends_pbind.
  - apply ends_pbind; [apply ends_main_collect|].
    intros [[outputPath samples] stats]. unfold TrainDict.main_train.
    ends_all.
  - intros [[stats trained] outputPath]. unfold TrainDict.main_report.
    ends_all.
Qed.

End Ends.

Section EndsGenerate.
Context (fp : Filepath) (st : Strings) (R : Rand).
Variable Marshal : GenerateData.Item R → list byte * option error.

Lemma ends_promptString message :
  ends (λ _, True) (GenerateData.promptString st message).
Proof.
  intros w. pose proof (promptString_loop_answer st message
    (S (length (w_stdin w))) w ltac:(lia)) as H.
  unfold ends.
  destruct (promptString_of_loop st message w) as [-> ->].
  by destruct (GenerateData.promptString_loop _ _ _ w).2.
Qed.

Lemma ends_promptInt message :
  ends (λ _, True) (GenerateData.promptInt st message).
Proof.
  intros w. pose proof (promptInt_loop_answer st message
    (S (length (w_stdin w))) w ltac:(lia)) as H.
  unfold ends.
  destruct (promptInt_of_loop st message w) as [-> ->].
  by destruct (GenerateData.promptInt_loop _ _ _ w).2.
Qed.

Lemma ends_generate cfg :
  ends_reported (GenerateData.main fp st R Marshal cfg).
Proof.
  unfold ends_reported, GenerateData.main, GenerateData.main_work,
    GenerateData.main_report.
  apply ends_pbind.
  - apply ends_pbind.
    { destruct (String.eqb _ _); [apply ends_promptString | apply ends_run]. }
    intros dataType. apply ends_pbind.
    { destruct (_ <=? _); [apply ends_promptInt | apply ends_run]. }
    intros count. ends_all.
  - intros [[count ty] outputFile]. ends_all.
Qed.

End EndsGenerate.

(** X30.  Once [flag.Parse] has accepted the command line, each of the four
    tools ends in one of two ways, whatever the values of the flags and
    whatever the file system, standard input and the gateway do: it
    returns from [main] having printed its summary on standard output
    last, or it stops with exit code 1 having printed a message on
    standard error last.  (A command line that [flag.Parse] refuses ends
    the run inside the library, before any of this.)  The prompts of the
    generator, in particular, come to an end on an input of finitely many
    lines. *)
Theorem tools_end_reported fp st z R Marshal
    (c : Compress.Config) (d : Decompress.Config) (t : TrainDict.Config)
    (g : GenerateData.Config) :
  ends_reported (Compress.main fp st z c)
  ∧ ends_reported (Decompress.main fp st z d)
  ∧ ends_reported (TrainDict.main fp st z t)
  ∧ ends_reported (GenerateData.main fp st R Marshal g).
Proof.
  split; [apply ends_compress|]. split; [apply ends_decompress|].
  split; [apply ends_train | apply ends_generate].
Qed.

(** * What the trainer writes *)

(** ** The samples depend on the disk alone *)

Lemma reads_disk_ret {A} (a : A) : reads_disk (ret a).
Proof. by intros w1 w2 H. Qed.

Lemma reads_disk_bind {A B} (m : IO A) (k : A → IO B) :
  reads_disk m → (∀ a, reads_disk (k a)) → reads_disk (bind m k).
Proof.
  intros Hm Hk w1 w2 H. unfold bind. destruct (Hm w1 w2 H) as [Hr Hw].
  destruct (m w1) as [w1' a1], (m w2) as [w2' a2]. simpl in *. subst a2.
  by apply Hk.
Qed.

Lemma reads_disk_call ev : reads_disk (call ev).
Proof.
  intros w1 w2 (Hf & Hl & Hfa). unfold call, same_disk. simpl.
  by rewrite Hfa.
Qed.

Lemma reads_disk_Open path : reads_disk (os_Open path).
Proof.
  unfold os_Open. apply reads_disk_bind; [apply reads_disk_call|].
  intros [e|]; [apply reads_disk_ret|].
  intros w1 w2 (Hf & Hl & Hfa). rewrite Hf.
  by destruct (w_files w2 !! path).
Qed.

Lemma reads_disk_listFiles fp dir : reads_disk (listFiles fp dir).
Proof.
  intros w1 w2 (Hf & Hl & Hfa). unfold listFiles, same_disk. simpl.
  by rewrite Hl.
Qed.

Ltac reads_step :=
  lazymatch goal with
  | |- reads_disk (bind _ _) => apply reads_disk_bind; [|intros ?]
  | |- reads_disk (ret _) => apply reads_disk_ret
  | |- reads_disk (call _) => apply reads_disk_call
  | |- reads_disk (os_Close _) => apply reads_disk_call
  | |- reads_disk (os_Open _) => apply reads_disk_Open
  | |- reads_disk (listFiles _ _) => apply reads_disk_listFiles
  | |- reads_disk (match ?x with _ => _ end) => destruct x
  | |- reads_disk (let (_, _) := ?x in _) => destruct x
  end.

Ltac reads_all := repeat reads_step.

Section ReadsDisk.
Import TrainDict.

Lemma reads_disk_ReadFull path body off m :
  reads_disk (io_ReadFull path body off m).
Proof. unfold io_ReadFull. reads_all. Qed.

Lemma reads_disk_readSamples_loop fuel path body m cap :
  ∀ off samples total,
  reads_disk (readSamples_loop fuel path body off m cap samples total).
Proof.
  induction fuel as [|fuel IH]; intros off samples total; simpl.
  - reads_all.
  - destruct (negb _); [reads_all|].
    apply reads_disk_bind; [apply reads_disk_ReadFull|].
    intros [chunk err]. reads_all; apply IH.
Qed.

Lemma reads_disk_readSamplesFromFile path maxBytes cap :
  reads_disk (readSamplesFromFile path maxBytes cap).
Proof.
  unfold readSamplesFromFile.
  apply reads_disk_bind; [apply reads_disk_Open|].
  intros [e|]; [reads_all|].
  destruct (maxBytes <? 0); [reads_all|].
  apply reads_disk_bind.
  { intros w1 w2 H. split; [|done]. simpl. by destruct H as [-> _]. }
  intros body.
  apply reads_disk_bind; [apply reads_disk_readSamples_loop|].
  intros r. reads_all.
Qed.

Lemma reads_disk_collectSamples_loop paths cap maxBytes :
  ∀ samples stats,
  reads_disk (collectSamples_loop paths cap maxBytes samples stats).
Proof.
  induction paths as [|path rest IH]; intros samples stats; simpl.
  - reads_all.
  - destruct (_ >=? _); [reads_all|].
    apply reads_disk_bind; [apply reads_disk_readSamplesFromFile|].
    intros r. reads_all; apply IH.
Qed.

Lemma reads_disk_collectSamples fp dir maxSamples maxBytes :
  reads_disk (collectSamples fp dir maxSamples maxBytes).
Proof.
  unfold collectSamples.
  apply reads_disk_bind; [apply reads_disk_listFiles|].
  intros [paths [e|]]; [reads_all|].
  destruct (_ =? _); [reads_all|].
  destruct (_ <? _); [reads_all|].
  apply reads_disk_bind; [apply reads_disk_collectSamples_loop|].
  intros r. reads_all.
Qed.

End ReadsDisk.

Section Trainer.
Context (fp : Filepath) (st : Strings) (z : Zstd).

Lemma keeps_main_collect cfg : keeps_files (TrainDict.main_collect fp cfg).
Proof.
  unfold TrainDict.main_collect.
  repeat (match goal with
          | |- keeps_files (if ?b then _ else _) => destruct b
          end; [keeps_all|]).
  apply keeps_pbind; [keeps_all|]. intros [e|]; [keeps_all|].
  apply keeps_pbind; [destruct (String.eqb _ _); keeps_all|].
  intros outputPath. apply keeps_pbind.
  - apply keeps_run, keeps_collectSamples.
  - intros r. keeps_all.
Qed.

Lemma keeps_train_report cfg r :
  keeps_files (TrainDict.main_report fp st cfg r).
Proof.
  destruct r as [[stats trained] outputPath].
  unfold TrainDict.main_report, TrainDict.pushMetrics. keeps_all.
Qed.

(** What the first part of [main] hands to the training: the output path,
    and the samples and the statistics [collectSamples] returns for the
    files as they are when the run begins. *)
Lemma main_collect_result cfg w w1 outputPath samples stats :
  TrainDict.main_collect fp cfg w
  = (w1, Continue (outputPath, samples, stats)) →
  outputPath = dictionary_path fp cfg w
  ∧ (TrainDict.collectSamples fp (TrainDict.inputDir cfg)
       (TrainDict.maxSamples cfg) (TrainDict.maxSampleBytes cfg) w).2
    = Some (samples, stats, None)
  ∧ 2 ≤ len samples ∧ counted stats samples.
Proof.
  unfold TrainDict.main_collect, dictionary_path.
  destruct (TrainDict.dictSize cfg <=? 0); [done|].
  destruct (TrainDict.maxSamples cfg <=? 0) eqn:Es; [done|].
  destruct (TrainDict.maxSampleBytes cfg <=? 0) eqn:Eb; [done|].
  apply Z.leb_gt in Es, Eb.
  unfold pbind at 1. unfold run at 1. unfold os_MkdirAll, call.
  destruct (w_fault w _); [done|].
  unfold pbind at 1.
  set (w0 := log (EvMkdirAll (TrainDict.outDir cfg)) w).
  assert (∃ w2,
    (if String.eqb (TrainDict.outFile cfg) ""
     then run (let* now := time_Now_Format "20060102_150405" in
               ret (Join fp (TrainDict.outDir cfg)
                      ("zstd_dict_" +:+ now +:+ ".zdict")))
     else run (ret (TrainDict.outFile cfg))) w0
    = (w2, Continue (dictionary_path fp cfg w))
    ∧ same_disk w2 w) as (w2 & -> & Hsame).
  { unfold dictionary_path. destruct (String.eqb _ _); by eexists. }
  unfold dictionary_path, pbind, run.
  pose proof (returns_collectSamples_counted fp (TrainDict.inputDir cfg) _ _
                Es Eb w2)
    as (smp & sts & err & Hr & so_far & _ & Hc & Heq).
  destruct (reads_disk_collectSamples fp (TrainDict.inputDir cfg)
              (TrainDict.maxSamples cfg) (TrainDict.maxSampleBytes cfg)
              w2 w Hsame) as [Hres _].
  rewrite <- Hres.
  destruct (TrainDict.collectSamples _ _ _ _ w2) as [w3 r]. simpl in Hr.
  subst r. destruct err as [e|]; [done|]. simpl. intros H. simplify_eq.
  destruct (Heq eq_refl) as [<- H2]. done.
Qed.

End Trainer.

(** X22.  A run of the trainer changes one file at most: the one at the
    output path (the path given with [-out-file], or a name made of the
    time in the output directory).  When the main work returns, that file
    holds the dictionary the library built, with the options of the flags,
    from the samples [collectSamples] returns for the input directory, of
    which there are two or more, counted by the statistics; every other
    file is as it was, and the push of the metrics that follows changes
    none.  When the run stops, every other file is as it was, and so is
    that one unless [os.WriteFile] had opened it. *)
Theorem trainer_writes_the_dictionary fp st z (cfg : TrainDict.Config) w :
  let outputPath := dictionary_path fp cfg w in
  let ran := (TrainDict.main fp st z cfg w).1 in
  match (TrainDict.main_work fp z cfg w).2 with
  | Continue (stats, trained, path) =>
      path = outputPath
      ∧ w_files ran = <[outputPath := trained]> (w_files w)
      ∧ ∃ samples,
          (TrainDict.collectSamples fp (TrainDict.inputDir cfg)
             (TrainDict.maxSamples cfg) (TrainDict.maxSampleBytes cfg) w).2
          = Some (samples, stats, None)
          ∧ 2 ≤ len samples
          ∧ TrainDict.Samples stats = len samples
          ∧ TrainDict.SampleBytes stats = sum_len samples
          ∧ BuildZstdDict z samples (TrainDict.train_options cfg)
            = (trained, None)
  | Exit _ =>
      (∀ q, q ≠ outputPath → w_files ran !! q = w_files w !! q)
      ∧ ∃ evs,
          w_trace ran = w_trace w ++ evs
          ∧ (EvWriteFile outputPath ∉ evs
             ∨ w_fault w (EvWriteFile outputPath) ≠ None →
             w_files ran = w_files w)
  end.
Proof.
  intros outputPath ran.
  assert (w_files ran = w_files (TrainDict.main_work fp z cfg w).1
          ∧ ∀ code, (TrainDict.main_work fp z cfg w).2 = Exit code →
                    ran = (TrainDict.main_work fp z cfg w).1) as [Hran Hstop].
  { subst ran. unfold TrainDict.main, pbind.
    destruct (TrainDict.main_work fp z cfg w) as [w1 [r|code]]; [|done].
    split; [apply keeps_train_report | done]. }
  revert Hran Hstop. generalize ran. clear ran. intros ran.
  unfold TrainDict.main_work, pbind.
  pose proof (keeps_main_collect fp cfg w) as Hkeep.
  destruct (performs_main_collect fp cfg w) as (evs1 & Hframe & Hev1).
  destruct Hframe as (_ & Hfault & _ & Htrace).
  destruct (TrainDict.main_collect fp cfg w)
    as [w1 [[[path samples] stats]|code]] eqn:Ecollect;
    simpl in Hkeep, Hfault, Htrace.
  2: { intros Hran Hstop. rewrite (Hstop _ eq_refl). simpl.
       split; [intros; by rewrite Hkeep|].
       exists evs1. split; [done|]. by intros _. }
  apply main_collect_result in Ecollect as (Hpath & Hcol & H2 & Hn & Hb & _).
  fold outputPath in Hpath. subst path.
  unfold TrainDict.main_train, pbind, run, call, os_MkdirAll, os_WriteFile,
    write_all, os_Close, bind, call, ret, fatal, pbind, run, Fprint_stderr,
    os_Exit.
  cbn [fst snd w_fault w_files w_trace log set_file].
  destruct (BuildZstdDict z samples (TrainDict.train_options cfg))
    as [trained [e|]] eqn:Ebuild.
  { intros Hran Hstop. rewrite (Hstop _ eq_refl).
    cbn [fst snd w_fault w_files w_trace log set_file].
    split; [intros; by rewrite Hkeep|].
    eexists. split; [rewrite Htrace, <- !app_assoc; reflexivity|].
    by intros _. }
  cbn [fst snd w_fault w_files w_trace log set_file].
  rewrite ?Hfault.
  destruct (w_fault w (EvMkdirAll _)).
  { intros Hran Hstop. rewrite (Hstop _ eq_refl).
    cbn [fst snd w_fault w_files w_trace log set_file].
    split; [intros; by rewrite Hkeep|].
    eexists. split; [rewrite Htrace, <- !app_assoc; reflexivity|].
    by intros _. }
  cbn [fst snd w_fault w_files w_trace log set_file]. rewrite ?Hfault.
  destruct (w_fault w (EvWriteFile outputPath)) eqn:Eopen.
  { intros Hran Hstop. rewrite (Hstop _ eq_refl).
    cbn [fst snd w_fault w_files w_trace log set_file].
    split; [intros; by rewrite Hkeep|].
    eexists. split; [rewrite Htrace, <- !app_assoc; reflexivity|].
    by intros _. }
  cbn [fst snd w_fault w_files w_trace log set_file]. rewrite ?Hfault.
  destruct (w_fault w (EvWrite outputPath)) eqn:Ewrite.
  { intros Hran Hstop. rewrite (Hstop _ eq_refl).
    cbn [fst snd w_fault w_files w_trace log set_file].
    split; [intros q Hq; by rewrite lookup_insert_ne, Hkeep|].
    eexists. split; [rewrite Htrace, <- !app_assoc; reflexivity|].
    intros [Hnot|Hnot]; [|done]. exfalso. apply Hnot.
    rewrite !elem_of_app, !elem_of_cons. tauto. }
  cbn [fst snd w_fault w_files w_trace log set_file]. rewrite ?Hfault.
  destruct (w_fault w (EvClose outputPath)) eqn:Eclose.
  { intros Hran Hstop. rewrite (Hstop _ eq_refl).
    cbn [fst snd w_fault w_files w_trace log set_file].
    split; [intros q Hq; by rewrite !lookup_insert_ne, Hkeep|].
    eexists. split; [rewrite Htrace, <- !app_assoc; reflexivity|].
    intros [Hnot|Hnot]; [|done]. exfalso. apply Hnot.
    rewrite !elem_of_app, !elem_of_cons. tauto. }
  cbn [fst snd w_fault w_files w_trace log set_file].
  intros Hran _. rewrite Hran, insert_insert_eq, Hkeep.
  split; [done|]. split; [done|]. by exists samples.
Qed.

(** * A failure ends the batch *)

Section FirstFailure.
Context (fp : Filepath) (z : Zstd).

(** A turn that fails leaves the statistics as they were. *)
Lemma compressFiles_body_failure options baseDir outDir path stats w w' stats' e :
  Compress.compressFiles_body fp z options baseDir outDir path stats w
  = (w', (stats', Some e)) →
  stats' = stats.
Proof.
  unfold Compress.compressFiles_body, Compress.copy_encode.
  destruct (Rel fp baseDir path) as [rel [e'|]]; [by intros [=]|].
  unfold bind, os_MkdirAll, os_Open, os_Create, os_Close, os_Stat,
    read_all, write_all, call, ret, bind.
  cbn [fst snd w_fault w_files log set_file].
  repeat (match goal with
          | |- context [match w_fault w ?ev with _ => _ end] =>
              destruct (w_fault w ev)
          | |- context [match ?m !! ?p with _ => _ end] =>
              destruct (m !! p)
          end; cbn [fst snd w_fault w_files log set_file];
          try (by intros [=])).
Qed.

Lemma decompressFiles_body_failure options baseDir outDir path stats w w'
    stats' e :
  Decompress.decompressFiles_body fp z options baseDir outDir path stats w
  = (w', (stats', Some e)) →
  stats' = stats.
Proof.
  unfold Decompress.decompressFiles_body, Decompress.copy_decode.
  destruct (Rel fp baseDir path) as [rel [e'|]]; [by intros [=]|].
  unfold bind, os_MkdirAll, os_Open, os_Create, os_Close, os_Stat,
    read_all, write_all, call, ret, bind.
  cbn [fst snd w_fault w_files log set_file].
  repeat (match goal with
          | |- context [match w_fault w ?ev with _ => _ end] =>
              destruct (w_fault w ev)
          | |- context [match ?m !! ?p with _ => _ end] =>
              destruct (m !! p)
          | |- context [match decode z options ?d with _ => _ end] =>
              destruct (decode z options d)
          end; cbn [fst snd w_fault w_files log set_file];
          try (by intros [=])).
Qed.

(** A turn that succeeds counts one file more. *)
Lemma compressFiles_body_one_more options baseDir outDir path stats w w' stats' :
  Compress.compressFiles_body fp z options baseDir outDir path stats w
  = (w', (stats', None)) →
  FilesProcessed stats' = FilesProcessed stats + 1.
Proof.
  unfold Compress.compressFiles_body, Compress.copy_encode.
  destruct (Rel fp baseDir path) as [rel [e'|]]; [by intros [=]|].
  unfold bind, os_MkdirAll, os_Open, os_Create, os_Close, os_Stat,
    read_all, write_all, call, ret, bind.
  cbn [fst snd w_fault w_files log set_file].
  repeat (match goal with
          | |- context [match w_fault w ?ev with _ => _ end] =>
              destruct (w_fault w ev)
          | |- context [match ?m !! ?p with _ => _ end] =>
              destruct (m !! p)
          end; cbn [fst snd w_fault w_files log set_file];
          try (by intros [=])).
  intros [= <- <-]. done.
Qed.

Lemma decompressFiles_body_one_more options baseDir outDir path stats w w'
    stats' :
  Decompress.decompressFiles_body fp z options baseDir outDir path stats w
  = (w', (stats', None)) →
  FilesProcessed stats' = FilesProcessed stats + 1.
Proof.
  unfold Decompress.decompressFiles_body, Decompress.copy_decode.
  destruct (Rel fp baseDir path) as [rel [e'|]]; [by intros [=]|].
  unfold bind, os_MkdirAll, os_Open, os_Create, os_Close, os_Stat,
    read_all, write_all, call, ret, bind.
  cbn [fst snd w_fault w_files log set_file].
  repeat (match goal with
          | |- context [match w_fault w ?ev with _ => _ end] =>
              destruct (w_fault w ev)
          | |- context [match ?m !! ?p with _ => _ end] =>
              destruct (m !! p)
          | |- context [match decode z options ?d with _ => _ end] =>
              destruct (decode z options d)
          end; cbn [fst snd w_fault w_files log set_file];
          try (by intros [=])).
  intros [= <- <-]. done.
Qed.

End FirstFailure.

(** X13.  [compressFiles] stops at the first file that fails.  When the loop
    returns an error, the paths are the files done, the one that failed and
    the rest: the files done were compressed as if they had been the whole
    batch, the turn of the failing file returned the error, and that is
    where the run was left: the rest was not looked at.  The statistics
    returned are those of the files done, whose number they count. *)
Theorem compressFiles_stops_at_first_failure fp z options baseDir outDir
    paths stats w w' stats' e :
  Compress.compressFiles_loop fp z options baseDir outDir paths stats w
  = (w', (stats', Some e)) →
  ∃ finished path rest w1,
    paths = finished ++ path :: rest
    ∧ Compress.compressFiles_loop fp z options baseDir outDir finished stats w
      = (w1, (stats', None))
    ∧ Compress.compressFiles_body fp z options baseDir outDir path stats' w1
      = (w', (stats', Some e))
    ∧ FilesProcessed stats' = FilesProcessed stats + len finished.
Proof.
  revert stats w. induction paths as [|p1 rest IH]; intros stats w Hrun.
  - by inversion Hrun.
  - simpl in Hrun. unfold bind in Hrun.
    destruct (Compress.compressFiles_body _ _ _ _ _ _ _ w)
      as [w1 [stats1 [e1|]]] eqn:Hbody.
    + inversion Hrun; subst; clear Hrun.
      pose proof (compressFiles_body_failure _ _ _ _ _ _ _ _ _ _ _ Hbody)
        as ->.
      exists [], p1, rest, w. split; [done|]. split; [done|].
      split; [done|]. unfold len. simpl. lia.
    + destruct (IH stats1 w1 Hrun)
        as (finished & path & rest' & w2 & -> & Hdone & Hfail & Hn).
      exists (p1 :: finished), path, rest', w2. split; [done|].
      split; [simpl; unfold bind; by rewrite Hbody|]. split; [done|].
      pose proof (compressFiles_body_one_more _ _ _ _ _ _ _ _ _ _ Hbody)
        as Hone.
      rewrite Hn, Hone. unfold len. simpl length. lia.
Qed.

Lemma compressFiles_stops_at_first_failure_witness :
  let w := Sample.world [("in/a.json", "hello"); ("in/z.json", "world")] "in"
             (Directory [("a.json", Sample.file 5); ("gone", Sample.file 1);
                         ("z.json", Sample.file 5)] None) in
  let r := Compress.compressFiles_loop Sample.paths Sample.zstd [] "in" "out"
             ["in/a.json"; "in/gone"; "in/z.json"] (mkRunStats 0 0 0) w in
  FilesProcessed r.2.1 = 1
  ∧ w_files r.1 !! "out/a.json.zst" = Some (bytes_of "(0hello")
  ∧ w_files r.1 !! "out/z.json.zst" = None
  ∧ ∃ finished path rest w1,
      ["in/a.json"; "in/gone"; "in/z.json"] = finished ++ path :: rest
      ∧ Compress.compressFiles_loop Sample.paths Sample.zstd [] "in" "out"
          finished (mkRunStats 0 0 0) w = (w1, (r.2.1, None))
      ∧ FilesProcessed r.2.1 = FilesProcessed (mkRunStats 0 0 0) + len finished.
Proof.
  intros w r.
  split; [vm_compute; reflexivity|]. split; [vm_compute; reflexivity|].
  split; [vm_compute; reflexivity|].
  destruct (compressFiles_stops_at_first_failure Sample.paths Sample.zstd []
              "in" "out" ["in/a.json"; "in/gone"; "in/z.json"]
              (mkRunStats 0 0 0) w r.1 r.2.1
              (PathError "open" "in/gone" "no such file or directory"))
    as (finished & path & rest & w1 & Hp & Hdone & _ & Hn).
  - vm_compute. reflexivity.
  - exists finished, path, rest, w1. split; [exact Hp|].
    split; [exact Hdone | exact Hn].
Defined.

(** X18.  [decompressFiles] stops at the first file that fails, be it a failed
    call on the file system or a frame that cannot be decoded.  When the
    loop returns an error, the paths are the files done, the one that
    failed and the rest: the files done were decompressed as if they had
    been the whole batch, the turn of the failing file returned the error,
    and the rest was not looked at.  The statistics returned are those of
    the files done, whose number they count. *)
Theorem decompressFiles_stops_at_first_failure fp z options baseDir outDir
    paths stats w w' stats' e :
  Decompress.decompressFiles_loop fp z options baseDir outDir paths stats w
  = (w', (stats', Some e)) →
  ∃ finished path rest w1,
    paths = finished ++ path :: rest
    ∧ Decompress.decompressFiles_loop fp z options baseDir outDir finished
        stats w
      = (w1, (stats', None))
    ∧ Decompress.decompressFiles_body fp z options baseDir outDir path stats'
        w1
      = (w', (stats', Some e))
    ∧ FilesProcessed stats' = FilesProcessed stats + len finished.
Proof.
  revert stats w. induction paths as [|p1 rest IH]; intros stats w Hrun.
  - by inversion Hrun.
  - simpl in Hrun. unfold bind in Hrun.
    destruct (Decompress.decompressFiles_body _ _ _ _ _ _ _ w)
      as [w1 [stats1 [e1|]]] eqn:Hbody.
    + inversion Hrun; subst; clear Hrun.
      pose proof (decompressFiles_body_failure _ _ _ _ _ _ _ _ _ _ _ Hbody)
        as ->.
      exists [], p1, rest, w. split; [done|]. split; [done|].
      split; [done|]. unfold len. simpl. lia.
    + destruct (IH stats1 w1 Hrun)
        as (finished & path & rest' & w2 & -> & Hdone & Hfail & Hn).
      exists (p1 :: finished), path, rest', w2. split; [done|].
      split; [simpl; unfold bind; by rewrite Hbody|]. split; [done|].
      pose proof (decompressFiles_body_one_more _ _ _ _ _ _ _ _ _ _ Hbody)
        as Hone.
      rewrite Hn, Hone. unfold len. simpl length. lia.
Qed.

Lemma decompressFiles_stops_at_first_failure_witness :
  let w := Sample.world [("out/a.zst", "(0hello"); ("out/b.zst", "broken");
                         ("out/c.zst", "(0world")] "out"
             (Directory [("a.zst", Sample.file 7); ("b.zst", Sample.file 6);
                         ("c.zst", Sample.file 7)] None) in
  let r := Decompress.decompressFiles_loop Sample.paths Sample.zstd [] "out"
             "dec" ["out/a.zst"; "out/b.zst"; "out/c.zst"] (mkRunStats 0 0 0)
             w in
  r.2.2 = Some (Errorf "magic number mismatch")
  ∧ w_files r.1 !! "dec/a" = Some (bytes_of "hello")
  ∧ w_files r.1 !! "dec/c" = None
  ∧ ∃ finished path rest w1,
      ["out/a.zst"; "out/b.zst"; "out/c.zst"] = finished ++ path :: rest
      ∧ Decompress.decompressFiles_loop Sample.paths Sample.zstd [] "out"
          "dec" finished (mkRunStats 0 0 0) w = (w1, (r.2.1, None))
      ∧ FilesProcessed r.2.1 = FilesProcessed (mkRunStats 0 0 0) + len finished.
Proof.
  intros w r.
  split; [vm_compute; reflexivity|]. split; [vm_compute; reflexivity|].
  split; [vm_compute; reflexivity|].
  destruct (decompressFiles_stops_at_first_failure Sample.paths Sample.zstd []
              "out" "dec" ["out/a.zst"; "out/b.zst"; "out/c.zst"]
              (mkRunStats 0 0 0) w r.1 r.2.1
              (Errorf "magic number mismatch"))
    as (finished & path & rest & w1 & Hp & Hdone & _ & Hn).
  - vm_compute. reflexivity.
  - exists finished, path, rest, w1. split; [exact Hp|].
    split; [exact Hdone | exact Hn].
Defined.

(** * A run of the compressor that succeeds *)

Section CompressRuns.
Context (fp : Filepath) (z : Zstd).

Lemma compressFiles_body_runs options baseDir outDir path stats w body :
  no_fault w →
  (Rel fp baseDir path).2 = None →
  compressed_path fp baseDir outDir path ≠ path →
  w_files w !! path = Some body →
  ∃ w' stats',
    Compress.compressFiles_body fp z options baseDir outDir path stats w
    = (w', (stats', None)).
Proof.
  intros Hf HRel Hne Hbody.
  unfold compressed_path in *. unfold Compress.compressFiles_body.
  destruct (Rel fp baseDir path) as [rel err] eqn:E. simpl in *. subst err.
  set (outPath := Compress.out_path fp outDir rel) in *.
  unfold bind, os_MkdirAll, os_Open, os_Create, os_Close, os_Stat,
    Compress.copy_encode, read_all, write_all, call, ret, bind.
  repeat (progress (simpl; rewrite ?Hf, ?Hbody;
                    try rewrite lookup_insert_ne by done)).
  rewrite lookup_insert_eq. by eexists _, _.
Qed.

Lemma compressFiles_loop_runs options baseDir outDir :
  ∀ paths stats w,
  no_fault w →
  (∀ o p, o ∈ compressed_path fp baseDir outDir <$> paths → p ∈ paths →
          o ≠ p) →
  (∀ p, p ∈ paths →
     (Rel fp baseDir p).2 = None ∧ is_Some (w_files w !! p)) →
  ∃ w' stats',
    Compress.compressFiles_loop fp z options baseDir outDir paths stats w
    = (w', (stats', None)).
Proof.
  induction paths as [|p1 rest IH]; intros stats w Hf Hdis Hall.
  - by eexists _, _.
  - rewrite fmap_cons in Hdis.
    destruct (Hall p1) as (HRel & body & Hb); [left|].
    assert (compressed_path fp baseDir outDir p1 ≠ p1) as Hne
      by (apply Hdis; left).
    destruct (compressFiles_body_runs options baseDir outDir p1 stats w body
                Hf HRel Hne Hb) as (w1 & stats1 & Hrun).
    pose proof Hrun as Hrun'.
    apply compressFiles_body_success in Hrun'
      as (body' & _ & Hfiles & Hfault); [|done].
    destruct (IH stats1 w1) as (w' & stats' & Hloop).
    + intros ev. by rewrite Hfault.
    + intros o p Ho Hp. apply Hdis; by right.
    + intros p Hp. destruct (Hall p) as (HRelp & b & Hbp); [by right|].
      split; [done|]. exists b.
      rewrite Hfiles, lookup_insert_ne; [done|]. apply Hdis; [left | by right].
    + exists w', stats'. simpl. unfold bind. by rewrite Hrun.
Qed.

End CompressRuns.

(** X15.  When no call fails, every listed file is there and has a path relative
    to the input directory, the encoder takes its options, and no
    compressed copy takes the place of another one or of a listed file,
    then the compressor returns from [main]: every listed file has its
    compressed copy, made with the level of [-level] and the dictionary of
    [-dict], and the last thing the run does is to print the summary, with
    the number of the files and the bytes read and written. *)
Theorem compressor_succeeds fp st z (cfg : Compress.Config) w paths :
  no_fault w →
  (Compress.useDict cfg = true →
   TrimSpace st (Compress.dictPath cfg) ≠ ""
   ∧ is_Some (w_files w !! Compress.dictPath cfg)) →
  listFiles_on fp (w_lstat w (Compress.inputDir cfg)) (Compress.inputDir cfg)
  = (paths, None) →
  paths ≠ [] →
  let options := Compress.encoder_options z (Compress.level cfg)
                   (dictionary_of cfg w) in
  NewWriter z options = None →
  let outs := compressed_path fp (Compress.inputDir cfg) (Compress.outDir cfg)
              <$> paths in
  NoDup outs →
  (∀ o p, o ∈ outs → p ∈ paths → o ≠ p) →
  (∀ p, p ∈ paths →
     (Rel fp (Compress.inputDir cfg) p).2 = None
     ∧ is_Some (w_files w !! p)) →
  let r := Compress.main fp st z cfg w in
  r.2 = Continue tt
  ∧ (∀ p, p ∈ paths →
       ∃ body,
         w_files w !! p = Some body
         ∧ w_files r.1
             !! compressed_path fp (Compress.inputDir cfg)
                  (Compress.outDir cfg) p
           = Some (encode z options body))
  ∧ last (w_trace r.1)
    = Some (EvStdout
        ("compressed " +:+ Itoa (len paths) +:+ " files ("
         +:+ Itoa (sum_len (bodies_of w paths)) +:+ " bytes -> "
         +:+ Itoa (sum_len (encode z options <$> bodies_of w paths))
         +:+ " bytes) into " +:+ Compress.outDir cfg +:+ nl)).
Proof.
  intros Hf Hdict Hlist Hne options HW outs Hnd Hdis Hall r.
  (* up to the reading of the dictionary *)
  set (w2 := log (EvWalkDir (Compress.inputDir cfg))
               (log (EvMkdirAll (Compress.outDir cfg)) w)).
  assert (∃ w3,
    (if Compress.useDict cfg
     then do r <- run (os_ReadFile (Compress.dictPath cfg));
          match r with
          | (_, Some e) => fatal ("failed to read dict: " +:+ Error e +:+ nl)
          | (data, None) => run (ret data)
          end
     else run (ret [])) w2 = (w3, Continue (dictionary_of cfg w))
    ∧ w_files w3 = w_files w ∧ w_fault w3 = w_fault w)
    as (w3 & Hread & Hfiles3 & Hfault3).
  { unfold dictionary_of. destruct (Compress.useDict cfg); [|by eexists].
    destruct (Hdict eq_refl) as [_ [data Hdata]].
    unfold pbind, run, os_ReadFile, bind, call, ret. simpl.
    rewrite Hf. simpl. rewrite Hdata. by eexists. }
  assert (no_fault w3) as Hf3 by (intros ev; by rewrite Hfault3).
  destruct (compressFiles_loop_runs fp z options (Compress.inputDir cfg)
              (Compress.outDir cfg) paths (mkRunStats 0 0 0) w3 Hf3 Hdis)
    as (w4 & stats & Hloop).
  { intros p Hp. rewrite Hfiles3. by apply Hall. }
  pose proof (compressFiles_loop_success fp z _ _ _ _ _ _ _ _ Hloop Hnd Hdis)
    as (Hfault4 & _ & Hcopies).
  pose proof (compressFiles_loop_counts fp z _ _ _ _ _ _ _ _ Hloop Hdis)
    as (_ & Hn & Hin & Hout).
  assert (bodies_of w3 paths = bodies_of w paths) as Hbodies
    by (unfold bodies_of; by rewrite Hfiles3).
  rewrite Hbodies in Hin, Hout. simpl in Hn, Hin, Hout.
  assert (Compress.main_work fp st z cfg w = (w4, Continue stats)) as Hwork.
  { unfold Compress.main_work.
    replace (Compress.useDict cfg
             && String.eqb (TrimSpace st (Compress.dictPath cfg)) "")
      with false.
    2:{ symmetry. destruct (Compress.useDict cfg); [|done].
        destruct (Hdict eq_refl) as [Hpath _]. by apply String.eqb_neq. }
    unfold pbind at 1. unfold run at 1. unfold os_MkdirAll, call.
    rewrite Hf.
    unfold pbind at 1. unfold run at 1. unfold listFiles.
    cbn [fst snd w_lstat log]. rewrite Hlist.
    replace (len paths =? 0) with false.
    2:{ symmetry. apply Z.eqb_neq. unfold len. destruct paths; [done|].
        simpl. lia. }
    unfold pbind at 1. fold w2. rewrite Hread.
    unfold pbind, run, Compress.compressFiles. fold options.
    rewrite HW, Hloop. done. }
  subst r. unfold Compress.main, pbind. rewrite Hwork.
  unfold Compress.main_report, Compress.pushMetrics, pbind, run, call,
    Print_stdout.
  cbn [fst snd]. rewrite Hfault4, Hfault3, Hf.
  cbn [fst snd w_files w_trace log]. split; [done|]. split.
  - intros p Hp. destruct (Hcopies p Hp) as (body & Hb & Hcopy).
    exists body. split; [by rewrite <- Hfiles3 | done].
  - rewrite last_snoc, Hn, Hin, Hout. done.
Qed.

Lemma compressor_succeeds_witness :
  let cfg := Compress.mkConfig "in" "out" 3 true "dict.bin" "gateway" in
  let w := Sample.world [("in/a.json", "hello"); ("in/sub/c.json", "abc");
                         ("dict.bin", "dictionary")] "in"
             (Directory [("a.json", Sample.file 5);
                   ("sub", Directory [("c.json", Sample.file 3)] None)] None) in
  let r := Compress.main Sample.paths Sample.strings Sample.zstd cfg w in
  r.2 = Continue tt
  ∧ w_files r.1 !! "out/a.json.zst" = Some (bytes_of "(dhello")
  ∧ last (w_trace r.1)
    = Some (EvStdout ("compressed 2 files (8 bytes -> 12 bytes) into out"
                      +:+ nl)).
Proof.
  intros cfg w r.
  destruct (compressor_succeeds Sample.paths Sample.strings Sample.zstd cfg w
              ["in/a.json"; "in/sub/c.json"]) as (Hok & Hcopies & Hlast).
  - intros ev. reflexivity.
  - intros _. split; [vm_compute; discriminate | by eexists].
  - vm_compute. reflexivity.
  - discriminate.
  - reflexivity.
  - apply (bool_decide_unpack _). vm_compute. reflexivity.
  - intros o p Ho Hp.
    apply list_elem_of_In in Ho, Hp. vm_compute in Ho, Hp.
    intuition (subst; discriminate).
  - intros p Hp. apply list_elem_of_In in Hp. vm_compute in Hp.
    destruct Hp as [<-|[<-|[]]]; (split; [reflexivity | by eexists]).
  - split; [exact Hok|]. split.
    + destruct (Hcopies "in/a.json") as (body & Hb & Hcopy); [left|].
      vm_compute in Hb. injection Hb as <-. exact Hcopy.
    + exact Hlast.
Defined.
